(** * Particle simulation and ambient piano: a shallow embedding of
      [particles.js]

    The two classes of the source, [SoundManager] and [ParticleSimulation],
    are embedded as records with explicit state passing.

    Numbers.  JavaScript numbers are IEEE-754 doubles and the particle
    buffers are [Float32Array]s.  The embedding idealises both as real
    numbers ([R]): every arithmetic expression of the source is kept as it
    is written, evaluated without rounding, overflow or NaN.  Comparisons
    of the source become boolean tests on [R].  A division by zero gives
    NaN or an infinity in the source and has no counterpart among the
    reals: the interaction block, which divides by a distance, records the
    divisors of the divisions it executes, so that a theorem can say that
    none of them is zero.

    Arrays.  A [Float32Array] is a [list R].  A write outside the array is
    ignored, as for a typed array (and as stdpp's list insert does).  A read
    outside the array gives [undefined] in the source; the embedding reads
    [0] there, and every theorem that reads an array assumes the buffers
    have the length [3 * particleCount] that [createParticles] gives them.

    Environment.  [Math.random()], the audio clock [ctx.currentTime], the
    frame clock and the pointer position are inputs of the operations. *)

From Stdlib Require Import Reals Lra Lia ZArith.
From stdpp Require Import base list.

Set Warnings "-abstract-large-number".

Open Scope R_scope.

(** ** Numeric helpers *)

(** [a < b] as the source evaluates it: a boolean. *)
Definition Rltb (a b : R) : bool := if Rlt_dec a b then true else false.

(** [Math.floor]. *)
Definition floor (x : R) : Z := Int_part x.

(** Truncation toward zero, the integer quotient of JavaScript's [%]. *)
Definition trunc (x : R) : Z :=
  if Rle_dec 0 x then Int_part x else (- Int_part (- x))%Z.

(** JavaScript's [a % b] on numbers: the remainder keeps the sign of the
    dividend. *)
Definition js_rem (a b : R) : R := a - IZR (trunc (a / b)) * b.

(** ** Typed arrays *)

Abbreviation Float32Array := (list R).

(** [a[i]] read. *)
Definition get (a : Float32Array) (i : nat) : R := default 0 (a !! i).

(** [a[i] = v]. *)
Definition store (a : Float32Array) (i : nat) (v : R) : Float32Array :=
  <[i := v]> a.

(** [for (let i = 0; i < n; i++) body(i)] over a loop state. *)
Definition for_range {S : Type} (n : nat) (body : nat -> S -> S) (s : S) : S :=
  fold_left (fun acc i => body i acc) (seq 0 n) s.

(** ** Completion of a method call *)

(** A method either returns or throws; both carry the state it leaves. *)
Inductive completion (A : Type) : Type :=
| Returns : A -> completion A
| Throws : A -> completion A.
Arguments Returns {A} _.
Arguments Throws {A} _.

Definition state_of {A : Type} (c : completion A) : A :=
  match c with Returns a => a | Throws a => a end.

(** ** SoundManager (ambient piano) *)

Module SoundManager.

(** [AudioContext.state]. *)
Inductive ContextState : Type := suspended | running | closed.

(** The audio graph that [init] builds.  [ctx], [masterGain] and
    [reverbNode] are assigned together (all [null] in the constructor, all
    set by [init]), so the embedding keeps one optional graph; [gain] is the
    value the master gain is set or ramped to. *)
Record AudioContext : Type := mkAudioContext {
  currentTime : R;
  state : ContextState;
  gain : R
}.

Inductive OscillatorType : Type := sine | sawtooth | triangle.

(** What [playNote] puts on the audio graph: an oscillator pair and its
    envelope. *)
Record Voice : Type := mkVoice {
  midiNote : option Z;
  freq : option R;
  oscType : OscillatorType;
  osc2Type : OscillatorType;
  detune : R;
  startTime : R;
  releaseTime : R
}.

(** The fields of the class, followed by the two things the browser holds
    for it: the pending [setTimeout] callbacks of [playNote] (their delays
    in milliseconds; each one, when run, does [activeVoices--]) and the
    voices started so far, newest first. *)
Record t : Type := mk {
  ctx : option AudioContext;
  isInitialized : bool;
  currentScale : list Z;
  isInverted : bool;
  lastNoteTime : R;
  noteDensity : R;
  maxVoices : Z;
  activeVoices : Z;
  isMuted : bool;
  timeouts : list R;
  voices : list Voice
}.

Definition scaleDefault : list Z := [60; 62; 64; 67; 69; 72; 74; 76; 79; 81]%Z.
Definition scaleInverted : list Z := [48; 49; 52; 53; 55; 57; 58; 60; 64; 65]%Z.

(** [constructor()]. *)
Definition constructor : t :=
  {| ctx := None;
     isInitialized := false;
     currentScale := scaleDefault;
     isInverted := false;
     lastNoteTime := 0;
     noteDensity := 0.15;
     maxVoices := 8;
     activeVoices := 0;
     isMuted := false;
     timeouts := [];
     voices := [] |}.

(** [setInverted(isInverted)]. *)
Definition setInverted (inv : bool) (sm : t) : t :=
  {| ctx := ctx sm;
     isInitialized := isInitialized sm;
     currentScale := if inv then scaleInverted else scaleDefault;
     isInverted := inv;
     lastNoteTime := lastNoteTime sm;
     noteDensity := noteDensity sm;
     maxVoices := maxVoices sm;
     activeVoices := activeVoices sm;
     isMuted := isMuted sm;
     timeouts := timeouts sm;
     voices := voices sm |}.

Definition with_ctx (c : option AudioContext) (sm : t) : t :=
  {| ctx := c;
     isInitialized := isInitialized sm;
     currentScale := currentScale sm;
     isInverted := isInverted sm;
     lastNoteTime := lastNoteTime sm;
     noteDensity := noteDensity sm;
     maxVoices := maxVoices sm;
     activeVoices := activeVoices sm;
     isMuted := isMuted sm;
     timeouts := timeouts sm;
     voices := voices sm |}.

(** [toggleMute()]: flips the flag and, when the graph exists, ramps the
    master gain to [0] or [0.4]. *)
Definition toggleMute (sm : t) : t :=
  let muted := negb (isMuted sm) in
  {| ctx := match ctx sm with
            | Some c => Some {| currentTime := currentTime c;
                                state := state c;
                                gain := if muted then 0 else 0.4 |}
            | None => None
            end;
     isInitialized := isInitialized sm;
     currentScale := currentScale sm;
     isInverted := isInverted sm;
     lastNoteTime := lastNoteTime sm;
     noteDensity := noteDensity sm;
     maxVoices := maxVoices sm;
     activeVoices := activeVoices sm;
     isMuted := muted;
     timeouts := timeouts sm;
     voices := voices sm |}.

(** What [new AudioContext()] does, an input of [init]: the browser hands
    out a context, with its clock reading [t0] and its state [st0], or the
    expression throws (no such constructor in [window], or the browser
    refuses another context). *)
Inductive Construction : Type :=
| Constructed (t0 : R) (st0 : ContextState)
| ConstructorThrows.

(** [init()]: a no-op once initialised; otherwise it asks for a context
    and builds the graph on it.  When [new AudioContext()] throws, the
    method is left before anything is assigned: [ctx] stays [null] and
    [isInitialized] stays [false].  The calls that build the graph on a
    context just created ([createGain], [createConvolver], [createBuffer]
    with the context's own sample rate, [connect]) are taken to return. *)
Definition init (fresh : Construction) (sm : t) : completion t :=
  if isInitialized sm then Returns sm
  else
    match fresh with
    | ConstructorThrows => Throws sm
    | Constructed t0 st0 =>
        Returns
          {| ctx := Some {| currentTime := t0; state := st0; gain := 0.8 |};
             isInitialized := true;
             currentScale := currentScale sm;
             isInverted := isInverted sm;
             lastNoteTime := lastNoteTime sm;
             noteDensity := noteDensity sm;
             maxVoices := maxVoices sm;
             activeVoices := activeVoices sm;
             isMuted := isMuted sm;
             timeouts := timeouts sm;
             voices := voices sm |}
    end.

(** [playNote()]; [rnd] is the value of its [Math.random()]. *)
Definition playNote (rnd : R) (sm : t) : t :=
  match ctx sm with
  | None => sm
  | Some c =>
      let midi :=
        currentScale sm
          !! Z.to_nat (floor (rnd * INR (length (currentScale sm)))) in
      let t := currentTime c in
      let release := if isInverted sm then 4.0 else 2.5 in
      {| ctx := ctx sm;
         isInitialized := isInitialized sm;
         currentScale := currentScale sm;
         isInverted := isInverted sm;
         lastNoteTime := lastNoteTime sm;
         noteDensity := noteDensity sm;
         maxVoices := maxVoices sm;
         activeVoices := activeVoices sm + 1;
         isMuted := isMuted sm;
         timeouts := timeouts sm ++ [(release + 0.5) * 1000];
         voices :=
           {| midiNote := midi;
              freq := (fun m => 440 * Rpower 2 ((IZR m - 69) / 12)) <$> midi;
              oscType := if isInverted sm then sawtooth else sine;
              osc2Type := triangle;
              detune := if isInverted sm then -10 else 4;
              startTime := t;
              releaseTime := release |} :: voices sm |}
  end.

Definition with_lastNoteTime (now : R) (sm : t) : t :=
  {| ctx := ctx sm;
     isInitialized := isInitialized sm;
     currentScale := currentScale sm;
     isInverted := isInverted sm;
     lastNoteTime := now;
     noteDensity := noteDensity sm;
     maxVoices := maxVoices sm;
     activeVoices := activeVoices sm;
     isMuted := isMuted sm;
     timeouts := timeouts sm;
     voices := voices sm |}.

(** [ctx.resume()] on a suspended context. *)
Definition resume (sm : t) : t :=
  match ctx sm with
  | Some c =>
      match state c with
      | suspended =>
          with_ctx (Some {| currentTime := currentTime c;
                            state := running;
                            gain := gain c |}) sm
      | _ => sm
      end
  | None => sm
  end.

(** [triggerInteractionSound(intensity)].  The body never reads
    [intensity].  Reading [this.ctx.currentTime] with [ctx] null is the one
    place that can throw. *)
Definition triggerInteractionSound (intensity : R) (rnd : R) (sm : t)
  : completion t :=
  if negb (isInitialized sm) || isMuted sm then Returns sm
  else
    let sm1 := resume sm in
    if (activeVoices sm1 >=? maxVoices sm1)%Z then Returns sm1
    else
      match ctx sm1 with
      | None => Throws sm1
      | Some c =>
          let now := currentTime c in
          if Rltb (now - lastNoteTime sm1) (noteDensity sm1) then Returns sm1
          else Returns (with_lastNoteTime now (playNote rnd sm1))
      end.

(** The callback [playNote] hands to [setTimeout], for the [k]-th pending
    timer: [activeVoices--]. *)
Definition timeoutCallback (k : nat) (sm : t) : t :=
  match timeouts sm !! k with
  | None => sm
  | Some _ =>
      {| ctx := ctx sm;
         isInitialized := isInitialized sm;
         currentScale := currentScale sm;
         isInverted := isInverted sm;
         lastNoteTime := lastNoteTime sm;
         noteDensity := noteDensity sm;
         maxVoices := maxVoices sm;
         activeVoices := activeVoices sm - 1;
         isMuted := isMuted sm;
         timeouts := delete k (timeouts sm);
         voices := voices sm |}
  end.

(** The audio clock moves on by [dt] seconds. *)
Definition advance (dt : R) (sm : t) : t :=
  match ctx sm with
  | Some c =>
      with_ctx (Some {| currentTime := currentTime c + dt;
                        state := state c;
                        gain := gain c |}) sm
  | None => sm
  end.

(** The browser suspends, resumes or closes the context. *)
Definition setContextState (st : ContextState) (sm : t) : t :=
  match ctx sm with
  | Some c =>
      with_ctx (Some {| currentTime := currentTime c;
                        state := st;
                        gain := gain c |}) sm
  | None => sm
  end.

(** Everything that can happen to a [SoundManager]: its four methods, a
    pending timer running, and the browser moving the clock or changing the
    context state.  A method that throws leaves the state that goes on. *)
Inductive event : Type :=
| Init (fresh : Construction)
| SetInverted (inv : bool)
| ToggleMute
| Trigger (intensity rnd : R)
| Timeout (k : nat)
| Advance (dt : R)
| SetContextState (st : ContextState).

Definition exec (e : event) (sm : t) : t :=
  match e with
  | Init fresh => state_of (init fresh sm)
  | SetInverted inv => setInverted inv sm
  | ToggleMute => toggleMute sm
  | Trigger intensity rnd => state_of (triggerInteractionSound intensity rnd sm)
  | Timeout k => timeoutCallback k sm
  | Advance dt => advance dt sm
  | SetContextState st => setContextState st sm
  end.

(** Time does not run backwards. *)
Definition event_ok (e : event) : Prop :=
  match e with
  | Advance dt => 0 <= dt
  | _ => True
  end.

Definition run (es : list event) (sm : t) : t :=
  fold_left (fun acc e => exec e acc) es sm.

(** A call of [init] for which [new AudioContext()] hands out a context. *)
Definition constructs (e : event) : bool :=
  match e with Init (Constructed _ _) => true | _ => false end.

(** The reading of the audio clock ([0] while there is no context). *)
Definition clock (sm : t) : R :=
  match ctx sm with Some c => currentTime c | None => 0 end.

(** *** createImpulseResponse *)

(** The two channels of the impulse buffer. *)
Record ImpulseResponse : Type := mkImpulseResponse {
  ir_left : Float32Array;
  ir_right : Float32Array
}.

(** One iteration of the loop of [createImpulseResponse].  [Math.pow] is
    applied to the base [1 - n], positive for every index of the loop, where
    it is the real power [Rpower].  [rand k] is the value of the [k]-th
    call of [Math.random()] in this run of the method. *)
Definition impulseBody (length : nat) (decay : R) (rand : nat -> R)
    (i : nat) (b : ImpulseResponse) : ImpulseResponse :=
  let n := INR i / INR length in
  (* Exponential fade *)
  let env := Rpower (1 - n) decay in
  (* Randomized noise *)
  {| ir_left := store (ir_left b) i ((rand (2 * i)%nat * 2 - 1) * env);
     ir_right := store (ir_right b) i ((rand (2 * i + 1)%nat * 2 - 1) * env) |}.

(** [createImpulseResponse(duration, decay)]; [length] is the sample count
    [rate * duration] that the buffer is created with. *)
Definition createImpulseResponse (length : nat) (decay : R) (rand : nat -> R)
    : ImpulseResponse :=
  for_range length (impulseBody length decay rand)
    {| ir_left := replicate length 0; ir_right := replicate length 0 |}.

(** Firing the timer at the head of the queue [n] times. *)
Definition fireAll (n : nat) : list event := replicate n (Timeout 0).



(** The scale in use is the one that belongs to the inversion flag. *)
Definition ScaleMatches (sm : t) : Prop :=
  currentScale sm = (if isInverted sm then scaleInverted else scaleDefault).

(** *** Invariants used in the proofs *)

(** What holds of every sound manager that the constructor and the events
    can produce: the two limits keep their constructor values, every
    counted voice has its pending timer, and an initialised manager has its
    audio graph. *)
Definition Inv (sm : t) : Prop :=
  maxVoices sm = 8%Z
  /\ noteDensity sm = 0.15
  /\ activeVoices sm = Z.of_nat (length (timeouts sm))
  /\ (activeVoices sm <= 8)%Z
  /\ (isInitialized sm = true -> ctx sm <> None).

(** The notes started since a call made at audio time [t1], while less
    than [noteDensity] has passed: at most one beyond the [base] that were
    there, and that one not before [t1]. *)
Definition Window (t1 : R) (base : nat) (sm : t) : Prop :=
  (base <= length (voices sm) <= base + 1)%nat
  /\ (length (voices sm) = (base + 1)%nat -> t1 <= lastNoteTime sm)
  /\ t1 <= clock sm.

End SoundManager.

(** ** ParticleSimulation *)

Module ParticleSimulation.

(** [THREE.Vector3]. *)
Record Vector3 : Type := mkVector3 { vx : R; vy : R; vz : R }.

(** The entries of [this.config] that the simulation step reads; the
    others ([particleSize], the bloom settings, [shape]) only feed the
    renderer. *)
Record Config : Type := mkConfig {
  particleCount : nat;
  mouseRadius : R;
  mouseForce : R;
  returnSpeed : R;
  rotationSpeed : R;
  noiseAmount : R;
  windStrength : R;
  windTurbulence : R;
  damping : R
}.

(** The configuration the constructor installs. *)
Definition defaultConfig : Config :=
  {| particleCount := 90000;
     mouseRadius := 150;
     mouseForce := 1.0;
     returnSpeed := 0.0009;
     rotationSpeed := 0.003;
     noiseAmount := 0.1;
     windStrength := 0.09;
     windTurbulence := 0.2;
     damping := 0.96 |}.

(** The shape names ['sphere'], ['cube'], ['pyramid']. *)
Inductive Shape : Type := sphere | cube | pyramid.

Definition Shape_eqb (a b : Shape) : bool :=
  match a, b with
  | sphere, sphere | cube, cube | pyramid, pyramid => true
  | _, _ => false
  end.

(** [this.shapeOrder], never reassigned. *)
Definition shapeOrder : list Shape := [sphere; cube; pyramid].

(** [Array.prototype.indexOf]: the first position of [x], or [-1]. *)
Fixpoint indexOf (l : list Shape) (x : Shape) : Z :=
  match l with
  | [] => (-1)%Z
  | y :: l' =>
      if Shape_eqb y x then 0%Z
      else let r := indexOf l' x in
           if (r <? 0)%Z then (-1)%Z else (r + 1)%Z
  end.

(** The state of the simulation that the modelled methods read or write.
    [positions], [originalPositions] and [velocities] are the arrays of the
    geometry attributes [position], [originalPosition] and [velocity];
    [rotation_y] is [this.particles.rotation.y] and [uTime] the shader
    uniform.  The colour and size buffers, the scene, camera and composer
    are the renderer's and are left out. *)
Record t : Type := mk {
  config : Config;
  isMouseDown : bool;
  soundManager : SoundManager.t;
  currentShape : Shape;
  shapes : Shape -> Float32Array;
  isTransforming : bool;
  cooldown : Z;
  isFrozen : bool;
  isInverted : bool;
  positions : Float32Array;
  originalPositions : Float32Array;
  velocities : Float32Array;
  rotation_y : R;
  uTime : R
}.

(** The buffers have the length [createParticles] allocates them with. *)
Definition wf (s : t) : Prop :=
  let n3 := (particleCount (config s) * 3)%nat in
  length (positions s) = n3 /\
  length (originalPositions s) = n3 /\
  length (velocities s) = n3 /\
  forall sh, length (shapes s sh) = n3.

(** *** resetParticles *)

(** The two arrays the loop of [resetParticles] writes. *)
Record ResetLoop : Type := mkResetLoop {
  r_positions : Float32Array;
  r_velocities : Float32Array
}.

Definition resetBody (originalPositions : Float32Array) (i : nat)
    (l : ResetLoop) : ResetLoop :=
  {| r_positions := store (r_positions l) i (get originalPositions i);
     r_velocities := store (r_velocities l) i 0 |}.

Definition resetParticles (s : t) : t :=
  let l :=
    for_range (particleCount (config s) * 3)
      (resetBody (originalPositions s))
      {| r_positions := positions s; r_velocities := velocities s |} in
  {| config := config s;
     isMouseDown := isMouseDown s;
     soundManager := soundManager s;
     currentShape := currentShape s;
     shapes := shapes s;
     isTransforming := isTransforming s;
     cooldown := cooldown s;
     isFrozen := isFrozen s;
     isInverted := isInverted s;
     positions := r_positions l;
     originalPositions := originalPositions s;
     velocities := r_velocities l;
     rotation_y := rotation_y s;
     uTime := uTime s |}.

(** *** noise3D *)

Definition noise3D (x y z : R) : R :=
  let dot := x * 12.9898 + y * 78.233 + z * 37.719 in
  js_rem (sin dot * 43758.5453) 1.

(** *** toggleShape *)

Definition toggleShape (s : t) : t :=
  let currentIndex := indexOf shapeOrder (currentShape s) in
  let nextIndex := Z.rem (currentIndex + 1) (Z.of_nat (length shapeOrder)) in
  (* [shapeOrder[nextIndex]]; the index is always inside the list *)
  let currentShape' :=
    default (currentShape s) (shapeOrder !! Z.to_nat nextIndex) in
  let newTarget := shapes s currentShape' in
  {| config := config s;
     isMouseDown := isMouseDown s;
     soundManager := soundManager s;
     currentShape := currentShape';
     shapes := shapes s;
     isTransforming := true;
     cooldown := cooldown s;
     isFrozen := isFrozen s;
     isInverted := isInverted s;
     positions := positions s;
     originalPositions :=
       for_range (particleCount (config s) * 3)
         (fun i originalPositions => store originalPositions i (get newTarget i))
         (originalPositions s);
     velocities := velocities s;
     rotation_y := rotation_y s;
     uTime := uTime s |}.

(** *** toggleInvert (the colour buffer is the renderer's) *)

Definition toggleInvert (s : t) : t :=
  {| config := config s;
     isMouseDown := isMouseDown s;
     soundManager := SoundManager.setInverted (negb (isInverted s)) (soundManager s);
     currentShape := currentShape s;
     shapes := shapes s;
     isTransforming := isTransforming s;
     cooldown := cooldown s;
     isFrozen := isFrozen s;
     isInverted := negb (isInverted s);
     positions := positions s;
     originalPositions := originalPositions s;
     velocities := velocities s;
     rotation_y := rotation_y s;
     uTime := uTime s |}.

(** *** updateParticles *)

(** [a[i] += v]. *)
Definition add_at (a : Float32Array) (i : nat) (v : R) : Float32Array :=
  store a i (get a i + v).

(** [a[i] *= v]. *)
Definition mul_at (a : Float32Array) (i : nat) (v : R) : Float32Array :=
  store a i (get a i * v).

(** A value together with the divisors of the divisions that were executed
    to compute it, in the order of execution. *)
Definition Traced (A : Type) : Type := (A * list R)%type.

Definition ret {A : Type} (a : A) : Traced A := (a, []).

Definition bind {A B : Type} (m : Traced A) (k : A -> Traced B) : Traced B :=
  let r := k m.1 in (r.1, m.2 ++ r.2).

(** [a / b], recorded. *)
Definition divide (a b : R) : Traced R := (a / b, [b]).

Notation "'let*' x ':=' m 'in' k" := (bind m (fun x => k))
  (at level 10, x name, m at level 100, k at level 200, only parsing).

(** What the particle loop mutates: the position and velocity arrays and
    the local [totalInteractionForce].  [divisions] is no variable of the
    source: it lists the divisions that the interaction block has executed
    so far, each as the index of the particle and the divisor. *)
Record Loop : Type := mkLoop {
  l_positions : Float32Array;
  l_velocities : Float32Array;
  totalInteractionForce : R;
  divisions : list (nat * R)
}.

(** The loop body is embedded block by block, in the order of the source.
    Each block gets the locals it reads: [i3], the particle's position
    [x y z] and origin [ox oy oz] as read at the top of the iteration, and
    [displacement]. *)

(** Interaction block: [if (dist < mouseRadius && dist > 0) { ... }].
    [mouseForce] is already multiplied by the pressed factor.  Every [/] of
    the block is a [divide]: the two [dist / mouseRadius] of [force] and
    the three divisions by [dist]. *)
Definition interactionBlockTraced (mouseRadius mouseForce : R)
    (mousePos : Vector3) (i3 : nat) (x y z : R) (velocities : Float32Array)
    (total : R) : Traced (Float32Array * R) :=
  let dx := x - vx mousePos in
  let dy := y - vy mousePos in
  let dz := z - vz mousePos in
  let dist := sqrt (dx * dx + dy * dy + dz * dz) in
  if Rltb dist mouseRadius && Rltb 0 dist then
    let* q1 := divide dist mouseRadius in
    let* q2 := divide dist mouseRadius in
    let force := (1 - q1) * (1 - q2) * mouseForce in
    let tangentX := - dy * 0.3 in
    let tangentY := dx * 0.3 in
    let* ux := divide dx dist in
    let velocities :=
      add_at velocities i3 (ux * force + tangentX * force * 0.2) in
    let* uy := divide dy dist in
    let velocities :=
      add_at velocities (i3 + 1) (uy * force + tangentY * force * 0.2) in
    let* uz := divide dz dist in
    let velocities := add_at velocities (i3 + 2) (uz * force) in
    (* Accumulate energy for audio *)
    ret (velocities, if Rltb 0.1 force then total + force else total)
  else ret (velocities, total).

(** The interaction block without the record of its divisions: the
    velocity array and the energy it leaves. *)
Definition interactionBlock (mouseRadius mouseForce : R) (mousePos : Vector3)
    (i3 : nat) (x y z : R) (velocities : Float32Array) (total : R)
    : Float32Array * R :=
  (interactionBlockTraced mouseRadius mouseForce mousePos i3 x y z
     velocities total).1.

(** Wind block. *)
Definition windBlock (windX windY windZ windTurbulence time : R)
    (i3 : nat) (x y z displacement : R) (velocities : Float32Array)
    : Float32Array :=
  let windInfluence := Rmin (displacement / 50) 1 * 0.5 in
  let turbX := noise3D (x * 0.01 + time * 0.2) (y * 0.01) (z * 0.01) in
  let turbY := noise3D (x * 0.01) (y * 0.01 + time * 0.2) (z * 0.01) in
  let turbZ := noise3D (x * 0.01) (y * 0.01) (z * 0.01 + time * 0.2) in
  let velocities :=
    add_at velocities i3
      ((windX + turbX * windTurbulence) * windInfluence * 0.05) in
  let velocities :=
    add_at velocities (i3 + 1)
      ((windY + turbY * windTurbulence) * windInfluence * 0.05) in
  add_at velocities (i3 + 2)
    ((windZ + turbZ * windTurbulence) * windInfluence * 0.05).

(** Return block: [if (displacement > 0.1) { ... }]. *)
Definition returnBlock (returnSpeed : R)
    (i3 : nat) (x y z ox oy oz displacement : R) (velocities : Float32Array)
    : Float32Array :=
  if Rltb 0.1 displacement then
    let pullStrength := returnSpeed * (1 + displacement * 0.01) in
    let velocities := add_at velocities i3 ((ox - x) * pullStrength) in
    let velocities := add_at velocities (i3 + 1) ((oy - y) * pullStrength) in
    add_at velocities (i3 + 2) ((oz - z) * pullStrength)
  else velocities.

(** Jitter block: [if (noiseAmount > 0) { ... }]. *)
Definition jitterBlock (noiseAmount time : R)
    (i3 : nat) (x y z : R) (velocities : Float32Array) : Float32Array :=
  if Rltb 0 noiseAmount then
    let noiseScale := 0.01 in
    let noiseTime := time * 0.2 in
    let velocities :=
      add_at velocities i3
        (noise3D (x * noiseScale + noiseTime) (y * noiseScale)
           (z * noiseScale) * noiseAmount * 0.01) in
    let velocities :=
      add_at velocities (i3 + 1)
        (noise3D (x * noiseScale) (y * noiseScale + noiseTime)
           (z * noiseScale) * noiseAmount * 0.01) in
    add_at velocities (i3 + 2)
      (noise3D (x * noiseScale) (y * noiseScale)
         (z * noiseScale + noiseTime) * noiseAmount * 0.01)
  else velocities.

(** [positions[i3 + k] += velocities[i3 + k]] for [k = 0, 1, 2]. *)
Definition moveBlock (i3 : nat) (velocities positions : Float32Array)
    : Float32Array :=
  let positions := add_at positions i3 (get velocities i3) in
  let positions := add_at positions (i3 + 1) (get velocities (i3 + 1)) in
  add_at positions (i3 + 2) (get velocities (i3 + 2)).

(** [velocities[i3 + k] *= damping] for [k = 0, 1, 2]. *)
Definition dampBlock (damping : R) (i3 : nat) (velocities : Float32Array)
    : Float32Array :=
  let velocities := mul_at velocities i3 damping in
  let velocities := mul_at velocities (i3 + 1) damping in
  mul_at velocities (i3 + 2) damping.

(** The body of the particle loop for index [i].  [mousePos] is the
    pointer in the frame of the particle cloud, what the source obtains
    from [mouseWorld] and the inverse of the cloud's world matrix; the
    matrix code belongs to three.js. *)
Definition particleBody (cfg : Config) (isMouseDown : bool) (time : R)
    (mousePos : Vector3) (originalPositions : Float32Array)
    (i : nat) (l : Loop) : Loop :=
  let mouseRadius := mouseRadius cfg in
  let mouseForce := mouseForce cfg * (if isMouseDown then 2.5 else 1) in
  let returnSpeed := returnSpeed cfg in
  let noiseAmount := noiseAmount cfg in
  let windStrength := windStrength cfg in
  let windTurbulence := windTurbulence cfg in
  let damping := damping cfg in
  let windAngle := time * 0.1 in
  let windX := cos windAngle * windStrength in
  let windY := sin (windAngle * 0.7) * windStrength * 0.5 in
  let windZ := sin (windAngle * 0.5) * windStrength * 0.3 in
  let positions := l_positions l in
  let velocities := l_velocities l in
  let i3 := (i * 3)%nat in
  let x := get positions i3 in
  let y := get positions (i3 + 1) in
  let z := get positions (i3 + 2) in
  let ox := get originalPositions i3 in
  let oy := get originalPositions (i3 + 1) in
  let oz := get originalPositions (i3 + 2) in
  let dispX := x - ox in
  let dispY := y - oy in
  let dispZ := z - oz in
  let displacement := sqrt (dispX * dispX + dispY * dispY + dispZ * dispZ) in
  let '(velocities, total, divisors) :=
    interactionBlockTraced mouseRadius mouseForce mousePos i3 x y z
      velocities (totalInteractionForce l) in
  let velocities :=
    windBlock windX windY windZ windTurbulence time i3 x y z displacement
      velocities in
  let velocities :=
    returnBlock returnSpeed i3 x y z ox oy oz displacement velocities in
  let velocities := jitterBlock noiseAmount time i3 x y z velocities in
  let positions := moveBlock i3 velocities positions in
  let velocities := dampBlock damping i3 velocities in
  {| l_positions := positions;
     l_velocities := velocities;
     totalInteractionForce := total;
     divisions := divisions l ++ map (pair i) divisors |}.

(** The particle loop of [updateParticles]. *)
Definition particleLoop (time : R) (mousePos : Vector3) (s : t) : Loop :=
  for_range (particleCount (config s))
    (particleBody (config s) (isMouseDown s) time mousePos
       (originalPositions s))
    {| l_positions := positions s;
       l_velocities := velocities s;
       totalInteractionForce := 0;
       divisions := [] |}.

(** The audio trigger at the end of [updateParticles]: the intensity that
    [triggerInteractionSound] is called with, or [None] when the call is
    not made.  [rnd] is the value of [Math.random()], drawn only when the
    threshold is passed. *)
Definition audioTrigger (totalInteractionForce rnd : R) : option R :=
  if Rltb 5.0 totalInteractionForce then
    if Rltb rnd (Rmin (totalInteractionForce * 0.005) 0.5)
    then Some totalInteractionForce
    else None
  else None.

(** [updateParticles(time)].  [rnd] is the [Math.random()] of the audio
    trigger and [rndNote] the one of [playNote].  An exception of the sound
    manager leaves the method before [isTransforming] is cleared. *)
Definition updateParticles (time : R) (mousePos : Vector3) (rnd rndNote : R)
    (s : t) : completion t :=
  let cooldown' := if (0 <? cooldown s)%Z then (cooldown s - 1)%Z else cooldown s in
  let l := particleLoop time mousePos s in
  let after (sm : SoundManager.t) (transforming : bool) : t :=
    {| config := config s;
       isMouseDown := isMouseDown s;
       soundManager := sm;
       currentShape := currentShape s;
       shapes := shapes s;
       isTransforming := transforming;
       cooldown := cooldown';
       isFrozen := isFrozen s;
       isInverted := isInverted s;
       positions := l_positions l;
       originalPositions := originalPositions s;
       velocities := l_velocities l;
       rotation_y := rotation_y s;
       uTime := uTime s |} in
  let sound :=
    match audioTrigger (totalInteractionForce l) rnd with
    | Some intensity =>
        SoundManager.triggerInteractionSound intensity rndNote (soundManager s)
    | None => Returns (soundManager s)
    end in
  match sound with
  | Returns sm => Returns (after sm false)
  | Throws sm => Throws (after sm (isTransforming s))
  end.

(** *** animate *)

(** One frame: [time] is [this.clock.getElapsedTime()].  Scheduling the
    next frame and rendering do not touch the state modelled here. *)
Definition animate (time : R) (mousePos : Vector3) (rnd rndNote : R)
    (s : t) : completion t :=
  let spinDirection := if isInverted s then -1 else 1 in
  let s1 :=
    {| config := config s;
       isMouseDown := isMouseDown s;
       soundManager := soundManager s;
       currentShape := currentShape s;
       shapes := shapes s;
       isTransforming := isTransforming s;
       cooldown := cooldown s;
       isFrozen := isFrozen s;
       isInverted := isInverted s;
       positions := positions s;
       originalPositions := originalPositions s;
       velocities := velocities s;
       rotation_y := rotation_y s + rotationSpeed (config s) * spinDirection;
       uTime := time |} in
  if negb (isFrozen s) then updateParticles time mousePos rnd rndNote s1
  else Returns s1.

(** *** One particle, read off the loop body

    The loop body touches three consecutive entries of each array.  The
    definitions below name what it reads and what it adds, block by block
    of the source, as functions of one particle's position [p], origin [o]
    and velocity [v]. *)

(** The three entries of particle [i] in a buffer. *)
Definition particle (a : Float32Array) (i : nat) : Vector3 :=
  {| vx := get a (i * 3); vy := get a (i * 3 + 1); vz := get a (i * 3 + 2) |}.

Definition vadd (a b : Vector3) : Vector3 :=
  {| vx := vx a + vx b; vy := vy a + vy b; vz := vz a + vz b |}.

Definition vsub (a b : Vector3) : Vector3 :=
  {| vx := vx a - vx b; vy := vy a - vy b; vz := vz a - vz b |}.

Definition vscale (v : Vector3) (c : R) : Vector3 :=
  {| vx := vx v * c; vy := vy v * c; vz := vz v * c |}.

Definition vzero : Vector3 := {| vx := 0; vy := 0; vz := 0 |}.

(** [Math.sqrt(a.x * a.x + a.y * a.y + a.z * a.z)]. *)
Definition norm (a : Vector3) : R :=
  sqrt (vx a * vx a + vy a * vy a + vz a * vz a).

(** [displacement] of the source: distance of a particle from its origin. *)
Definition displacementOf (p o : Vector3) : R := norm (vsub p o).

(** [dist] of the source: distance of a particle from the pointer. *)
Definition distOf (p mousePos : Vector3) : R := norm (vsub p mousePos).

(** [force] of the source. *)
Definition forceOf (cfg : Config) (isMouseDown : bool) (dist : R) : R :=
  (1 - dist / mouseRadius cfg) * (1 - dist / mouseRadius cfg)
  * (mouseForce cfg * (if isMouseDown then 2.5 else 1)).

(** The guard of the interaction block. *)
Definition inReach (cfg : Config) (dist : R) : bool :=
  Rltb dist (mouseRadius cfg) && Rltb 0 dist.

(** What the interaction block adds to the velocity. *)
Definition interactionTerm (cfg : Config) (isMouseDown : bool)
    (mousePos p : Vector3) : Vector3 :=
  let d := vsub p mousePos in
  let dist := distOf p mousePos in
  if inReach cfg dist then
    let force := forceOf cfg isMouseDown dist in
    {| vx := vx d / dist * force + - vy d * 0.3 * force * 0.2;
       vy := vy d / dist * force + vx d * 0.3 * force * 0.2;
       vz := vz d / dist * force |}
  else vzero.

(** What the interaction block adds to [totalInteractionForce]. *)
Definition energyTerm (cfg : Config) (isMouseDown : bool)
    (mousePos p : Vector3) : R :=
  let dist := distOf p mousePos in
  if inReach cfg dist then
    let force := forceOf cfg isMouseDown dist in
    if Rltb 0.1 force then force else 0
  else 0.

(** The divisors of the divisions that the interaction block executes for
    a particle at [p], in order. *)
Definition divisorsOf (cfg : Config) (mousePos p : Vector3) : list R :=
  let dist := distOf p mousePos in
  if inReach cfg dist
  then [mouseRadius cfg; mouseRadius cfg; dist; dist; dist]
  else [].

(** [windInfluence] of the source. *)
Definition windInfluenceOf (displacement : R) : R :=
  Rmin (displacement / 50) 1 * 0.5.

(** The three turbulence samples [turbX], [turbY], [turbZ]. *)
Definition turbulence (time : R) (p : Vector3) : Vector3 :=
  {| vx := noise3D (vx p * 0.01 + time * 0.2) (vy p * 0.01) (vz p * 0.01);
     vy := noise3D (vx p * 0.01) (vy p * 0.01 + time * 0.2) (vz p * 0.01);
     vz := noise3D (vx p * 0.01) (vy p * 0.01) (vz p * 0.01 + time * 0.2) |}.

(** What the wind block adds to the velocity. *)
Definition windTerm (cfg : Config) (time : R) (p o : Vector3) : Vector3 :=
  let windAngle := time * 0.1 in
  let windX := cos windAngle * windStrength cfg in
  let windY := sin (windAngle * 0.7) * windStrength cfg * 0.5 in
  let windZ := sin (windAngle * 0.5) * windStrength cfg * 0.3 in
  let windInfluence := windInfluenceOf (displacementOf p o) in
  let turb := turbulence time p in
  {| vx := (windX + vx turb * windTurbulence cfg) * windInfluence * 0.05;
     vy := (windY + vy turb * windTurbulence cfg) * windInfluence * 0.05;
     vz := (windZ + vz turb * windTurbulence cfg) * windInfluence * 0.05 |}.

(** What the return block adds to the velocity. *)
Definition returnTerm (cfg : Config) (p o : Vector3) : Vector3 :=
  let displacement := displacementOf p o in
  if Rltb 0.1 displacement then
    vscale (vsub o p) (returnSpeed cfg * (1 + displacement * 0.01))
  else vzero.

(** What the jitter block adds to the velocity. *)
Definition jitterTerm (cfg : Config) (time : R) (p : Vector3) : Vector3 :=
  let turb := turbulence time p in
  if Rltb 0 (noiseAmount cfg) then
    {| vx := vx turb * noiseAmount cfg * 0.01;
       vy := vy turb * noiseAmount cfg * 0.01;
       vz := vz turb * noiseAmount cfg * 0.01 |}
  else vzero.

(** The velocity that is added to the position: the old velocity and the
    four blocks, in the order of the source. *)
Definition kick (cfg : Config) (isMouseDown : bool) (time : R)
    (mousePos p o v : Vector3) : Vector3 :=
  vadd (vadd (vadd (vadd v (interactionTerm cfg isMouseDown mousePos p))
                   (windTerm cfg time p o))
             (returnTerm cfg p o))
       (jitterTerm cfg time p).

(** The sum [f 0 + ... + f (n - 1)], accumulated in index order. *)
Definition sum_range (n : nat) (f : nat -> R) : R :=
  for_range n (fun i acc => acc + f i) 0.

(** The force magnitude that particle [i] contributes to the interaction
    energy in the words of the specification: its repulsion force when it
    is in reach of the pointer and the force is above [0.1], nothing
    otherwise. *)
Definition aboveThresholdForce (s : t) (mousePos : Vector3) (i : nat) : R :=
  let dist := distOf (particle (positions s) i) mousePos in
  let f := forceOf (config s) (isMouseDown s) dist in
  if Rltb dist (mouseRadius (config s)) && Rltb 0 dist && Rltb 0.1 f
  then f else 0.

(** *** generateShapePositions *)

(** [Math.cbrt], the real cube root. *)
Definition cbrt (x : R) : R :=
  if Rlt_dec 0 x then Rpower x (1 / 3)
  else if Rlt_dec x 0 then - Rpower (- x) (1 / 3)
  else 0.

(** The [switch] of [generateShapePositions]: the point of one particle.
    [r0], [r1], [r2] are the values of the three calls of [Math.random()]
    that the chosen case makes, in the order of the source.  The [default]
    case of the source (an unknown shape name) cannot arise for the three
    names of [Shape]. *)
Definition shapePoint (shapeType : Shape) (r0 r1 r2 : R) : Vector3 :=
  let radius := 150 in
  match shapeType with
  | sphere =>
      let phi := acos (2 * r0 - 1) in
      let theta := r1 * PI * 2 in
      let r := radius * cbrt r2 in
      {| vx := r * sin phi * cos theta;
         vy := r * sin phi * sin theta;
         vz := r * cos phi |}
  | cube =>
      {| vx := (r0 - 0.5) * radius * 1.5;
         vy := (r1 - 0.5) * radius * 1.5;
         vz := (r2 - 0.5) * radius * 1.5 |}
  | pyramid =>
      let height := 180 in
      let baseWidth := 180 in
      (* More uniform distribution - linear height sampling *)
      let hRand := r0 in
      let uPyramid := hRand in
      (* Tip at top, base at bottom *)
      let y := (0.5 - uPyramid) * height in
      (* Scale increases toward base *)
      let scale := uPyramid in
      {| vx := (r1 - 0.5) * baseWidth * scale;
         vy := y;
         vz := (r2 - 0.5) * baseWidth * scale |}
  end.

(** [a[i * 3] = v.x; a[i * 3 + 1] = v.y; a[i * 3 + 2] = v.z]. *)
Definition store3 (a : Float32Array) (i : nat) (v : Vector3) : Float32Array :=
  store (store (store a (i * 3) (vx v)) (i * 3 + 1) (vy v)) (i * 3 + 2) (vz v).

(** [generateShapePositions(targetArray, shapeType)] for [count] particles;
    [rand k] is the value of the [k]-th call of [Math.random()] that this
    run of the method makes. *)
Definition generateShapePositions (count : nat) (rand : nat -> R)
    (targetArray : Float32Array) (shapeType : Shape) : Float32Array :=
  for_range count
    (fun i target =>
       store3 target i
         (shapePoint shapeType (rand (3 * i)%nat) (rand (3 * i + 1)%nat)
            (rand (3 * i + 2)%nat)))
    targetArray.

(** *** createParticles *)

(** What [createParticles] builds: the simulation state and the colour and
    size buffers, which belong to the renderer. *)
Record Created : Type := mkCreated {
  created_sim : t;
  created_colors : Float32Array;
  created_sizes : Float32Array
}.

(** [createParticles()]; [rand k] is the value of the [k]-th call of
    [Math.random()] of this run: the three shape clouds take
    [3 * particleCount] calls each, then every particle takes one for its
    brightness and one for its size.  A fresh typed array holds zeros.  The
    new [THREE.Points] object starts unrotated and the new material with
    [uTime = 0]. *)
Definition createParticles (rand : nat -> R) (s : t) : Created :=
  let n := particleCount (config s) in
  let sphereCloud :=
    generateShapePositions n rand (replicate (n * 3) 0) sphere in
  let cubeCloud :=
    generateShapePositions n (fun k => rand (n * 3 + k)%nat)
      (replicate (n * 3) 0) cube in
  let pyramidCloud :=
    generateShapePositions n (fun k => rand (n * 6 + k)%nat)
      (replicate (n * 3) 0) pyramid in
  (* Initial positions (start as sphere) *)
  let filled :=
    for_range (n * 3)
      (fun i '(positions, originalPositions) =>
         (store positions i (get sphereCloud i),
          store originalPositions i (get sphereCloud i)))
      (replicate (n * 3) 0, replicate (n * 3) 0) in
  (* Initialize velocities to zero *)
  let velocities :=
    for_range (n * 3) (fun i velocities => store velocities i 0)
      (replicate (n * 3) 0) in
  (* Set colors *)
  let painted :=
    for_range n
      (fun i '(colors, sizes) =>
         let brightness := 0.7 + rand (n * 9 + 2 * i)%nat * 0.3 in
         (store (store (store colors (i * 3) brightness)
                   (i * 3 + 1) brightness)
            (i * 3 + 2) brightness,
          store sizes i (0.5 + rand (n * 9 + 2 * i + 1)%nat * 0.5)))
      (replicate (n * 3) 0, replicate n 0) in
  {| created_sim :=
       {| config := config s;
          isMouseDown := isMouseDown s;
          soundManager := soundManager s;
          currentShape := currentShape s;
          shapes := fun sh =>
            match sh with
            | sphere => sphereCloud
            | cube => cubeCloud
            | pyramid => pyramidCloud
            end;
          isTransforming := isTransforming s;
          cooldown := cooldown s;
          isFrozen := isFrozen s;
          isInverted := isInverted s;
          positions := filled.1;
          originalPositions := filled.2;
          velocities := velocities;
          rotation_y := 0;
          uTime := 0 |};
     created_colors := painted.1;
     created_sizes := painted.2 |}.

(** *** setupEventListeners *)

(** The simulation together with the fields of the class that the event
    handlers use and the frame step does not: [hasInteracted], the
    normalised pointer [mouse] and its world position [mouseWorld]. *)
Record App : Type := mkApp {
  sim : t;
  hasInteracted : bool;
  mouse : R * R;
  mouseWorld : Vector3
}.

(** The key codes that the [keydown] handler tells apart. *)
Inductive KeyCode : Type := Space | KeyF | KeyI | KeyM | OtherKey.

(** The DOM events that [setupEventListeners] subscribes to.  Pointer
    events carry [clientX], [clientY] and the window size; [intersectPoint]
    is what the raycaster of three.js returns for the new pointer, and a
    [mousedown] carries what [new AudioContext()] would do. *)
Inductive DomEvent : Type :=
| mousemove (clientX clientY innerWidth innerHeight : R)
    (intersectPoint : Vector3)
| mousedown (fresh : SoundManager.Construction)
| mouseup
| touchmove (clientX clientY innerWidth innerHeight : R)
    (intersectPoint : Vector3)
| touchstart (clientX clientY innerWidth innerHeight : R)
| touchend
| keydown (code : KeyCode)
| resize.

(** The pointer in normalised device coordinates. *)
Definition normalise (clientX clientY innerWidth innerHeight : R) : R * R :=
  (clientX / innerWidth * 2 - 1, - (clientY / innerHeight) * 2 + 1).

Definition with_isMouseDown (b : bool) (s : t) : t :=
  {| config := config s;
     isMouseDown := b;
     soundManager := soundManager s;
     currentShape := currentShape s;
     shapes := shapes s;
     isTransforming := isTransforming s;
     cooldown := cooldown s;
     isFrozen := isFrozen s;
     isInverted := isInverted s;
     positions := positions s;
     originalPositions := originalPositions s;
     velocities := velocities s;
     rotation_y := rotation_y s;
     uTime := uTime s |}.

Definition with_isFrozen (b : bool) (s : t) : t :=
  {| config := config s;
     isMouseDown := isMouseDown s;
     soundManager := soundManager s;
     currentShape := currentShape s;
     shapes := shapes s;
     isTransforming := isTransforming s;
     cooldown := cooldown s;
     isFrozen := b;
     isInverted := isInverted s;
     positions := positions s;
     originalPositions := originalPositions s;
     velocities := velocities s;
     rotation_y := rotation_y s;
     uTime := uTime s |}.

Definition with_soundManager (sm : SoundManager.t) (s : t) : t :=
  {| config := config s;
     isMouseDown := isMouseDown s;
     soundManager := sm;
     currentShape := currentShape s;
     shapes := shapes s;
     isTransforming := isTransforming s;
     cooldown := cooldown s;
     isFrozen := isFrozen s;
     isInverted := isInverted s;
     positions := positions s;
     originalPositions := originalPositions s;
     velocities := velocities s;
     rotation_y := rotation_y s;
     uTime := uTime s |}.

(** The [mousedown] listener.  An exception of [init] leaves the listener
    at once: [hasInteracted] and [isMouseDown] are not set and [toggleShape]
    is not called, so that the next [mousedown] calls [init] again. *)
Definition mousedownListener (fresh : SoundManager.Construction) (a : App)
    : completion App :=
  let pressed (s1 : t) : App :=
    {| sim := toggleShape (with_isMouseDown true s1);
       hasInteracted := true;
       mouse := mouse a;
       mouseWorld := mouseWorld a |} in
  if hasInteracted a then Returns (pressed (sim a))
  else
    match SoundManager.init fresh (soundManager (sim a)) with
    | Returns sm => Returns (pressed (with_soundManager sm (sim a)))
    | Throws sm =>
        Throws {| sim := with_soundManager sm (sim a);
                  hasInteracted := hasInteracted a;
                  mouse := mouse a;
                  mouseWorld := mouseWorld a |}
    end.

(** The listeners of [setupEventListeners], one case per event: the state
    that the listener leaves, also when it throws.  The custom cursor and
    the renderer are not part of the state. *)
Definition handle (e : DomEvent) (a : App) : App :=
  match e with
  | mousemove clientX clientY innerWidth innerHeight intersectPoint =>
      {| sim := sim a;
         hasInteracted := hasInteracted a;
         mouse := normalise clientX clientY innerWidth innerHeight;
         mouseWorld := intersectPoint |}
  | mousedown fresh => state_of (mousedownListener fresh a)
  | mouseup =>
      {| sim := with_isMouseDown false (sim a);
         hasInteracted := hasInteracted a;
         mouse := mouse a;
         mouseWorld := mouseWorld a |}
  | touchmove clientX clientY innerWidth innerHeight intersectPoint =>
      {| sim := sim a;
         hasInteracted := hasInteracted a;
         mouse := normalise clientX clientY innerWidth innerHeight;
         mouseWorld := intersectPoint |}
  | touchstart clientX clientY innerWidth innerHeight =>
      {| sim := with_isMouseDown true (sim a);
         hasInteracted := hasInteracted a;
         mouse := normalise clientX clientY innerWidth innerHeight;
         mouseWorld := mouseWorld a |}
  | touchend =>
      {| sim := with_isMouseDown false (sim a);
         hasInteracted := hasInteracted a;
         mouse := mouse a;
         mouseWorld := mouseWorld a |}
  | keydown Space =>
      {| sim := toggleShape (sim a);
         hasInteracted := hasInteracted a;
         mouse := mouse a;
         mouseWorld := mouseWorld a |}
  | keydown KeyF =>
      {| sim := with_isFrozen (negb (isFrozen (sim a))) (sim a);
         hasInteracted := hasInteracted a;
         mouse := mouse a;
         mouseWorld := mouseWorld a |}
  | keydown KeyI =>
      {| sim := toggleInvert (sim a);
         hasInteracted := hasInteracted a;
         mouse := mouse a;
         mouseWorld := mouseWorld a |}
  | keydown KeyM =>
      {| sim := with_soundManager
                  (SoundManager.toggleMute (soundManager (sim a))) (sim a);
         hasInteracted := hasInteracted a;
         mouse := mouse a;
         mouseWorld := mouseWorld a |}
  | keydown OtherKey => a
  | resize => a
  end.

(** What happens to the page: a DOM event, an animation frame (with the
    frame time, the pointer in the frame of the cloud and the two random
    draws), or the browser running a pending voice timer, moving the audio
    clock or changing the state of the audio context.  A frame that throws
    has already scheduled the next one, so the state it leaves is the one
    that goes on. *)
Inductive PageEvent : Type :=
| Dom (e : DomEvent)
| Frame (time : R) (mousePos : Vector3) (rnd rndNote : R)
| Audio (e : SoundManager.event).

(** The events of the audio side that are the browser's, not calls of the
    methods. *)
Definition browserEvent (e : SoundManager.event) : bool :=
  match e with
  | SoundManager.Timeout _ | SoundManager.Advance _
  | SoundManager.SetContextState _ => true
  | _ => false
  end.

Definition step (e : PageEvent) (a : App) : App :=
  match e with
  | Dom d => handle d a
  | Frame time mousePos rnd rndNote =>
      {| sim := state_of (animate time mousePos rnd rndNote (sim a));
         hasInteracted := hasInteracted a;
         mouse := mouse a;
         mouseWorld := mouseWorld a |}
  | Audio e =>
      if browserEvent e then
        {| sim := with_soundManager
                    (SoundManager.exec e (soundManager (sim a))) (sim a);
           hasInteracted := hasInteracted a;
           mouse := mouse a;
           mouseWorld := mouseWorld a |}
      else a
  end.

Definition runPage (es : list PageEvent) (a : App) : App :=
  fold_left (fun acc e => step e acc) es a.

(** The page as the constructor leaves it, before the first frame:
    [rand] feeds [createParticles], [cfg] is the configuration. *)
Definition startPage (cfg : Config) (rand : nat -> R) : App :=
  {| sim :=
       created_sim
         (createParticles rand
            {| config := cfg;
               isMouseDown := false;
               soundManager := SoundManager.constructor;
               currentShape := sphere;
               shapes := fun _ => [];
               isTransforming := false;
               cooldown := 0;
               isFrozen := false;
               isInverted := false;
               positions := [];
               originalPositions := [];
               velocities := [];
               rotation_y := 0;
               uTime := 0 |});
     hasInteracted := false;
     mouse := (9999, 9999);
     mouseWorld := {| vx := 0; vy := 0; vz := 0 |} |}.

Definition isMousedown (e : PageEvent) : bool :=
  match e with Dom (mousedown _) => true | _ => false end.

(** A [mousedown] for which [new AudioContext()] hands out a context. *)
Definition createsContext (e : PageEvent) : bool :=
  match e with
  | Dom (mousedown (SoundManager.Constructed _ _)) => true
  | _ => false
  end.

(** *** Vocabulary of the statements and sample states *)

(** The shape after [sh] in the cycle sphere, cube, pyramid, sphere of the
    specification. *)
Definition nextShape (sh : Shape) : Shape :=
  match sh with sphere => cube | cube => pyramid | pyramid => sphere end.

(** The kick of particle [i] in state [s]. *)
Definition kickOf (s : t) (time : R) (mousePos : Vector3) (i : nat)
    : Vector3 :=
  kick (config s) (isMouseDown s) time mousePos
    (particle (positions s) i) (particle (originalPositions s) i)
    (particle (velocities s) i).

(** What the wind, return and jitter blocks add together; none of them
    reads the pointer. *)
Definition otherTerms (cfg : Config) (time : R) (p o : Vector3) : Vector3 :=
  vadd (vadd (windTerm cfg time p o) (returnTerm cfg p o))
       (jitterTerm cfg time p).

(** [a'] is [a] with the vector [d] added to the three entries from [i3]
    on, and nothing else changed. *)
Definition Adds (i3 : nat) (a a' : Float32Array) (d : Vector3) : Prop :=
  length a' = length a
  /\ (forall j, j <> i3 -> j <> (i3 + 1)%nat -> j <> (i3 + 2)%nat ->
        get a' j = get a j)
  /\ ((i3 + 2 < length a)%nat ->
      get a' i3 = get a i3 + vx d
      /\ get a' (i3 + 1) = get a (i3 + 1) + vy d
      /\ get a' (i3 + 2) = get a (i3 + 2) + vz d).

(** The point [(0, 0, 0)]. *)
Definition origin : Vector3 := {| vx := 0; vy := 0; vz := 0 |}.

(** A state with one particle, displaced from its origin and moving. *)
Definition oneParticle : t :=
  {| config :=
       {| particleCount := 1; mouseRadius := 150; mouseForce := 1.0;
          returnSpeed := 0.0009; rotationSpeed := 0.003; noiseAmount := 0.1;
          windStrength := 0.09; windTurbulence := 0.2; damping := 0.96 |};
     isMouseDown := false;
     soundManager := SoundManager.constructor;
     currentShape := sphere;
     shapes := fun sh =>
       match sh with
       | sphere => [10; 0; 0]
       | cube => [0; 20; 0]
       | pyramid => [0; 0; 30]
       end;
     isTransforming := false;
     cooldown := 0;
     isFrozen := false;
     isInverted := false;
     positions := [12; 1; 0];
     originalPositions := [10; 0; 0];
     velocities := [1; 0; 2];
     rotation_y := 0;
     uTime := 0 |}.

(** The state [oneParticle], frozen and with inverted colours. *)
Definition frozenInverted : t :=
  {| config := config oneParticle;
     isMouseDown := false;
     soundManager := SoundManager.constructor;
     currentShape := sphere;
     shapes := shapes oneParticle;
     isTransforming := false;
     cooldown := 0;
     isFrozen := true;
     isInverted := true;
     positions := [12; 1; 0];
     originalPositions := [10; 0; 0];
     velocities := [1; 0; 2];
     rotation_y := 0;
     uTime := 0 |}.

(** The state [oneParticle] with the wind strength set to zero. *)
Definition stillAir : t :=
  {| config :=
       {| particleCount := 1; mouseRadius := 150; mouseForce := 1.0;
          returnSpeed := 0.0009; rotationSpeed := 0.003; noiseAmount := 0.1;
          windStrength := 0; windTurbulence := 0.2; damping := 0.96 |};
     isMouseDown := false;
     soundManager := SoundManager.constructor;
     currentShape := sphere;
     shapes := shapes oneParticle;
     isTransforming := false;
     cooldown := 0;
     isFrozen := false;
     isInverted := false;
     positions := [12; 1; 0];
     originalPositions := [10; 0; 0];
     velocities := [1; 0; 2];
     rotation_y := 0;
     uTime := 0 |}.

(** Three particles at distance 15 from the pointer, which is pressed; the
    sound manager is initialised, unmuted, idle, and its clock reads 1. *)
Definition crowd : t :=
  {| config :=
       {| particleCount := 3; mouseRadius := 150; mouseForce := 1.0;
          returnSpeed := 0.0009; rotationSpeed := 0.003; noiseAmount := 0.1;
          windStrength := 0.09; windTurbulence := 0.2; damping := 0.96 |};
     isMouseDown := true;
     soundManager :=
       SoundManager.advance 1
         (state_of
            (SoundManager.init
               (SoundManager.Constructed 0 SoundManager.running)
               SoundManager.constructor));
     currentShape := sphere;
     shapes := fun _ => [15; 0; 0; 0; 15; 0; 0; 0; 15];
     isTransforming := false;
     cooldown := 0;
     isFrozen := false;
     isInverted := false;
     positions := [15; 0; 0; 0; 15; 0; 0; 0; 15];
     originalPositions := [15; 0; 0; 0; 15; 0; 0; 0; 15];
     velocities := [0; 0; 0; 0; 0; 0; 0; 0; 0];
     rotation_y := 0;
     uTime := 0 |}.

(** One particle sitting on its origin with velocity [(1, 0, 0)]; pointer
    force, wind strength and jitter are switched off. *)
Definition drifting : t :=
  {| config :=
       {| particleCount := 1; mouseRadius := 150; mouseForce := 0;
          returnSpeed := 0.0009; rotationSpeed := 0.003; noiseAmount := 0;
          windStrength := 0; windTurbulence := 0.2; damping := 0.96 |};
     isMouseDown := false;
     soundManager := SoundManager.constructor;
     currentShape := sphere;
     shapes := fun _ => [0; 0; 0];
     isTransforming := false;
     cooldown := 0;
     isFrozen := false;
     isInverted := false;
     positions := [0; 0; 0];
     originalPositions := [0; 0; 0];
     velocities := [1; 0; 0];
     rotation_y := 0;
     uTime := 0 |}.

(** One particle at rest, [3] away from its origin, with the pointer
    force, the wind, the turbulence and the jitter switched off. *)
Definition resting : t :=
  {| config :=
       {| particleCount := 1; mouseRadius := 150; mouseForce := 0;
          returnSpeed := 0.0009; rotationSpeed := 0.003; noiseAmount := 0;
          windStrength := 0; windTurbulence := 0; damping := 0.96 |};
     isMouseDown := false;
     soundManager := SoundManager.constructor;
     currentShape := sphere;
     shapes := fun _ => [0; 0; 0];
     isTransforming := false;
     cooldown := 0;
     isFrozen := false;
     isInverted := false;
     positions := [3; 0; 0];
     originalPositions := [0; 0; 0];
     velocities := [0; 0; 0];
     rotation_y := 0;
     uTime := 0 |}.

End ParticleSimulation.

(** * Properties *)

(** ** Comparisons, arrays and loops *)

Lemma Rltb_true (a b : R) : Rltb a b = true <-> a < b.
Proof. unfold Rltb. destruct (Rlt_dec a b); split; intros; try done. Qed.

Lemma Rltb_false (a b : R) : Rltb a b = false <-> b <= a.
Proof.
  unfold Rltb. destruct (Rlt_dec a b); split; intros; try done; lra.
Qed.

Lemma for_range_0 {S : Type} (body : nat -> S -> S) (s : S) :
  for_range 0 body s = s.
Proof. reflexivity. Qed.

Lemma for_range_S {S : Type} (n : nat) (body : nat -> S -> S) (s : S) :
  for_range (Datatypes.S n) body s = body n (for_range n body s).
Proof.
  unfold for_range. rewrite seq_S, fold_left_app. reflexivity.
Qed.

Lemma length_store (a : Float32Array) (i : nat) (v : R) :
  length (store a i v) = length a.
Proof. apply length_insert. Qed.

Lemma get_store_eq (a : Float32Array) (i : nat) (v : R) :
  (i < length a)%nat -> get (store a i v) i = v.
Proof.
  intros Hi. unfold get, store. rewrite list_lookup_insert_eq; done.
Qed.

Lemma get_store_ne (a : Float32Array) (i j : nat) (v : R) :
  i <> j -> get (store a i v) j = get a j.
Proof.
  intros Hij. unfold get, store. rewrite list_lookup_insert_ne; done.
Qed.

(** Two arrays of one length with the same entries are the same array. *)
Lemma Float32Array_ext (a b : Float32Array) :
  length a = length b ->
  (forall i, (i < length a)%nat -> get a i = get b i) ->
  a = b.
Proof.
  intros Hlen Hget. apply list_eq_same_length with (length a); try done.
  intros i x y Hi Ha Hb. specialize (Hget i Hi). unfold get in Hget.
  rewrite Ha, Hb in Hget. done.
Qed.


(** A loop that writes [f i] at every index [i < n]. *)
Lemma length_for_range_store (n : nat) (f : nat -> R) (a : Float32Array) :
  length (for_range n (fun i acc => store acc i (f i)) a) = length a.
Proof.
  induction n as [|n IH]; [done|].
  rewrite for_range_S, length_store. exact IH.
Qed.

Lemma get_for_range_store_lt (n : nat) (f : nat -> R) (a : Float32Array)
    (j : nat) :
  (j < n)%nat -> (j < length a)%nat ->
  get (for_range n (fun i acc => store acc i (f i)) a) j = f j.
Proof.
  intros Hn Hlen. induction n as [|n IH]; [lia|].
  rewrite for_range_S. destruct (decide (j = n)) as [->|Hne].
  - apply get_store_eq. rewrite length_for_range_store. exact Hlen.
  - rewrite get_store_ne by done. apply IH. lia.
Qed.

Lemma get_for_range_store_ge (n : nat) (f : nat -> R) (a : Float32Array)
    (j : nat) :
  (n <= j)%nat ->
  get (for_range n (fun i acc => store acc i (f i)) a) j = get a j.
Proof.
  intros Hn. induction n as [|n IH]; [done|].
  rewrite for_range_S, get_store_ne by lia. apply IH. lia.
Qed.

Lemma get_beyond (a : Float32Array) (j : nat) :
  (length a <= j)%nat -> get a j = 0.
Proof.
  intros Hj. unfold get. rewrite lookup_ge_None_2; done.
Qed.

(** Copying a whole array over another of the same length gives the
    source array. *)
Lemma for_range_store_copy (n : nat) (src dst : Float32Array) :
  length src = n -> length dst = n ->
  for_range n (fun i acc => store acc i (get src i)) dst = src.
Proof.
  intros Hsrc Hdst. apply Float32Array_ext.
  - rewrite length_for_range_store. congruence.
  - intros i Hi. rewrite length_for_range_store in Hi.
    apply get_for_range_store_lt; lia.
Qed.

(** ** SoundManager *)

Module SoundManagerSpec.
Import SoundManager.

Lemma Inv_constructor : Inv constructor.
Proof. unfold Inv, constructor. simpl. repeat split; try done. Qed.

Lemma Inv_resume (sm : t) : Inv sm -> Inv (resume sm).
Proof.
  intros HI. unfold resume. destruct (ctx sm) as [c|] eqn:Hc; [|done].
  destruct (state c); try done.
  destruct HI as (? & ? & ? & ? & ?). unfold Inv. simpl. repeat split; done.
Qed.

Lemma Inv_exec (e : event) (sm : t) : Inv sm -> Inv (exec e sm).
Proof.
  intros HI. destruct e as [fresh|inv| |intensity rnd|k|dt|st]; simpl.
  - unfold init. destruct (isInitialized sm) eqn:Hi; [done|].
    destruct fresh as [t0 st0|]; [|done].
    destruct HI as (? & ? & ? & ? & ?). unfold Inv. simpl. repeat split; done.
  - destruct HI as (? & ? & ? & ? & ?). unfold Inv. simpl. repeat split; done.
  - destruct HI as (? & ? & ? & ? & Hc). unfold Inv. simpl.
    repeat split; try done.
    intros Hi. specialize (Hc Hi). destruct (ctx sm); done.
  - unfold triggerInteractionSound.
    destruct (negb (isInitialized sm) || isMuted sm); [done|].
    pose proof (Inv_resume sm HI) as HR. set (sm1 := resume sm) in *.
    destruct (activeVoices sm1 >=? maxVoices sm1)%Z eqn:Hfull; [done|].
    destruct (ctx sm1) as [c|] eqn:Hc; [|done].
    destruct (Rltb _ _); [done|]. simpl.
    destruct HR as (Hmax & Hnd & Hact & Hle & Hctx).
    unfold Inv, playNote. rewrite Hc. simpl.
    rewrite length_app. simpl.
    repeat split; try done; lia.
  - unfold timeoutCallback. destruct (timeouts sm !! k) as [d|] eqn:Hk; [|done].
    destruct HI as (? & ? & Hact & ? & ?). unfold Inv. simpl.
    assert (Hlen : (k < length (timeouts sm))%nat)
      by (eapply lookup_lt_Some; exact Hk).
    rewrite length_delete by (rewrite Hk; done).
    repeat split; try done; lia.
  - unfold advance. destruct (ctx sm) as [c|] eqn:Hc; [|done].
    destruct HI as (? & ? & ? & ? & ?). unfold Inv. simpl. repeat split; done.
  - unfold setContextState. destruct (ctx sm) as [c|] eqn:Hc; [|done].
    destruct HI as (? & ? & ? & ? & ?). unfold Inv. simpl. repeat split; done.
Qed.

Lemma Inv_run (es : list event) (sm : t) : Inv sm -> Inv (run es sm).
Proof.
  revert sm. induction es as [|e es IH]; intros sm HI; [done|].
  simpl. apply IH, Inv_exec, HI.
Qed.

Lemma run_app (es1 es2 : list event) (sm : t) :
  run (es1 ++ es2) sm = run es2 (run es1 sm).
Proof. unfold run. apply fold_left_app. Qed.

(** Once initialised, always initialised. *)
Lemma isInitialized_exec (e : event) (sm : t) :
  isInitialized sm = true -> isInitialized (exec e sm) = true.
Proof.
  intros Hi. destruct e as [fresh|inv| |intensity rnd|k|dt|st]; simpl.
  - unfold init. rewrite Hi. simpl. done.
  - done.
  - done.
  - unfold triggerInteractionSound.
    assert (Hr : isInitialized (resume sm) = true).
    { unfold resume. destruct (ctx sm) as [c|]; [|done].
      destruct (state c); done. }
    destruct (negb (isInitialized sm) || isMuted sm); [done|].
    destruct (activeVoices (resume sm) >=? maxVoices (resume sm))%Z; [done|].
    destruct (ctx (resume sm)) as [c|] eqn:Hc; [|done].
    destruct (Rltb _ _); [done|]. simpl.
    unfold playNote. rewrite Hc. done.
  - unfold timeoutCallback. destruct (timeouts sm !! k); done.
  - unfold advance. destruct (ctx sm); done.
  - unfold setContextState. destruct (ctx sm); done.
Qed.

Lemma clock_resume (sm : t) : clock (resume sm) = clock sm.
Proof.
  unfold resume, clock. destruct (ctx sm) as [c|] eqn:Hc; [|rewrite Hc; done].
  destruct (state c); simpl; rewrite ?Hc; done.
Qed.

(** The audio clock of an initialised manager never runs backwards. *)
Lemma clock_exec (e : event) (sm : t) :
  isInitialized sm = true -> event_ok e -> clock sm <= clock (exec e sm).
Proof.
  intros Hi Hok. destruct e as [fresh|inv| |intensity rnd|k|dt|st]; simpl.
  - unfold init. rewrite Hi. simpl. lra.
  - unfold clock. simpl. lra.
  - unfold clock. simpl. destruct (ctx sm); simpl; lra.
  - unfold triggerInteractionSound.
    pose proof (clock_resume sm) as Hr.
    destruct (negb (isInitialized sm) || isMuted sm); simpl; [lra|].
    destruct (activeVoices (resume sm) >=? maxVoices (resume sm))%Z;
      simpl; [lra|].
    destruct (ctx (resume sm)) as [c|] eqn:Hc; simpl; [|lra].
    destruct (Rltb _ _); simpl; [lra|].
    unfold clock in *. unfold playNote. rewrite Hc. simpl. rewrite Hc in *. lra.
  - unfold timeoutCallback, clock. destruct (timeouts sm !! k); simpl; lra.
  - unfold advance, clock. simpl in Hok.
    destruct (ctx sm) as [c|] eqn:Hc; simpl; [lra|rewrite Hc; lra].
  - unfold setContextState, clock.
    destruct (ctx sm) as [c|] eqn:Hc; simpl; [lra|rewrite Hc; lra].
Qed.

Lemma isInitialized_run (es : list event) (sm : t) :
  isInitialized sm = true -> isInitialized (run es sm) = true.
Proof.
  revert sm. induction es as [|e es IH]; intros sm Hi; [done|].
  simpl. apply IH, isInitialized_exec, Hi.
Qed.

Lemma clock_run (es : list event) (sm : t) :
  isInitialized sm = true -> Forall event_ok es -> clock sm <= clock (run es sm).
Proof.
  revert sm. induction es as [|e es IH]; intros sm Hi Hok; [simpl; lra|].
  inversion Hok as [|? ? He Hes]; subst. simpl.
  pose proof (clock_exec e sm Hi He).
  pose proof (IH (exec e sm) (isInitialized_exec e sm Hi) Hes).
  simpl in *. lra.
Qed.

Lemma Window_exec (t1 : R) (base : nat) (e : event) (sm : t) :
  Inv sm -> isInitialized sm = true -> event_ok e ->
  Window t1 base sm ->
  clock (exec e sm) < t1 + noteDensity sm ->
  Window t1 base (exec e sm).
Proof.
  intros HI Hi Hok (Hn & Hlast & Hclk) Hlate.
  pose proof (clock_exec e sm Hi Hok) as Hmono.
  destruct e as [fresh|inv| |intensity rnd|k|dt|st].
  - simpl in *. unfold init in *. rewrite Hi in *. simpl in *. done.
  - split; [exact Hn|]. split; [exact Hlast|]. lra.
  - split; [exact Hn|]. split; [exact Hlast|]. lra.
  - simpl in *. unfold triggerInteractionSound in *.
    pose proof (clock_resume sm) as Hcr.
    assert (Hrv : voices (resume sm) = voices sm
                  /\ lastNoteTime (resume sm) = lastNoteTime sm
                  /\ noteDensity (resume sm) = noteDensity sm).
    { unfold resume. destruct (ctx sm) as [c|]; [|done].
      destruct (state c); done. }
    destruct Hrv as (Hrv & Hrl & Hrd).
    destruct (negb (isInitialized sm) || isMuted sm);
      [split; [exact Hn|]; split; [exact Hlast|]; simpl in *; lra|].
    destruct (activeVoices (resume sm) >=? maxVoices (resume sm))%Z.
    { simpl in *. unfold Window. rewrite Hrv, Hrl. repeat split; try lia; try lra.
      exact Hlast. }
    destruct (ctx (resume sm)) as [c|] eqn:Hc.
    2:{ simpl in *. unfold Window. rewrite Hrv, Hrl.
        repeat split; try lia; try lra. exact Hlast. }
    destruct (Rltb (currentTime c - lastNoteTime (resume sm))
                (noteDensity (resume sm))) eqn:Hrate.
    { simpl in *. unfold Window. rewrite Hrv, Hrl.
      repeat split; try lia; try lra. exact Hlast. }
    apply Rltb_false in Hrate. rewrite Hrl, Hrd in Hrate.
    simpl in *. unfold clock, playNote in *. rewrite Hc in *. simpl in *.
    unfold Window. simpl. rewrite Hrv.
    assert (Hbase : length (voices sm) = base).
    { destruct (decide (length (voices sm) = (base + 1)%nat)) as [Heq|Hne];
        [|lia].
      specialize (Hlast Heq). lra. }
    repeat split; try lia; intros; unfold clock; simpl; lra.
  - simpl in *. unfold timeoutCallback in *.
    destruct (timeouts sm !! k);
      (split; [exact Hn|]; split; [exact Hlast|]; lra).
  - simpl in *. unfold advance in *. destruct (ctx sm) as [c|] eqn:Hc;
      (split; [exact Hn|]; split; [exact Hlast|]; lra).
  - simpl in *. unfold setContextState in *. destruct (ctx sm) as [c|] eqn:Hc;
      (split; [exact Hn|]; split; [exact Hlast|]; lra).
Qed.

Lemma noteDensity_exec (e : event) (sm : t) :
  Inv sm -> noteDensity (exec e sm) = noteDensity sm.
Proof.
  intros HI. pose proof (Inv_exec e sm HI) as HI'.
  destruct HI as (_ & -> & _), HI' as (_ & -> & _). done.
Qed.

Lemma Window_run (t1 : R) (base : nat) (es : list event) (sm : t) :
  Inv sm -> isInitialized sm = true -> Forall event_ok es ->
  Window t1 base sm ->
  clock (run es sm) < t1 + noteDensity sm ->
  Window t1 base (run es sm).
Proof.
  revert sm. induction es as [|e es IH]; intros sm HI Hi Hok HW Hlate; [done|].
  inversion Hok as [|? ? He Hes]; subst. simpl in *.
  pose proof (isInitialized_exec e sm Hi) as Hi'.
  pose proof (clock_run es (exec e sm) Hi' Hes) as Hmono.
  apply IH; try done.
  - apply Inv_exec, HI.
  - apply Window_exec; try done. lra.
  - rewrite noteDensity_exec by done. exact Hlate.
Qed.

(** C5.  Along every sequence of events that starts from the constructor,
    the count of active voices stays between [0] and [maxVoices = 8]; and
    when two calls of [triggerInteractionSound] read audio clocks less than
    [noteDensity = 0.15] apart, at most one note starts from the first call
    to the second, both included. *)
Theorem voices_bounded_and_notes_rate_limited
    (pre mid : list event) (i1 r1 i2 r2 : R) :
  Forall event_ok pre -> Forall event_ok mid ->
  let s0 := run pre constructor in
  let s2 := run mid (exec (Trigger i1 r1) s0) in
  let s3 := exec (Trigger i2 r2) s2 in
  (forall es, (0 <= activeVoices (run es constructor)
                 <= maxVoices (run es constructor))%Z
              /\ maxVoices (run es constructor) = 8%Z
              /\ noteDensity (run es constructor) = 0.15)
  /\ (isInitialized s0 = true ->
      clock s2 - clock s0 < noteDensity s0 ->
      (length (voices s3) <= length (voices s0) + 1)%nat).
Proof.
  intros Hpre Hmid s0 s2 s3. split.
  - intros es. pose proof (Inv_run es constructor Inv_constructor)
      as (Hmax & Hnd & Hact & Hle & _).
    rewrite Hmax. repeat split; try done; lia.
  - intros Hi Hclose.
    assert (HI0 : Inv s0) by apply Inv_run, Inv_constructor.
    assert (Hs3 : s3 = run (Trigger i1 r1 :: mid ++ [Trigger i2 r2]) s0).
    { unfold s3, s2. simpl. rewrite run_app. done. }
    assert (Hc3 : clock s3 = clock s2).
    { unfold s3. simpl. unfold triggerInteractionSound.
      pose proof (clock_resume s2) as Hcr.
      destruct (negb (isInitialized s2) || isMuted s2); [done|].
      destruct (activeVoices (resume s2) >=? maxVoices (resume s2))%Z;
        [done|].
      destruct (ctx (resume s2)) as [c|] eqn:Hc; [|done].
      destruct (Rltb _ _); [done|]. simpl.
      unfold clock, playNote in *. rewrite Hc in *. done. }
    assert (HW : Window (clock s0) (length (voices s0)) s3).
    { rewrite Hs3. apply Window_run; try done.
      - constructor; [done|]. apply Forall_app. split; [done|].
        constructor; [done|constructor].
      - unfold Window. repeat split; try lia; lra.
      - rewrite <- Hs3. lra. }
    destruct HW as (Hn & _). lia.
Qed.

Lemma voices_bounded_and_notes_rate_limited_witness :
  let pre := [Init (Constructed 0 running); Advance 1] in
  let mid := [Advance 0.1] in
  let s0 := run pre constructor in
  let s2 := run mid (exec (Trigger 6 0.5) s0) in
  let s3 := exec (Trigger 7 0.5) s2 in
  (length (voices s3) <= length (voices s0) + 1)%nat.
Proof.
  intros pre mid s0 s2 s3.
  assert (Hpre : Forall event_ok pre).
  { repeat constructor; simpl; lra. }
  assert (Hmid : Forall event_ok mid).
  { repeat constructor; simpl; lra. }
  apply (voices_bounded_and_notes_rate_limited pre mid 6 0.5 7 0.5 Hpre Hmid).
  - reflexivity.
  - unfold s2, s0, pre, mid. simpl. unfold triggerInteractionSound. simpl.
    destruct (Rltb _ _); simpl; unfold clock; simpl; lra.
Defined.

(** C9.  When the manager is not initialised, or is muted,
    [triggerInteractionSound] returns normally and hands back the very
    state it was given: no exception, no voice started, [activeVoices] and
    [lastNoteTime] as they were. *)
Theorem triggerInteractionSound_silent_when_unavailable
    (intensity rnd : R) (sm : t) :
  isInitialized sm = false \/ isMuted sm = true ->
  triggerInteractionSound intensity rnd sm = Returns sm
  /\ voices (state_of (triggerInteractionSound intensity rnd sm)) = voices sm
  /\ activeVoices (state_of (triggerInteractionSound intensity rnd sm))
     = activeVoices sm
  /\ lastNoteTime (state_of (triggerInteractionSound intensity rnd sm))
     = lastNoteTime sm.
Proof.
  intros H.
  assert (Hret : triggerInteractionSound intensity rnd sm = Returns sm).
  { unfold triggerInteractionSound. destruct H as [-> | ->]; [done|].
    rewrite orb_true_r. done. }
  rewrite Hret. done.
Qed.

Lemma triggerInteractionSound_silent_when_unavailable_witness :
  triggerInteractionSound 6 0.5 constructor = Returns constructor
  /\ triggerInteractionSound 6 0.5
       (toggleMute (state_of (init (Constructed 0 running) constructor)))
     = Returns
         (toggleMute (state_of (init (Constructed 0 running) constructor))).
Proof.
  split.
  - apply (triggerInteractionSound_silent_when_unavailable 6 0.5 constructor).
    left. reflexivity.
  - apply (triggerInteractionSound_silent_when_unavailable 6 0.5
             (toggleMute (state_of (init (Constructed 0 running) constructor)))).
    right. reflexivity.
Defined.

End SoundManagerSpec.

Module ParticleSimulationSpec.
Import ParticleSimulation.

(** *** resetParticles *)

Lemma resetLoop_positions (n : nat) (orig : Float32Array) (l : ResetLoop) :
  r_positions (for_range n (resetBody orig) l)
  = for_range n (fun i acc => store acc i (get orig i)) (r_positions l).
Proof.
  induction n as [|n IH]; [done|].
  rewrite !for_range_S. simpl. rewrite IH. done.
Qed.

Lemma resetLoop_velocities (n : nat) (orig : Float32Array) (l : ResetLoop) :
  r_velocities (for_range n (resetBody orig) l)
  = for_range n (fun i acc => store acc i 0) (r_velocities l).
Proof.
  induction n as [|n IH]; [done|].
  rewrite !for_range_S. simpl. rewrite IH. done.
Qed.

Lemma resetParticles_positions (s : t) :
  positions (resetParticles s)
  = for_range (particleCount (config s) * 3)
      (fun i acc => store acc i (get (originalPositions s) i)) (positions s).
Proof. unfold resetParticles. simpl. apply resetLoop_positions. Qed.

Lemma resetParticles_velocities (s : t) :
  velocities (resetParticles s)
  = for_range (particleCount (config s) * 3)
      (fun i acc => store acc i 0) (velocities s).
Proof. unfold resetParticles. simpl. apply resetLoop_velocities. Qed.

(** Writing again what a loop has just written changes nothing. *)
Lemma for_range_store_twice (n : nat) (f : nat -> R) (a : Float32Array) :
  for_range n (fun i acc => store acc i (f i))
    (for_range n (fun i acc => store acc i (f i)) a)
  = for_range n (fun i acc => store acc i (f i)) a.
Proof.
  apply Float32Array_ext.
  - apply length_for_range_store.
  - intros i Hi. rewrite !length_for_range_store in Hi.
    destruct (le_lt_dec n i) as [Hge|Hlt].
    + rewrite get_for_range_store_ge by done. done.
    + rewrite !get_for_range_store_lt; try done.
      rewrite length_for_range_store. done.
Qed.

Lemma wf_resetParticles (s : t) : wf s -> wf (resetParticles s).
Proof.
  intros (Hp & Ho & Hv & Hs). unfold wf.
  rewrite resetParticles_positions, resetParticles_velocities.
  rewrite !length_for_range_store. simpl. done.
Qed.

Lemma resetParticles_idempotent (s : t) :
  resetParticles (resetParticles s) = resetParticles s.
Proof.
  unfold resetParticles at 1.
  rewrite resetLoop_positions, resetLoop_velocities.
  cbn [r_positions r_velocities].
  change (config (resetParticles s)) with (config s).
  change (originalPositions (resetParticles s)) with (originalPositions s).
  rewrite resetParticles_positions, resetParticles_velocities.
  rewrite !for_range_store_twice.
  rewrite <- resetParticles_positions, <- resetParticles_velocities.
  reflexivity.
Qed.

Lemma wf_oneParticle : wf oneParticle.
Proof. unfold wf. simpl. repeat split; try done. intros []; done. Qed.

(** C7.  After [resetParticles] the position buffer equals the origin
    buffer (so every particle sits on its origin), every velocity entry is
    exactly zero, and resetting a second time changes nothing. *)
Theorem resetParticles_snaps_and_is_idempotent (s : t) :
  wf s ->
  positions (resetParticles s) = originalPositions (resetParticles s)
  /\ (forall i, (i < particleCount (config s))%nat ->
        particle (positions (resetParticles s)) i
        = particle (originalPositions (resetParticles s)) i
        /\ particle (velocities (resetParticles s)) i = vzero)
  /\ (forall j, get (velocities (resetParticles s)) j = 0)
  /\ resetParticles (resetParticles s) = resetParticles s.
Proof.
  intros Hwf. pose proof Hwf as (Hp & Ho & Hv & Hs).
  assert (Hpos : positions (resetParticles s) = originalPositions s).
  { rewrite resetParticles_positions. apply for_range_store_copy; done. }
  assert (Hvel : forall j, get (velocities (resetParticles s)) j = 0).
  { intros j. rewrite resetParticles_velocities.
    destruct (le_lt_dec (particleCount (config s) * 3) j) as [Hge|Hlt].
    - rewrite get_for_range_store_ge by done. apply get_beyond. lia.
    - apply get_for_range_store_lt; lia. }
  split; [exact Hpos|]. split; [|split; [exact Hvel|]].
  - intros i Hi. rewrite Hpos. split; [done|].
    unfold particle, vzero. rewrite !Hvel. done.
  - apply resetParticles_idempotent.
Qed.

Lemma resetParticles_snaps_and_is_idempotent_witness :
  wf oneParticle
  /\ positions (resetParticles oneParticle) = [10; 0; 0]
  /\ resetParticles (resetParticles oneParticle) = resetParticles oneParticle.
Proof.
  split; [exact wf_oneParticle|].
  destruct (resetParticles_snaps_and_is_idempotent oneParticle wf_oneParticle)
    as (Hpos & _ & _ & Hidem).
  split; [exact Hpos | exact Hidem].
Defined.

(** *** toggleShape *)

Lemma toggleShape_currentShape (s : t) :
  currentShape (toggleShape s) = nextShape (currentShape s).
Proof. unfold toggleShape. simpl. destruct (currentShape s); reflexivity. Qed.

(** C6.  [toggleShape] leaves the position and velocity buffers as they
    are, entry for entry; it overwrites the origin buffer with the point
    cloud of the next shape; and the current shape moves one step along
    sphere, cube, pyramid, sphere. *)
Theorem toggleShape_replaces_only_the_origin (s : t) :
  wf s ->
  positions (toggleShape s) = positions s
  /\ velocities (toggleShape s) = velocities s
  /\ currentShape (toggleShape s) = nextShape (currentShape s)
  /\ originalPositions (toggleShape s) = shapes s (nextShape (currentShape s))
  /\ nextShape (nextShape (nextShape (currentShape s))) = currentShape s.
Proof.
  intros (Hp & Ho & Hv & Hs).
  split; [reflexivity|]. split; [reflexivity|].
  split; [apply toggleShape_currentShape|]. split.
  - rewrite <- toggleShape_currentShape. unfold toggleShape at 1. simpl.
    apply for_range_store_copy; [|exact Ho].
    apply Hs.
  - destruct (currentShape s); reflexivity.
Qed.

Lemma toggleShape_replaces_only_the_origin_witness :
  wf oneParticle
  /\ positions (toggleShape oneParticle) = [12; 1; 0]
  /\ velocities (toggleShape oneParticle) = [1; 0; 2]
  /\ currentShape (toggleShape oneParticle) = cube
  /\ originalPositions (toggleShape oneParticle) = [0; 20; 0].
Proof.
  split; [exact wf_oneParticle|].
  destruct (toggleShape_replaces_only_the_origin oneParticle wf_oneParticle)
    as (Hp & Hv & Hc & Ho & _).
  repeat split; assumption.
Defined.

(** *** noise3D *)

Lemma Int_part_bounds (r : R) : IZR (Int_part r) <= r < IZR (Int_part r) + 1.
Proof. destruct (base_Int_part r). lra. Qed.

(** [a % 1] lies strictly between [-1] and [1] and has the sign of [a]. *)
Lemma js_rem_1_bounds (a : R) :
  -1 < js_rem a 1 < 1
  /\ (0 <= a -> 0 <= js_rem a 1)
  /\ (a <= 0 -> js_rem a 1 <= 0).
Proof.
  unfold js_rem, trunc. replace (a / 1) with a by field.
  destruct (Rle_dec 0 a) as [Hpos|Hneg].
  - pose proof (Int_part_bounds a). repeat split; try lra.
    intros Ha. assert (a = 0) as -> by lra.
    pose proof (Int_part_bounds 0) as [_ Hlt].
    assert (Hz : (-1 < Int_part 0)%Z) by (apply lt_IZR; lra).
    assert (Hz' : (0 <= Int_part 0)%Z) by lia.
    apply IZR_le in Hz'. lra.
  - pose proof (Int_part_bounds (- a)). rewrite opp_IZR.
    repeat split; lra.
Qed.

(** C10.  [noise3D] is a function of its three arguments alone: equal
    arguments give equal results; and every result lies strictly between
    [-1] and [1]. *)
Theorem noise3D_deterministic_and_bounded (x y z x' y' z' : R) :
  x = x' -> y = y' -> z = z' ->
  noise3D x y z = noise3D x' y' z'
  /\ -1 < noise3D x y z < 1.
Proof.
  intros -> -> ->. split; [reflexivity|].
  unfold noise3D. apply js_rem_1_bounds.
Qed.

Lemma noise3D_deterministic_and_bounded_witness :
  noise3D 1 2 3 = noise3D 1 2 3 /\ -1 < noise3D 1 2 3 < 1.
Proof.
  apply (noise3D_deterministic_and_bounded 1 2 3 1 2 3);
    reflexivity.
Defined.

(** *** The particle loop *)

Lemma length_add_at (a : Float32Array) (i : nat) (v : R) :
  length (add_at a i v) = length a.
Proof. apply length_store. Qed.

Lemma get_add_at_eq (a : Float32Array) (i : nat) (v : R) :
  (i < length a)%nat -> get (add_at a i v) i = get a i + v.
Proof. apply get_store_eq. Qed.

Lemma get_add_at_ne (a : Float32Array) (i j : nat) (v : R) :
  i <> j -> get (add_at a i v) j = get a j.
Proof. apply get_store_ne. Qed.

Lemma length_mul_at (a : Float32Array) (i : nat) (v : R) :
  length (mul_at a i v) = length a.
Proof. apply length_store. Qed.

Lemma get_mul_at_eq (a : Float32Array) (i : nat) (v : R) :
  (i < length a)%nat -> get (mul_at a i v) i = get a i * v.
Proof. apply get_store_eq. Qed.

Lemma get_mul_at_ne (a : Float32Array) (i j : nat) (v : R) :
  i <> j -> get (mul_at a i v) j = get a j.
Proof. apply get_store_ne. Qed.

(** Normalises reads of arrays written by [+=] and [*=]. *)
Ltac array_simpl :=
  repeat first
    [ rewrite length_add_at
    | rewrite length_mul_at
    | rewrite get_add_at_eq by (rewrite ?length_add_at, ?length_mul_at; lia)
    | rewrite get_mul_at_eq by (rewrite ?length_add_at, ?length_mul_at; lia)
    | rewrite get_add_at_ne by lia
    | rewrite get_mul_at_ne by lia ].

Lemma Adds_zero (i3 : nat) (a : Float32Array) : Adds i3 a a vzero.
Proof. unfold Adds, vzero. simpl. repeat split; try done; lra. Qed.

Lemma Adds_trans (i3 : nat) (a b c : Float32Array) (d e : Vector3) :
  Adds i3 a b d -> Adds i3 b c e -> Adds i3 a c (vadd d e).
Proof.
  intros (Hl1 & Ho1 & Ha1) (Hl2 & Ho2 & Ha2). unfold Adds.
  split; [congruence|]. split.
  - intros j H0 H1 H2. rewrite Ho2, Ho1; done.
  - intros Hlen. destruct (Ha1 Hlen) as (? & ? & ?).
    rewrite <- Hl1 in Hlen. destruct (Ha2 Hlen) as (? & ? & ?).
    simpl. repeat split; lra.
Qed.

Lemma Adds_add_at (i3 : nat) (a : Float32Array) (u v w : R) :
  Adds i3 a (add_at (add_at (add_at a i3 u) (i3 + 1) v) (i3 + 2) w)
    {| vx := u; vy := v; vz := w |}.
Proof.
  unfold Adds. simpl. split; [array_simpl; done|]. split.
  - intros j H0 H1 H2. array_simpl. done.
  - intros Hlen. repeat split; array_simpl; done.
Qed.

Lemma interactionBlock_Adds (cfg : Config) (isMouseDown : bool)
    (mousePos : Vector3) (i : nat) (p : Vector3) (a : Float32Array)
    (total : R) :
  let r := interactionBlock (mouseRadius cfg)
             (mouseForce cfg * (if isMouseDown then 2.5 else 1)) mousePos
             (i * 3) (vx p) (vy p) (vz p) a total in
  Adds (i * 3) a r.1 (interactionTerm cfg isMouseDown mousePos p)
  /\ r.2 = total + energyTerm cfg isMouseDown mousePos p.
Proof.
  unfold interactionBlock, interactionBlockTraced, interactionTerm,
    energyTerm, inReach, distOf, norm, vsub, forceOf. simpl.
  destruct (Rltb _ (mouseRadius cfg) && Rltb 0 _); simpl.
  - split; [apply Adds_add_at|].
    destruct (Rltb 0.1 _); lra.
  - split; [apply Adds_zero|lra].
Qed.

Lemma interactionBlockTraced_divisors (cfg : Config) (fmax : R)
    (mousePos : Vector3) (i3 : nat) (p : Vector3) (a : Float32Array)
    (total : R) :
  (interactionBlockTraced (mouseRadius cfg) fmax mousePos i3
     (vx p) (vy p) (vz p) a total).2
  = divisorsOf cfg mousePos p.
Proof.
  unfold interactionBlockTraced, divisorsOf, inReach, distOf, norm, vsub.
  simpl. destruct (Rltb _ (mouseRadius cfg) && Rltb 0 _); reflexivity.
Qed.

Lemma windBlock_Adds (cfg : Config) (time : R) (i : nat) (p o : Vector3)
    (a : Float32Array) :
  Adds (i * 3) a
    (windBlock (cos (time * 0.1) * windStrength cfg)
       (sin (time * 0.1 * 0.7) * windStrength cfg * 0.5)
       (sin (time * 0.1 * 0.5) * windStrength cfg * 0.3)
       (windTurbulence cfg) time (i * 3) (vx p) (vy p) (vz p)
       (displacementOf p o) a)
    (windTerm cfg time p o).
Proof. unfold windBlock, windTerm. apply Adds_add_at. Qed.

Lemma returnBlock_Adds (cfg : Config) (i : nat) (p o : Vector3)
    (a : Float32Array) :
  Adds (i * 3) a
    (returnBlock (returnSpeed cfg) (i * 3) (vx p) (vy p) (vz p)
       (vx o) (vy o) (vz o) (displacementOf p o) a)
    (returnTerm cfg p o).
Proof.
  unfold returnBlock, returnTerm.
  destruct (Rltb 0.1 _); [apply Adds_add_at|apply Adds_zero].
Qed.

Lemma jitterBlock_Adds (cfg : Config) (time : R) (i : nat) (p : Vector3)
    (a : Float32Array) :
  Adds (i * 3) a
    (jitterBlock (noiseAmount cfg) time (i * 3) (vx p) (vy p) (vz p) a)
    (jitterTerm cfg time p).
Proof.
  unfold jitterBlock, jitterTerm. simpl.
  destruct (Rltb 0 _); [apply Adds_add_at|apply Adds_zero].
Qed.

Lemma moveBlock_Adds (i : nat) (vel pos : Float32Array) :
  Adds (i * 3) pos (moveBlock (i * 3) vel pos) (particle vel i).
Proof. unfold moveBlock, particle. apply Adds_add_at. Qed.

Lemma dampBlock_spec (damping : R) (i : nat) (a : Float32Array) :
  length (dampBlock damping (i * 3) a) = length a
  /\ (forall j, j <> (i * 3)%nat -> j <> (i * 3 + 1)%nat ->
        j <> (i * 3 + 2)%nat -> get (dampBlock damping (i * 3) a) j = get a j)
  /\ ((i * 3 + 2 < length a)%nat ->
      particle (dampBlock damping (i * 3) a) i = vscale (particle a i) damping).
Proof.
  unfold dampBlock. split; [array_simpl; done|]. split.
  - intros j H0 H1 H2. array_simpl. done.
  - intros Hlen. unfold particle, vscale. simpl. array_simpl. done.
Qed.

Lemma Adds_particle (i : nat) (a a' : Float32Array) (d : Vector3) :
  Adds (i * 3) a a' d -> (i * 3 + 2 < length a)%nat ->
  particle a' i = vadd (particle a i) d.
Proof.
  intros (_ & _ & Hat) Hlen. destruct (Hat Hlen) as (H0 & H1 & H2).
  unfold particle, vadd. simpl. rewrite H0, H1, H2. done.
Qed.

(** One iteration of the particle loop: it rewrites the three entries of
    particle [i] in both buffers, and nothing else. *)
Lemma particleBody_spec (cfg : Config) (isMouseDown : bool) (time : R)
    (mousePos : Vector3) (orig : Float32Array) (i : nat) (l : Loop) :
  let p := particle (l_positions l) i in
  let o := particle orig i in
  let v := particle (l_velocities l) i in
  let k := kick cfg isMouseDown time mousePos p o v in
  let l' := particleBody cfg isMouseDown time mousePos orig i l in
  length (l_positions l') = length (l_positions l)
  /\ length (l_velocities l') = length (l_velocities l)
  /\ (forall j, j <> (i * 3)%nat -> j <> (i * 3 + 1)%nat ->
        j <> (i * 3 + 2)%nat ->
        get (l_positions l') j = get (l_positions l) j
        /\ get (l_velocities l') j = get (l_velocities l) j)
  /\ ((i * 3 + 2 < length (l_positions l))%nat ->
      (i * 3 + 2 < length (l_velocities l))%nat ->
      particle (l_positions l') i = vadd p k
      /\ particle (l_velocities l') i = vscale k (damping cfg))
  /\ totalInteractionForce l'
     = totalInteractionForce l + energyTerm cfg isMouseDown mousePos p.
Proof.
  intros p o v k l'. unfold l', particleBody. cbv zeta.
  set (r := interactionBlockTraced _ _ _ _ _ _ _ _ _).
  assert (HI : Adds (i * 3) (l_velocities l) r.1.1
                 (interactionTerm cfg isMouseDown mousePos p)
               /\ r.1.2 = totalInteractionForce l
                          + energyTerm cfg isMouseDown mousePos p)
    by exact (interactionBlock_Adds cfg isMouseDown mousePos i p
                (l_velocities l) (totalInteractionForce l)).
  clearbody r. destruct r as [[vel1 tot1] divs1]. simpl in HI.
  destruct HI as [HI Htot].
  set (vel2 := windBlock _ _ _ _ _ _ _ _ _ _ vel1).
  assert (HW : Adds (i * 3) vel1 vel2 (windTerm cfg time p o))
    by exact (windBlock_Adds cfg time i p o vel1).
  clearbody vel2.
  set (vel3 := returnBlock _ _ _ _ _ _ _ _ _ vel2).
  assert (HR : Adds (i * 3) vel2 vel3 (returnTerm cfg p o))
    by exact (returnBlock_Adds cfg i p o vel2).
  clearbody vel3.
  set (vel4 := jitterBlock _ _ _ _ _ _ vel3).
  assert (HJ : Adds (i * 3) vel3 vel4 (jitterTerm cfg time p))
    by exact (jitterBlock_Adds cfg time i p vel3).
  clearbody vel4.
  pose proof (Adds_trans _ _ _ _ _ _ (Adds_trans _ _ _ _ _ _
                (Adds_trans _ _ _ _ _ _ HI HW) HR) HJ) as HV.
  pose proof (moveBlock_Adds i vel4 (l_positions l)) as HM.
  destruct (dampBlock_spec (damping cfg) i vel4) as (HDl & HDo & HDa).
  simpl.
  split; [apply HM|]. split; [rewrite HDl; apply HV|]. split.
  - intros j H0 H1 H2. split.
    + apply HM; done.
    + rewrite HDo by done. apply HV; done.
  - split; [|exact Htot]. intros Hp Hv.
    assert (Hvel4 : particle vel4 i = k).
    { rewrite (Adds_particle _ _ _ _ HV Hv).
      unfold k, kick, vadd. simpl. f_equal; lra. }
    split.
    + rewrite (Adds_particle _ _ _ _ HM Hp), Hvel4. done.
    + rewrite HDa, Hvel4; [done|].
      destruct HV as (-> & _). exact Hv.
Qed.

(** One iteration records the divisions of particle [i], and no other. *)
Lemma particleBody_divisions (cfg : Config) (isMouseDown : bool) (time : R)
    (mousePos : Vector3) (orig : Float32Array) (i : nat) (l : Loop) :
  divisions (particleBody cfg isMouseDown time mousePos orig i l)
  = divisions l
    ++ map (pair i) (divisorsOf cfg mousePos (particle (l_positions l) i)).
Proof.
  unfold particleBody. cbv zeta.
  pose proof (interactionBlockTraced_divisors cfg
                (mouseForce cfg * (if isMouseDown then 2.5 else 1)) mousePos
                (i * 3) (particle (l_positions l) i) (l_velocities l)
                (totalInteractionForce l)) as Hd.
  unfold particle in Hd at 1 2 3. simpl in Hd.
  destruct (interactionBlockTraced _ _ _ _ _ _ _ _ _) as [[vel1 tot1] divs1].
  simpl in *. rewrite Hd. reflexivity.
Qed.

Lemma sum_range_S (n : nat) (f : nat -> R) :
  sum_range (S n) f = sum_range n f + f n.
Proof. unfold sum_range. rewrite for_range_S. done. Qed.

Lemma sum_range_ext (n : nat) (f g : nat -> R) :
  (forall i, (i < n)%nat -> f i = g i) -> sum_range n f = sum_range n g.
Proof.
  induction n as [|n IH]; intros Hfg; [done|].
  rewrite !sum_range_S, IH, Hfg by (intros; try apply Hfg; lia). done.
Qed.

Lemma particle_ext (a b : Float32Array) (i : nat) :
  (forall j, (i * 3 <= j)%nat -> get a j = get b j) ->
  particle a i = particle b i.
Proof.
  intros H. unfold particle. rewrite !H by lia. done.
Qed.

(** The first [n] iterations of the particle loop: each of the first [n]
    particles has been moved by its own kick, computed from the values the
    buffers held before the loop; the other entries are untouched; and the
    energy is the sum of the first [n] contributions. *)
Lemma particleLoop_prefix (cfg : Config) (isMouseDown : bool) (time : R)
    (mousePos : Vector3) (orig pos0 vel0 : Float32Array) (total0 : R)
    (n : nat) :
  (n * 3 <= length pos0)%nat -> (n * 3 <= length vel0)%nat ->
  let l :=
    for_range n (particleBody cfg isMouseDown time mousePos orig)
      {| l_positions := pos0; l_velocities := vel0;
         totalInteractionForce := total0; divisions := [] |} in
  let k i :=
    kick cfg isMouseDown time mousePos
      (particle pos0 i) (particle orig i) (particle vel0 i) in
  length (l_positions l) = length pos0
  /\ length (l_velocities l) = length vel0
  /\ (forall j, (n * 3 <= j)%nat ->
        get (l_positions l) j = get pos0 j
        /\ get (l_velocities l) j = get vel0 j)
  /\ (forall i, (i < n)%nat ->
        particle (l_positions l) i = vadd (particle pos0 i) (k i)
        /\ particle (l_velocities l) i = vscale (k i) (damping cfg))
  /\ totalInteractionForce l
     = total0
       + sum_range n
           (fun i => energyTerm cfg isMouseDown mousePos (particle pos0 i)).
Proof.
  induction n as [|n IH]; intros Hp Hv l k.
  - unfold l. rewrite for_range_0. simpl. repeat split; try done; try lia.
    unfold sum_range. rewrite for_range_0. lra.
  - destruct IH as (IHlp & IHlv & IHrest & IHdone & IHtot); [lia|lia|].
    unfold l. rewrite for_range_S.
    set (l0 := for_range n _ _) in *.
    destruct (particleBody_spec cfg isMouseDown time mousePos orig n l0)
      as (Hlp & Hlv & Hother & Hat & Htot).
    set (l1 := particleBody cfg isMouseDown time mousePos orig n l0) in *.
    assert (Hpn : particle (l_positions l0) n = particle pos0 n).
    { apply particle_ext. intros j Hj. apply IHrest. exact Hj. }
    assert (Hvn : particle (l_velocities l0) n = particle vel0 n).
    { apply particle_ext. intros j Hj. apply IHrest. exact Hj. }
    rewrite Hpn, Hvn in Hat. rewrite Hpn in Htot.
    split; [congruence|]. split; [congruence|]. split; [|split].
    + intros j Hj. destruct (Hother j) as [-> ->]; try lia.
      apply IHrest. lia.
    + intros i Hi. destruct (decide (i = n)) as [->|Hne].
      * apply Hat; lia.
      * destruct (IHdone i) as [Ha Hb]; [lia|].
        unfold k. rewrite <- Ha, <- Hb. unfold particle.
        destruct (Hother (i * 3)%nat) as [-> ->]; try lia.
        destruct (Hother (i * 3 + 1)%nat) as [-> ->]; try lia.
        destruct (Hother (i * 3 + 2)%nat) as [-> ->]; try lia.
        done.
    + rewrite Htot, IHtot, sum_range_S. lra.
Qed.

(** The divisions that the particle loop executes: those of each particle,
    computed from the position it had before the loop. *)
Lemma particleLoop_divisions (time : R) (mousePos : Vector3) (s : t) :
  wf s ->
  divisions (particleLoop time mousePos s)
  = flat_map
      (fun i => map (pair i)
                  (divisorsOf (config s) mousePos (particle (positions s) i)))
      (seq 0 (particleCount (config s))).
Proof.
  intros (Hp & Ho & Hv & _). unfold particleLoop.
  assert (H : forall n, (n * 3 <= length (positions s))%nat ->
            divisions
              (for_range n
                 (particleBody (config s) (isMouseDown s) time mousePos
                    (originalPositions s))
                 {| l_positions := positions s; l_velocities := velocities s;
                    totalInteractionForce := 0; divisions := [] |})
            = flat_map
                (fun i => map (pair i)
                            (divisorsOf (config s) mousePos
                               (particle (positions s) i)))
                (seq 0 n)).
  { induction n as [|n IH]; intros Hn.
    - rewrite for_range_0. reflexivity.
    - rewrite for_range_S, particleBody_divisions, IH by lia.
      destruct (particleLoop_prefix (config s) (isMouseDown s) time mousePos
                  (originalPositions s) (positions s) (velocities s) 0 n)
        as (_ & _ & Hrest & _); [lia|lia|].
      rewrite (particle_ext _ (positions s) n)
        by (intros j Hj; apply Hrest; exact Hj).
      rewrite seq_S, flat_map_app. simpl. rewrite app_nil_r. reflexivity. }
  apply H. lia.
Qed.

Lemma divisorsOf_nonzero (cfg : Config) (mousePos p : Vector3) (b : R) :
  In b (divisorsOf cfg mousePos p) -> b <> 0.
Proof.
  unfold divisorsOf, inReach.
  destruct (Rltb _ (mouseRadius cfg)) eqn:H1; simpl; [|done].
  destruct (Rltb 0 _) eqn:H0; simpl; [|done].
  apply Rltb_true in H1, H0.
  intros [<-|[<-|[<-|[<-|[<-|[]]]]]]; lra.
Qed.

(** What [updateParticles] leaves in the buffers, whether the sound
    manager returns or throws. *)
Lemma updateParticles_buffers (time : R) (mousePos : Vector3)
    (rnd rndNote : R) (s : t) :
  positions (state_of (updateParticles time mousePos rnd rndNote s))
  = l_positions (particleLoop time mousePos s)
  /\ velocities (state_of (updateParticles time mousePos rnd rndNote s))
     = l_velocities (particleLoop time mousePos s)
  /\ originalPositions (state_of (updateParticles time mousePos rnd rndNote s))
     = originalPositions s.
Proof.
  unfold updateParticles.
  destruct (audioTrigger _ _);
    [destruct (SoundManager.triggerInteractionSound _ _ _)|]; done.
Qed.

(** After [updateParticles], every particle has moved by its kick and
    keeps the damped kick as its velocity. *)
Lemma updateParticles_particle (time : R) (mousePos : Vector3)
    (rnd rndNote : R) (s : t) (i : nat) :
  wf s -> (i < particleCount (config s))%nat ->
  let s' := state_of (updateParticles time mousePos rnd rndNote s) in
  particle (positions s') i
  = vadd (particle (positions s) i) (kickOf s time mousePos i)
  /\ particle (velocities s') i
     = vscale (kickOf s time mousePos i) (damping (config s))
  /\ particle (originalPositions s') i = particle (originalPositions s) i.
Proof.
  intros (Hp & Ho & Hv & _) Hi s'.
  destruct (updateParticles_buffers time mousePos rnd rndNote s)
    as (Hpos & Hvel & Horig).
  unfold s'. rewrite Hpos, Hvel, Horig. unfold particleLoop.
  destruct (particleLoop_prefix (config s) (isMouseDown s) time mousePos
              (originalPositions s) (positions s) (velocities s) 0
              (particleCount (config s)))
    as (_ & _ & _ & Hdone & _); [lia|lia|].
  destruct (Hdone i Hi) as [-> ->]. done.
Qed.

(** The energy that the particle loop accumulates. *)
Lemma particleLoop_energy (time : R) (mousePos : Vector3) (s : t) :
  wf s ->
  totalInteractionForce (particleLoop time mousePos s)
  = sum_range (particleCount (config s))
      (fun i => energyTerm (config s) (isMouseDown s) mousePos
                  (particle (positions s) i)).
Proof.
  intros (Hp & Ho & Hv & _). unfold particleLoop.
  destruct (particleLoop_prefix (config s) (isMouseDown s) time mousePos
              (originalPositions s) (positions s) (velocities s) 0
              (particleCount (config s)))
    as (_ & _ & _ & _ & ->); [lia|lia|]. lra.
Qed.

(** *** The interaction force *)

Lemma inReach_true (cfg : Config) (d : R) :
  0 < d < mouseRadius cfg -> inReach cfg d = true.
Proof.
  intros [H0 H1]. unfold inReach.
  rewrite (proj2 (Rltb_true _ _) H0), (proj2 (Rltb_true _ _) H1). done.
Qed.

Lemma inReach_false (cfg : Config) (d : R) :
  d <= 0 \/ mouseRadius cfg <= d -> inReach cfg d = false.
Proof.
  intros [H|H]; unfold inReach.
  - rewrite (proj2 (Rltb_false 0 d) H). apply andb_false_r.
  - rewrite (proj2 (Rltb_false d _) H). done.
Qed.

(** C1.  In [updateParticles], a particle at distance [d] from the
    interaction point with [0 < d < mouseRadius] gets, on top of the wind,
    return and jitter terms, the force
    [f = (1 - d/mouseRadius)^2 * mouseForce * (2.5 if pressed else 1)]
    along the unit vector from the point to the particle, plus the swirl
    [(-dy, dx, 0)] scaled by [0.3 * f * 0.2]; a particle with [d = 0] or
    [d >= mouseRadius] gets no interaction term at all.  The sum is the
    velocity that is then damped.  Of the divisions that the particle loop
    of the call executes in its interaction block, none has a zero divisor;
    for a particle with [d = 0] or [d >= mouseRadius] the loop executes no
    division at all, and for a particle in reach it divides by [d]. *)
Theorem interaction_force_is_guarded_repulsion_with_swirl (time : R)
    (mousePos : Vector3) (rnd rndNote : R) (s : t) (i : nat) :
  wf s -> (i < particleCount (config s))%nat ->
  let cfg := config s in
  let p := particle (positions s) i in
  let o := particle (originalPositions s) i in
  let v := particle (velocities s) i in
  let dx := vx p - vx mousePos in
  let dy := vy p - vy mousePos in
  let dz := vz p - vz mousePos in
  let d := sqrt (dx * dx + dy * dy + dz * dz) in
  let f := (1 - d / mouseRadius cfg) ^ 2 * mouseForce cfg
           * (if isMouseDown s then 2.5 else 1) in
  let rest := otherTerms cfg time p o in
  let v' :=
    particle
      (velocities (state_of (updateParticles time mousePos rnd rndNote s))) i in
  let executed := divisions (particleLoop time mousePos s) in
  (0 < d < mouseRadius cfg ->
     v' = vscale
            (vadd (vadd v {| vx := dx / d * f + - dy * (0.3 * f * 0.2);
                             vy := dy / d * f + dx * (0.3 * f * 0.2);
                             vz := dz / d * f |})
                  rest)
            (damping cfg))
  /\ (d = 0 \/ mouseRadius cfg <= d ->
      v' = vscale (vadd v rest) (damping cfg))
  /\ (forall j b, In (j, b) executed -> b <> 0)
  /\ (d = 0 \/ mouseRadius cfg <= d -> forall b, ~ In (i, b) executed)
  /\ (0 < d < mouseRadius cfg -> In (i, d) executed).
Proof.
  intros Hwf Hi cfg p o v dx dy dz d f rest v' executed.
  destruct (updateParticles_particle time mousePos rnd rndNote s i Hwf Hi)
    as (_ & Hv & _).
  unfold v'. rewrite Hv. unfold kickOf, kick.
  fold cfg p o v. unfold rest, otherTerms.
  assert (Hd : distOf p mousePos = d) by reflexivity.
  assert (Hex : forall j b, In (j, b) executed <->
            (j < particleCount cfg)%nat
            /\ In b (divisorsOf cfg mousePos (particle (positions s) j))).
  { intros j b. unfold executed. rewrite particleLoop_divisions by exact Hwf.
    rewrite in_flat_map. split.
    - intros (k & Hk & Hin). apply in_map_iff in Hin.
      destruct Hin as (b' & Heq & Hin). injection Heq as -> ->.
      apply in_seq in Hk. split; [unfold cfg; lia|exact Hin].
    - intros (Hj & Hin). exists j. split; [apply in_seq; unfold cfg in Hj; lia|].
      apply in_map. exact Hin. }
  split_and!.
  - intros Hcase. unfold interactionTerm.
    rewrite Hd, inReach_true by exact Hcase.
    unfold vscale, vadd, forceOf, f, dx, dy, dz, p. simpl.
    f_equal; ring.
  - intros Hcase. unfold interactionTerm.
    rewrite Hd, inReach_false by (destruct Hcase; lra).
    unfold vscale, vadd, vzero. simpl. f_equal; ring.
  - intros j b Hin. apply Hex in Hin. destruct Hin as (_ & Hin).
    exact (divisorsOf_nonzero _ _ _ _ Hin).
  - intros Hcase b Hin. apply Hex in Hin. destruct Hin as (_ & Hin).
    fold p in Hin. unfold divisorsOf in Hin.
    rewrite Hd, inReach_false in Hin by (destruct Hcase; lra).
    destruct Hin.
  - intros Hcase. apply Hex. split; [exact Hi|].
    fold p. unfold divisorsOf. rewrite Hd, inReach_true by exact Hcase.
    simpl. auto.
Qed.

Lemma sqrt_axis (a : R) : 0 <= a -> sqrt (a * a + 0 * 0 + 0 * 0) = a.
Proof.
  intros Ha. replace (a * a + 0 * 0 + 0 * 0) with (a * a) by ring.
  apply sqrt_square. exact Ha.
Qed.

(** The sample: the pointer at distance 12 from the one particle, and the
    pointer on the particle. *)
Lemma interaction_force_is_guarded_repulsion_with_swirl_witness :
  let s := oneParticle in
  let mousePos := {| vx := 0; vy := 1; vz := 0 |} in
  let onParticle := {| vx := 12; vy := 1; vz := 0 |} in
  let d := sqrt ((12 - 0) * (12 - 0) + (1 - 1) * (1 - 1) + (0 - 0) * (0 - 0)) in
  let f := (1 - d / 150) ^ 2 * 1.0 * 1 in
  particle (velocities (state_of (updateParticles 0 mousePos 0 0 s))) 0
  = vscale
      (vadd (vadd {| vx := 1; vy := 0; vz := 2 |}
                  {| vx := (12 - 0) / d * f + - (1 - 1) * (0.3 * f * 0.2);
                     vy := (1 - 1) / d * f + (12 - 0) * (0.3 * f * 0.2);
                     vz := (0 - 0) / d * f |})
            (otherTerms (config s) 0 {| vx := 12; vy := 1; vz := 0 |}
               {| vx := 10; vy := 0; vz := 0 |}))
      0.96
  /\ In (0%nat, d) (divisions (particleLoop 0 mousePos s))
  /\ (forall b, ~ In (0%nat, b) (divisions (particleLoop 0 onParticle s))).
Proof.
  intros s mousePos onParticle d f.
  destruct (interaction_force_is_guarded_repulsion_with_swirl
              0 mousePos 0 0 s 0%nat wf_oneParticle)
    as (Hin & _ & _ & _ & Hdiv).
  { simpl. lia. }
  destruct (interaction_force_is_guarded_repulsion_with_swirl
              0 onParticle 0 0 s 0%nat wf_oneParticle)
    as (_ & _ & _ & Hnone & _).
  { simpl. lia. }
  assert (Hd : 0 < d < 150).
  { unfold d.
    replace ((12 - 0) * (12 - 0) + (1 - 1) * (1 - 1) + (0 - 0) * (0 - 0))
      with (12 * 12 + 0 * 0 + 0 * 0) by ring.
    rewrite sqrt_axis by lra. lra. }
  split_and!.
  - exact (Hin Hd).
  - exact (Hdiv Hd).
  - apply Hnone. left. unfold particle, get. simpl.
    replace ((12 - 12) * (12 - 12) + (1 - 1) * (1 - 1) + (0 - 0) * (0 - 0))
      with 0 by ring.
    apply sqrt_0.
Defined.

(** *** The turbulence term *)

Lemma norm_nonneg (a : Vector3) : 0 <= norm a.
Proof. unfold norm. apply sqrt_pos. Qed.

Lemma windInfluence_pos (d : R) : 0 < d -> 0 < Rmin (d / 50) 1 * 0.5.
Proof. intros Hd. unfold Rmin. destruct (Rle_dec _ _); lra. Qed.

(** C3.  With [windStrength = 0] the wind block still adds
    [turbulence * windTurbulence * windInfluence * 0.05] to the velocity:
    the turbulence sample is not scaled by [windStrength].  For a displaced
    particle [windInfluence > 0], so with [windTurbulence > 0] the added
    amount is non-zero on every axis whose noise sample is non-zero, and
    the velocity after the step differs from what it would be without the
    wind block (unless [damping] is zero). *)
Theorem turbulence_is_not_scaled_by_windStrength (time : R)
    (mousePos : Vector3) (rnd rndNote : R) (s : t) (i : nat) :
  wf s -> (i < particleCount (config s))%nat ->
  let cfg := config s in
  let p := particle (positions s) i in
  let o := particle (originalPositions s) i in
  let v := particle (velocities s) i in
  windStrength cfg = 0 ->
  0 < windTurbulence cfg ->
  0 < displacementOf p o ->
  let turb := turbulence time p in
  let windInfluence := Rmin (displacementOf p o / 50) 1 * 0.5 in
  let w := {| vx := vx turb * windTurbulence cfg * windInfluence * 0.05;
              vy := vy turb * windTurbulence cfg * windInfluence * 0.05;
              vz := vz turb * windTurbulence cfg * windInfluence * 0.05 |} in
  let base :=
    vadd (vadd (vadd v (interactionTerm cfg (isMouseDown s) mousePos p))
               (returnTerm cfg p o))
         (jitterTerm cfg time p) in
  let v' :=
    particle
      (velocities (state_of (updateParticles time mousePos rnd rndNote s))) i in
  0 < windInfluence
  /\ windTerm cfg time p o = w
  /\ v' = vscale (vadd base w) (damping cfg)
  /\ (vx turb <> 0 ->
      vx w <> 0 /\ (damping cfg <> 0 -> vx v' <> vx (vscale base (damping cfg))))
  /\ (vy turb <> 0 ->
      vy w <> 0 /\ (damping cfg <> 0 -> vy v' <> vy (vscale base (damping cfg))))
  /\ (vz turb <> 0 ->
      vz w <> 0 /\ (damping cfg <> 0 -> vz v' <> vz (vscale base (damping cfg)))).
Proof.
  intros Hwf Hi cfg p o v Hws Hwt Hdisp turb windInfluence w base v'.
  assert (Hwi : 0 < windInfluence).
  { apply windInfluence_pos. exact Hdisp. }
  assert (Hw : windTerm cfg time p o = w).
  { unfold windTerm, w, windInfluenceOf. rewrite Hws. fold turb windInfluence.
    f_equal; ring. }
  assert (Hv' : v' = vscale (vadd base w) (damping cfg)).
  { destruct (updateParticles_particle time mousePos rnd rndNote s i Hwf Hi)
      as (_ & Hv & _).
    unfold v'. rewrite Hv. unfold kickOf, kick. fold cfg p o v.
    rewrite Hw. unfold base, vscale, vadd. simpl. f_equal; ring. }
  assert (Hnz : forall t, t <> 0 ->
            t * windTurbulence cfg * windInfluence * 0.05 <> 0).
  { intros t Ht Heq.
    assert (Hpos : 0 < windTurbulence cfg * windInfluence * 0.05).
    { apply Rmult_lt_0_compat; [apply Rmult_lt_0_compat|]; try assumption.
      lra. }
    replace (t * windTurbulence cfg * windInfluence * 0.05)
      with (t * (windTurbulence cfg * windInfluence * 0.05)) in Heq by ring.
    apply Rmult_integral in Heq. destruct Heq as [Heq|Heq]; [done|].
    rewrite Heq in Hpos. lra. }
  assert (Hdiff : forall b c, c <> 0 -> damping cfg <> 0 ->
            (b + c) * damping cfg <> b * damping cfg).
  { intros b c Hc Hd Heq. apply Hc.
    assert (c * damping cfg = 0) as H0 by lra.
    apply Rmult_integral in H0. destruct H0; done. }
  split; [exact Hwi|]. split; [exact Hw|]. split; [exact Hv'|].
  rewrite Hv'. unfold vscale, vadd, w. simpl.
  repeat split; try (apply Hnz; assumption);
    intros Hd; apply Hdiff; try assumption; apply Hnz; assumption.
Qed.

Lemma wf_stillAir : wf stillAir.
Proof. unfold wf. simpl. repeat split; try done. intros []; done. Qed.

Lemma turbulence_is_not_scaled_by_windStrength_witness :
  let p := particle (positions stillAir) 0 in
  let o := particle (originalPositions stillAir) 0 in
  let windInfluence := Rmin (displacementOf p o / 50) 1 * 0.5 in
  0 < windInfluence
  /\ windTerm (config stillAir) 0 p o
     = {| vx := vx (turbulence 0 p) * 0.2 * windInfluence * 0.05;
          vy := vy (turbulence 0 p) * 0.2 * windInfluence * 0.05;
          vz := vz (turbulence 0 p) * 0.2 * windInfluence * 0.05 |}.
Proof.
  intros p o windInfluence.
  destruct (turbulence_is_not_scaled_by_windStrength
              0 origin 0 0 stillAir 0%nat wf_stillAir)
    as (Hwi & Hw & _).
  - simpl. lia.
  - reflexivity.
  - simpl. lra.
  - apply sqrt_lt_R0. unfold vsub, particle, get. simpl. lra.
  - split; [exact Hwi | exact Hw].
Defined.

(** *** The interaction energy and the audio trigger *)

Lemma energyTerm_aboveThresholdForce (s : t) (mousePos : Vector3) (i : nat) :
  energyTerm (config s) (isMouseDown s) mousePos (particle (positions s) i)
  = aboveThresholdForce s mousePos i.
Proof.
  unfold energyTerm, aboveThresholdForce, inReach.
  destruct (Rltb _ (mouseRadius (config s)) && Rltb 0 _); simpl; [|done].
  destruct (Rltb 0.1 _); done.
Qed.

Lemma updateParticles_soundManager (time : R) (mousePos : Vector3)
    (rnd rndNote : R) (s : t) :
  soundManager (state_of (updateParticles time mousePos rnd rndNote s))
  = match audioTrigger (totalInteractionForce (particleLoop time mousePos s))
            rnd with
    | Some intensity =>
        state_of (SoundManager.triggerInteractionSound intensity rndNote
                    (soundManager s))
    | None => soundManager s
    end.
Proof.
  unfold updateParticles.
  destruct (audioTrigger _ _);
    [destruct (SoundManager.triggerInteractionSound _ _ _)|]; done.
Qed.

Lemma audioTrigger_Some (total rnd : R) :
  5.0 < total -> rnd < Rmin (total * 0.005) 0.5 ->
  audioTrigger total rnd = Some total.
Proof.
  intros H5 Hr. unfold audioTrigger.
  rewrite (proj2 (Rltb_true _ _) H5), (proj2 (Rltb_true _ _) Hr). done.
Qed.

Lemma audioTrigger_None (total rnd : R) :
  total <= 5.0 \/ Rmin (total * 0.005) 0.5 <= rnd ->
  audioTrigger total rnd = None.
Proof.
  intros [H|H]; unfold audioTrigger.
  - rewrite (proj2 (Rltb_false _ _) H). done.
  - rewrite (proj2 (Rltb_false rnd _) H). destruct (Rltb 5.0 total); done.
Qed.

Lemma wf_crowd : wf crowd.
Proof. unfold wf. simpl. repeat split; done. Qed.

Lemma sqrt_225 (a : R) : a = 15 * 15 -> sqrt a = 15.
Proof. intros ->. apply sqrt_square. lra. Qed.

Lemma crowd_energyTerm (i : nat) :
  (i < 3)%nat ->
  energyTerm (config crowd) true origin (particle (positions crowd) i) = 2.025.
Proof.
  intros Hi.
  assert (Hd : distOf (particle (positions crowd) i) origin = 15).
  { unfold distOf, norm, vsub, particle, origin.
    destruct i as [|[|[|i]]]; [| | |lia]; simpl;
      apply sqrt_225; unfold get; simpl; ring. }
  unfold energyTerm. rewrite Hd.
  rewrite inReach_true by (simpl; lra).
  unfold forceOf. simpl.
  rewrite (proj2 (Rltb_true _ _)); lra.
Qed.

Lemma crowd_energy (time : R) :
  totalInteractionForce (particleLoop time origin crowd) = 6.075.
Proof.
  rewrite particleLoop_energy by exact wf_crowd.
  change (particleCount (config crowd)) with 3%nat.
  change (isMouseDown crowd) with true.
  rewrite !sum_range_S. unfold sum_range. rewrite for_range_0.
  rewrite !crowd_energyTerm by lia. lra.
Qed.

(** C4, as stated, fails: the three particles of [crowd] accumulate the
    energy [6.075 > 5.0], the random draw is [0.9], and the sound manager,
    which would have started a voice had it been called, is not called. *)
Lemma energy_above_threshold_not_forwarded :
  let E := totalInteractionForce (particleLoop 0 origin crowd) in
  let s' := state_of (updateParticles 0 origin 0.9 0.5 crowd) in
  wf crowd
  /\ 5.0 < E
  /\ audioTrigger E 0.9 = None
  /\ soundManager s' = soundManager crowd
  /\ SoundManager.voices (soundManager s') = []
  /\ length (SoundManager.voices
               (state_of (SoundManager.triggerInteractionSound E 0.5
                            (soundManager crowd)))) = 1%nat.
Proof.
  intros E s'.
  assert (HE : E = 6.075) by apply crowd_energy.
  assert (Hnone : audioTrigger E 0.9 = None).
  { apply audioTrigger_None. right. rewrite HE. unfold Rmin.
    destruct (Rle_dec _ _); lra. }
  assert (Hsm : soundManager s' = soundManager crowd).
  { unfold s'. rewrite updateParticles_soundManager. fold E. rewrite Hnone.
    done. }
  split; [exact wf_crowd|]. split; [lra|]. split; [exact Hnone|].
  split; [exact Hsm|]. split; [rewrite Hsm; reflexivity|].
  unfold SoundManager.triggerInteractionSound. simpl.
  rewrite (proj2 (Rltb_false _ _)) by lra. reflexivity.
Qed.

(** C4, amended.  The energy that the particle loop accumulates is the
    sum, over the particles in index order, of the repulsion-force
    magnitudes above [0.1]; [triggerInteractionSound] is called with it
    exactly when it exceeds [5.0] and the random draw is below
    [min (energy * 0.005, 0.5)], and otherwise the sound manager is left
    alone. *)
Theorem interaction_energy_is_gated_by_threshold_and_chance (time : R)
    (mousePos : Vector3) (rnd rndNote : R) (s : t) :
  wf s ->
  let E := totalInteractionForce (particleLoop time mousePos s) in
  E = sum_range (particleCount (config s)) (aboveThresholdForce s mousePos)
  /\ (5.0 < E -> rnd < Rmin (E * 0.005) 0.5 ->
      audioTrigger E rnd = Some E
      /\ soundManager (state_of (updateParticles time mousePos rnd rndNote s))
         = state_of (SoundManager.triggerInteractionSound E rndNote
                       (soundManager s)))
  /\ (E <= 5.0 \/ Rmin (E * 0.005) 0.5 <= rnd ->
      audioTrigger E rnd = None
      /\ soundManager (state_of (updateParticles time mousePos rnd rndNote s))
         = soundManager s).
Proof.
  intros Hwf E. split; [|split].
  - unfold E. rewrite particleLoop_energy by exact Hwf.
    apply sum_range_ext. intros i _. apply energyTerm_aboveThresholdForce.
  - intros H5 Hr. pose proof (audioTrigger_Some E rnd H5 Hr) as Hsome.
    split; [exact Hsome|].
    rewrite updateParticles_soundManager. fold E. rewrite Hsome. done.
  - intros Hno. pose proof (audioTrigger_None E rnd Hno) as Hnone.
    split; [exact Hnone|].
    rewrite updateParticles_soundManager. fold E. rewrite Hnone. done.
Qed.

Lemma interaction_energy_is_gated_by_threshold_and_chance_witness :
  let E := totalInteractionForce (particleLoop 0 origin crowd) in
  wf crowd
  /\ E = sum_range 3 (aboveThresholdForce crowd origin)
  /\ audioTrigger E 0.01 = Some E.
Proof.
  intros E.
  destruct (interaction_energy_is_gated_by_threshold_and_chance
              0 origin 0.01 0.5 crowd wf_crowd) as (Hsum & Hcall & _).
  split; [exact wf_crowd|]. split; [exact Hsum|].
  apply Hcall.
  - unfold E. rewrite crowd_energy. lra.
  - change (0.01 < Rmin (E * 0.005) 0.5). unfold E. rewrite crowd_energy.
    unfold Rmin. destruct (Rle_dec _ _); lra.
Defined.

(** *** The return spring *)

Lemma interactionTerm_no_force (cfg : Config) (isMouseDown : bool)
    (mousePos p : Vector3) :
  mouseForce cfg = 0 -> interactionTerm cfg isMouseDown mousePos p = vzero.
Proof.
  intros H0. unfold interactionTerm, forceOf. rewrite H0.
  destruct (inReach _ _); [|done]. unfold vzero. f_equal; ring.
Qed.

Lemma windTerm_no_wind (cfg : Config) (time : R) (p o : Vector3) :
  windStrength cfg = 0 -> windTurbulence cfg = 0 ->
  windTerm cfg time p o = vzero.
Proof.
  intros Hs Ht. unfold windTerm. rewrite Hs, Ht. unfold vzero. f_equal; ring.
Qed.

Lemma windTerm_at_origin (cfg : Config) (time : R) (p o : Vector3) :
  displacementOf p o = 0 -> windTerm cfg time p o = vzero.
Proof.
  intros Hd. unfold windTerm, windInfluenceOf. rewrite Hd.
  replace (Rmin (0 / 50) 1) with 0
    by (unfold Rmin; destruct (Rle_dec _ _); lra).
  unfold vzero. f_equal; ring.
Qed.

Lemma returnTerm_near (cfg : Config) (p o : Vector3) :
  displacementOf p o <= 0.1 -> returnTerm cfg p o = vzero.
Proof.
  intros Hd. unfold returnTerm. rewrite (proj2 (Rltb_false _ _) Hd). done.
Qed.

Lemma returnTerm_far (cfg : Config) (p o : Vector3) :
  0.1 < displacementOf p o ->
  returnTerm cfg p o
  = vscale (vsub o p) (returnSpeed cfg * (1 + displacementOf p o * 0.01)).
Proof.
  intros Hd. unfold returnTerm. rewrite (proj2 (Rltb_true _ _) Hd). done.
Qed.

Lemma jitterTerm_off (cfg : Config) (time : R) (p : Vector3) :
  noiseAmount cfg <= 0 -> jitterTerm cfg time p = vzero.
Proof.
  intros Hn. unfold jitterTerm. rewrite (proj2 (Rltb_false _ _) Hn). done.
Qed.

Lemma norm_vscale (a : Vector3) (c : R) :
  norm (vscale a c) = Rabs c * norm a.
Proof.
  unfold norm, vscale. simpl.
  replace (vx a * c * (vx a * c) + vy a * c * (vy a * c)
           + vz a * c * (vz a * c))
    with (Rsqr c * (vx a * vx a + vy a * vy a + vz a * vz a))
    by (unfold Rsqr; ring).
  rewrite sqrt_mult_alt by apply Rle_0_sqr.
  rewrite sqrt_Rsqr_abs. done.
Qed.

Lemma wf_drifting : wf drifting.
Proof. unfold wf. simpl. repeat split; done. Qed.

(** C2, as stated, fails: with [mouseForce = 0], [windStrength = 0] and
    [noiseAmount = 0], the particle of [drifting] starts on its origin and
    one call of [updateParticles] carries it to distance [1]. *)
Lemma displacement_grows_under_momentum :
  let s' := state_of (updateParticles 0 origin 0 0 drifting) in
  wf drifting
  /\ mouseForce (config drifting) = 0
  /\ windStrength (config drifting) = 0
  /\ noiseAmount (config drifting) = 0
  /\ displacementOf (particle (positions drifting) 0)
       (particle (originalPositions drifting) 0) = 0
  /\ displacementOf (particle (positions s') 0)
       (particle (originalPositions s') 0) = 1.
Proof.
  intros s'.
  assert (Hd0 : displacementOf (particle (positions drifting) 0)
                  (particle (originalPositions drifting) 0) = 0).
  { unfold displacementOf, norm, vsub, particle, get. simpl.
    replace ((0 - 0) * (0 - 0) + (0 - 0) * (0 - 0) + (0 - 0) * (0 - 0))
      with 0 by ring.
    apply sqrt_0. }
  repeat split; try done; try exact wf_drifting.
  destruct (updateParticles_particle 0 origin 0 0 drifting 0%nat wf_drifting)
    as (Hp & _ & Ho); [simpl; lia|].
  unfold s'. rewrite Hp, Ho. unfold kickOf, kick.
  rewrite interactionTerm_no_force by done.
  rewrite windTerm_at_origin by exact Hd0.
  rewrite returnTerm_near by (rewrite Hd0; lra).
  rewrite jitterTerm_off by (simpl; lra).
  unfold displacementOf, norm, vsub, vadd, vzero, particle, get. simpl.
  replace ((0 + (1 + 0 + 0 + 0 + 0) - 0) * (0 + (1 + 0 + 0 + 0 + 0) - 0)
           + (0 + (0 + 0 + 0 + 0 + 0) - 0) * (0 + (0 + 0 + 0 + 0 + 0) - 0)
           + (0 + (0 + 0 + 0 + 0 + 0) - 0) * (0 + (0 + 0 + 0 + 0 + 0) - 0))
    with 1 by ring.
  apply sqrt_1.
Qed.

(** C2, amended.  With [mouseForce = 0], [windStrength = 0],
    [windTurbulence = 0] and [noiseAmount = 0], a particle that is at rest
    is not carried away from its origin by a call of [updateParticles],
    provided the pull strength [returnSpeed * (1 + 0.01 * displacement)]
    lies in [[0, 2]]: within [0.1] of its origin it stays where it is, and
    farther out its displacement is multiplied by
    [|1 - returnSpeed * (1 + 0.01 * displacement)|]. *)
Theorem displacement_of_a_resting_particle_does_not_grow (time : R)
    (mousePos : Vector3) (rnd rndNote : R) (s : t) (i : nat) :
  wf s -> (i < particleCount (config s))%nat ->
  let cfg := config s in
  let p := particle (positions s) i in
  let o := particle (originalPositions s) i in
  let d := displacementOf p o in
  let s' := state_of (updateParticles time mousePos rnd rndNote s) in
  let p' := particle (positions s') i in
  let o' := particle (originalPositions s') i in
  mouseForce cfg = 0 ->
  windStrength cfg = 0 ->
  windTurbulence cfg = 0 ->
  noiseAmount cfg = 0 ->
  particle (velocities s) i = vzero ->
  0 <= returnSpeed cfg * (1 + d * 0.01) <= 2 ->
  displacementOf p' o' <= d
  /\ (d <= 0.1 -> p' = p)
  /\ (0.1 < d ->
      displacementOf p' o' = Rabs (1 - returnSpeed cfg * (1 + d * 0.01)) * d).
Proof.
  intros Hwf Hi cfg p o d s' p' o' Hmf Hws Hwt Hna Hv Hpull.
  destruct (updateParticles_particle time mousePos rnd rndNote s i Hwf Hi)
    as (Hp & _ & Ho).
  assert (Hp' : p' = vadd p (returnTerm cfg p o)).
  { unfold p', s'. rewrite Hp. unfold kickOf, kick. fold cfg p o.
    rewrite Hv, interactionTerm_no_force, windTerm_no_wind, jitterTerm_off
      by (try done; lra).
    unfold vadd, vzero. simpl. f_equal; ring. }
  assert (Ho' : o' = o) by exact Ho.
  assert (Hd0 : 0 <= d) by apply norm_nonneg.
  assert (Hnear : d <= 0.1 -> p' = p).
  { intros Hd. rewrite Hp', returnTerm_near by exact Hd.
    unfold vadd, vzero, p, particle. simpl. f_equal; ring. }
  assert (Hfar : 0.1 < d ->
            displacementOf p' o'
            = Rabs (1 - returnSpeed cfg * (1 + d * 0.01)) * d).
  { intros Hd. rewrite Hp', Ho', returnTerm_far by exact Hd. fold d.
    unfold d at 3. unfold displacementOf. rewrite <- norm_vscale.
    unfold norm, vscale, vadd, vsub. simpl. f_equal. ring. }
  split; [|split; [exact Hnear | exact Hfar]].
  destruct (Rle_lt_dec d 0.1) as [Hd|Hd].
  - rewrite (Hnear Hd), Ho'. fold d. lra.
  - rewrite (Hfar Hd).
    assert (Habs : Rabs (1 - returnSpeed cfg * (1 + d * 0.01)) <= 1).
    { apply Rabs_le. lra. }
    nra.
Qed.

Lemma wf_resting : wf resting.
Proof. unfold wf. simpl. repeat split; done. Qed.

Lemma resting_displacement :
  displacementOf (particle (positions resting) 0)
    (particle (originalPositions resting) 0) = 3.
Proof.
  unfold displacementOf, norm, vsub, particle, get. simpl.
  replace ((3 - 0) * (3 - 0) + (0 - 0) * (0 - 0) + (0 - 0) * (0 - 0))
    with (3 * 3) by ring.
  apply sqrt_square. lra.
Qed.

Lemma displacement_of_a_resting_particle_does_not_grow_witness :
  let s' := state_of (updateParticles 0 origin 0 0 resting) in
  displacementOf (particle (positions s') 0) (particle (originalPositions s') 0)
  <= displacementOf (particle (positions resting) 0)
       (particle (originalPositions resting) 0).
Proof.
  intros s'.
  apply (displacement_of_a_resting_particle_does_not_grow
           0 origin 0 0 resting 0%nat wf_resting); try reflexivity.
  - simpl. lia.
  - rewrite resting_displacement. simpl. lra.
Defined.

(** *** animate *)

Lemma updateParticles_rotation (time : R) (mousePos : Vector3)
    (rnd rndNote : R) (s : t) :
  rotation_y (state_of (updateParticles time mousePos rnd rndNote s))
  = rotation_y s.
Proof.
  unfold updateParticles.
  destruct (audioTrigger _ _);
    [destruct (SoundManager.triggerInteractionSound _ _ _)|]; done.
Qed.

(** C8.  Every frame adds [rotationSpeed] to the rotation angle, negated
    when the colours are inverted, frozen or not; and a frame of a frozen
    simulation returns with the position and velocity buffers (and the
    origin buffer) exactly as they were. *)
Theorem animate_rotates_always_and_freezes_physics (time : R)
    (mousePos : Vector3) (rnd rndNote : R) (s : t) :
  let s' := state_of (animate time mousePos rnd rndNote s) in
  rotation_y s'
  = rotation_y s + rotationSpeed (config s) * (if isInverted s then -1 else 1)
  /\ (isFrozen s = true ->
      (exists r, animate time mousePos rnd rndNote s = Returns r)
      /\ positions s' = positions s
      /\ velocities s' = velocities s
      /\ originalPositions s' = originalPositions s).
Proof.
  intros s'. unfold s', animate. split.
  - destruct (isFrozen s); simpl; [done|].
    rewrite updateParticles_rotation. done.
  - intros ->. simpl. repeat split; try done. eexists. done.
Qed.

Lemma animate_rotates_always_and_freezes_physics_witness :
  let s' :=
    state_of (animate 1 {| vx := 0; vy := 1; vz := 0 |} 0 0 frozenInverted) in
  rotation_y s' = 0 + 0.003 * -1
  /\ positions s' = [12; 1; 0]
  /\ velocities s' = [1; 0; 2].
Proof.
  intros s'.
  destruct (animate_rotates_always_and_freezes_physics
              1 {| vx := 0; vy := 1; vz := 0 |} 0 0 frozenInverted)
    as (Hrot & Hfrozen).
  destruct (Hfrozen eq_refl) as (_ & Hp & Hv & _).
  split; [exact Hrot|]. split; [exact Hp | exact Hv].
Defined.

End ParticleSimulationSpec.

(** ** SoundManager: further properties *)

Module SoundManagerExtra.
Import SoundManager SoundManagerSpec.

(** *** init and toggleMute *)

(** The flag is set by an [init] that is handed a context, and by nothing
    else; nothing clears it. *)
Lemma isInitialized_exec_constructs (e : event) (sm : t) :
  isInitialized (exec e sm) = isInitialized sm || constructs e.
Proof.
  destruct e as [fresh|inv| |intensity rnd|k|dt|st]; simpl;
    rewrite ?orb_false_r.
  - unfold init. destruct (isInitialized sm) eqn:Hi; [done|].
    destruct fresh; done.
  - done.
  - done.
  - unfold triggerInteractionSound.
    assert (Hr : isInitialized (resume sm) = isInitialized sm).
    { unfold resume. destruct (ctx sm) as [c|]; [|done].
      destruct (state c); done. }
    destruct (negb (isInitialized sm) || isMuted sm); [done|].
    destruct (activeVoices (resume sm) >=? maxVoices (resume sm))%Z; [done|].
    destruct (ctx (resume sm)) as [c|] eqn:Hc; [|done].
    destruct (Rltb _ _); [done|]. simpl.
    unfold playNote. rewrite Hc. done.
  - unfold timeoutCallback. destruct (timeouts sm !! k); done.
  - unfold advance. destruct (ctx sm); done.
  - unfold setContextState. destruct (ctx sm); done.
Qed.

(** A manager without the flag has no context. *)
Lemma ctx_None_exec (e : event) (sm : t) :
  (isInitialized sm = false -> ctx sm = None) ->
  isInitialized (exec e sm) = false -> ctx (exec e sm) = None.
Proof.
  intros H Hi'. rewrite isInitialized_exec_constructs in Hi'.
  apply orb_false_iff in Hi'. destruct Hi' as [Hi He].
  specialize (H Hi).
  destruct e as [fresh|inv| |intensity rnd|k|dt|st]; simpl.
  - unfold init. rewrite Hi. destruct fresh; [discriminate He|exact H].
  - exact H.
  - rewrite H. done.
  - unfold triggerInteractionSound. rewrite Hi. exact H.
  - unfold timeoutCallback. destruct (timeouts sm !! k); exact H.
  - unfold advance. rewrite H. exact H.
  - unfold setContextState. rewrite H. exact H.
Qed.

Lemma initialized_run_constructs (es : list event) (sm : t) :
  isInitialized (run es sm) = isInitialized sm || existsb constructs es.
Proof.
  revert sm. induction es as [|e es IH]; intros sm; simpl.
  - rewrite orb_false_r. done.
  - change (isInitialized (run es (exec e sm))
            = isInitialized sm || (constructs e || existsb constructs es)).
    rewrite IH, isInitialized_exec_constructs, orb_assoc. done.
Qed.

Lemma ctx_None_run (es : list event) (sm : t) :
  (isInitialized sm = false -> ctx sm = None) ->
  isInitialized (run es sm) = false -> ctx (run es sm) = None.
Proof.
  revert sm. induction es as [|e es IH]; intros sm H; [exact H|].
  apply (IH (exec e sm)). apply ctx_None_exec. exact H.
Qed.

(** X1.  [init] and the browser.  On a manager that is not initialised:
    when [new AudioContext()] hands out a context, [init] returns, with
    that context under master gain [0.8] and the flag set, and with every
    other field as it was; when [new AudioContext()] throws, [init] throws
    and leaves the manager as it was, without context and without flag, so
    that the next call asks again.  After a call that returned, [init]
    returns the manager unchanged whatever the browser would do: it never
    replaces the context and cannot throw any more.  So, from the
    constructor on, the manager is initialised exactly when one of the
    calls of [init] so far was handed a context; until then it has no
    context. *)
Theorem init_builds_the_graph_once_or_fails_without_trace
    (es : list event) (fresh : Construction) (t0 : R) (st0 : ContextState)
    (sm : t) :
  isInitialized sm = false ->
  let sm' := state_of (init (Constructed t0 st0) sm) in
  init (Constructed t0 st0) sm = Returns sm'
  /\ ctx sm' = Some {| currentTime := t0; state := st0; gain := 0.8 |}
  /\ isInitialized sm' = true
  /\ (currentScale sm', isInverted sm', lastNoteTime sm', noteDensity sm',
      maxVoices sm', activeVoices sm', isMuted sm', timeouts sm', voices sm')
     = (currentScale sm, isInverted sm, lastNoteTime sm, noteDensity sm,
        maxVoices sm, activeVoices sm, isMuted sm, timeouts sm, voices sm)
  /\ init ConstructorThrows sm = Throws sm
  /\ init fresh sm' = Returns sm'
  /\ isInitialized (run es constructor) = existsb constructs es
  /\ (existsb constructs es = false -> ctx (run es constructor) = None).
Proof.
  intros Hi sm'. unfold sm', init. rewrite Hi. simpl.
  split_and!; try done.
  - apply initialized_run_constructs.
  - intros Hno. apply ctx_None_run; [done|].
    rewrite initialized_run_constructs, Hno. done.
Qed.

Lemma init_builds_the_graph_once_or_fails_without_trace_witness :
  init (Constructed 0 suspended) constructor
  = Returns (state_of (init (Constructed 0 suspended) constructor))
  /\ ctx (state_of (init (Constructed 0 suspended) constructor))
     = Some {| currentTime := 0; state := suspended; gain := 0.8 |}
  /\ init ConstructorThrows constructor = Throws constructor
  /\ init ConstructorThrows
       (state_of (init (Constructed 0 suspended) constructor))
     = Returns (state_of (init (Constructed 0 suspended) constructor))
  /\ isInitialized
       (run [Init ConstructorThrows; ToggleMute; Init (Constructed 0 running)]
          constructor)
     = true.
Proof.
  destruct (init_builds_the_graph_once_or_fails_without_trace
              [Init ConstructorThrows; ToggleMute; Init (Constructed 0 running)]
              ConstructorThrows 0 suspended constructor eq_refl)
    as (Hret & Hc & _ & _ & Hthrow & Hidem & Hrun & _).
  split_and!;
    [exact Hret | exact Hc | exact Hthrow | exact Hidem | exact Hrun].
Defined.

(** X2.  [toggleMute] twice restores the mute flag and every field of the
    manager except the master gain: with an audio graph the gain ends at
    [0.4], whatever it was before (for instance the [0.8] that [init]
    sets), and its clock and state are kept. *)
Theorem toggleMute_twice_leaves_gain_at_0_4 (sm : t) (c : AudioContext) :
  ctx sm = Some c ->
  toggleMute (toggleMute sm)
  = with_ctx (Some {| currentTime := currentTime c;
                      state := state c;
                      gain := if isMuted sm then 0 else 0.4 |}) sm
  /\ isMuted (toggleMute (toggleMute sm)) = isMuted sm
  /\ (isMuted sm = false ->
      ctx (toggleMute (toggleMute sm))
      = Some {| currentTime := currentTime c; state := state c; gain := 0.4 |}).
Proof.
  intros Hc. destruct sm as [cx ini sc inv lnt nd mv av mu tm vs].
  simpl in *. subst cx. unfold toggleMute, with_ctx. simpl.
  destruct mu; simpl; repeat split; try done.
Qed.

Lemma toggleMute_twice_leaves_gain_at_0_4_witness :
  ctx (toggleMute
         (toggleMute (state_of (init (Constructed 0 running) constructor))))
  = Some {| currentTime := 0; state := running; gain := 0.4 |}.
Proof.
  destruct (toggleMute_twice_leaves_gain_at_0_4
              (state_of (init (Constructed 0 running) constructor))
              {| currentTime := 0; state := running; gain := 0.8 |} eq_refl)
    as (_ & _ & Hg).
  exact (Hg eq_refl).
Defined.

(** *** triggerInteractionSound *)

Lemma resume_fields (sm : t) :
  isInitialized (resume sm) = isInitialized sm
  /\ currentScale (resume sm) = currentScale sm
  /\ isInverted (resume sm) = isInverted sm
  /\ lastNoteTime (resume sm) = lastNoteTime sm
  /\ noteDensity (resume sm) = noteDensity sm
  /\ maxVoices (resume sm) = maxVoices sm
  /\ activeVoices (resume sm) = activeVoices sm
  /\ isMuted (resume sm) = isMuted sm
  /\ timeouts (resume sm) = timeouts sm
  /\ voices (resume sm) = voices sm.
Proof.
  unfold resume. destruct (ctx sm) as [c|]; [|done].
  destruct (state c); done.
Qed.

Lemma resume_ctx (sm : t) (c : AudioContext) :
  ctx sm = Some c ->
  exists c', ctx (resume sm) = Some c' /\ currentTime c' = currentTime c.
Proof.
  intros Hc. unfold resume. rewrite Hc.
  destruct (state c); simpl; eauto.
Qed.





Lemma trigger_returns_of_Inv (intensity rnd : R) (sm : t) :
  Inv sm ->
  exists sm', triggerInteractionSound intensity rnd sm = Returns sm'.
Proof.
  intros (_ & _ & _ & _ & Hctx).
  unfold triggerInteractionSound.
  destruct (isInitialized sm) eqn:Hi; simpl; [|eauto].
  destruct (isMuted sm); simpl; [eauto|].
  destruct (ctx sm) as [c|] eqn:Hc; [|exfalso; apply Hctx; done].
  destruct (resume_ctx sm c Hc) as (c' & -> & _).
  destruct (_ >=? _)%Z; [eauto|]. destruct (Rltb _ _); eauto.
Qed.

(** X4.  Whatever sequence of events a manager has gone through since its
    construction, [triggerInteractionSound] returns normally: the read of
    [this.ctx.currentTime] never meets a null context. *)
Theorem triggerInteractionSound_never_throws (es : list event)
    (intensity rnd : R) :
  exists sm',
    triggerInteractionSound intensity rnd (run es constructor) = Returns sm'.
Proof.
  apply trigger_returns_of_Inv. apply Inv_run, Inv_constructor.
Qed.

(** *** The notes that are played *)

Lemma ScaleMatches_exec (e : event) (sm : t) :
  ScaleMatches sm -> ScaleMatches (exec e sm).
Proof.
  unfold ScaleMatches. intros HS.
  destruct e as [fresh|inv| |intensity rnd|k|dt|st]; simpl.
  - unfold init. destruct (isInitialized sm); [done|].
    destruct fresh; done.
  - done.
  - done.
  - destruct (resume_fields sm) as (_ & Hsc & Hinv & _).
    unfold triggerInteractionSound.
    destruct (negb (isInitialized sm) || isMuted sm); [done|].
    destruct (_ >=? _)%Z; simpl; [rewrite Hsc, Hinv; exact HS|].
    destruct (ctx (resume sm)) as [c|] eqn:Hc; simpl;
      [|rewrite Hsc, Hinv; exact HS].
    destruct (Rltb _ _); simpl; [rewrite Hsc, Hinv; exact HS|].
    unfold playNote. rewrite Hc. simpl. rewrite Hsc, Hinv. exact HS.
  - unfold timeoutCallback. destruct (timeouts sm !! k); done.
  - unfold advance. destruct (ctx sm); done.
  - unfold setContextState. destruct (ctx sm); done.
Qed.

Lemma ScaleMatches_run (es : list event) (sm : t) :
  ScaleMatches sm -> ScaleMatches (run es sm).
Proof.
  revert sm. induction es as [|e es IH]; intros sm HS; [done|].
  simpl. apply IH, ScaleMatches_exec, HS.
Qed.

Lemma floor_index (rnd : R) (n : nat) :
  0 <= rnd < 1 -> (0 < n)%nat -> (Z.to_nat (floor (rnd * INR n)) < n)%nat.
Proof.
  intros [H0 H1] Hn. unfold floor.
  assert (Hn' : 0 < INR n) by (apply lt_0_INR; exact Hn).
  assert (Hx0 : 0 <= rnd * INR n) by (apply Rmult_le_pos; lra).
  assert (Hx1 : rnd * INR n < INR n) by nra.
  destruct (base_Int_part (rnd * INR n)) as [Hle Hgt].
  assert (Hlo : (-1 < Int_part (rnd * INR n))%Z) by (apply lt_IZR; lra).
  assert (Hhi : (Int_part (rnd * INR n) < Z.of_nat n)%Z).
  { apply lt_IZR. rewrite <- INR_IZR_INZ. lra. }
  lia.
Qed.

Lemma scales_in_range :
  Forall (fun m => (48 <= m <= 81)%Z) scaleDefault
  /\ Forall (fun m => (48 <= m <= 81)%Z) scaleInverted.
Proof. split; repeat constructor; lia. Qed.

(** X5.  In every state reached from the constructor, a note that
    [playNote] starts is taken from the scale that belongs to the current
    inversion flag, whatever [Math.random()] returns in [[0, 1)]: the index
    never leaves the scale, so the MIDI note is never undefined; it lies
    between 48 and 81, its frequency is [440 * 2^((note - 69) / 12)], and
    the primary oscillator is a sawtooth when inverted and a sine
    otherwise. *)
Theorem playNote_picks_a_note_of_the_current_scale (es : list event)
    (rnd : R) :
  0 <= rnd < 1 ->
  let sm := run es constructor in
  ctx sm <> None ->
  exists v m,
    voices (playNote rnd sm) = v :: voices sm
    /\ midiNote v = Some m
    /\ m ∈ (if isInverted sm then scaleInverted else scaleDefault)
    /\ (48 <= m <= 81)%Z
    /\ freq v = Some (440 * Rpower 2 ((IZR m - 69) / 12))
    /\ oscType v = (if isInverted sm then sawtooth else sine).
Proof.
  intros Hrnd sm Hctx.
  assert (HS : ScaleMatches sm) by (apply ScaleMatches_run; reflexivity).
  unfold ScaleMatches in HS.
  destruct (ctx sm) as [c|] eqn:Hc; [|done].
  assert (Hlen : (0 < length (currentScale sm))%nat).
  { rewrite HS. destruct (isInverted sm); simpl; lia. }
  pose proof (floor_index rnd _ Hrnd Hlen) as Hidx.
  destruct (lookup_lt_is_Some_2 _ _ Hidx) as [m Hm].
  assert (Hin : m ∈ currentScale sm) by (eapply list_elem_of_lookup_2; exact Hm).
  unfold playNote. rewrite Hc. eexists _, m. simpl. rewrite Hm. simpl.
  split; [reflexivity|]. split; [reflexivity|].
  rewrite HS in Hin. split; [exact Hin|]. split; [|done].
  destruct scales_in_range as [Hd Hi].
  destruct (isInverted sm);
    [rewrite Forall_forall in Hi; apply Hi, Hin
    |rewrite Forall_forall in Hd; apply Hd, Hin].
Qed.

Lemma playNote_picks_a_note_of_the_current_scale_witness :
  let sm := run [Init (Constructed 0 running); SetInverted true] constructor in
  exists v m,
    voices (playNote 0.5 sm) = v :: voices sm
    /\ midiNote v = Some m
    /\ m ∈ scaleInverted
    /\ (48 <= m <= 81)%Z
    /\ freq v = Some (440 * Rpower 2 ((IZR m - 69) / 12))
    /\ oscType v = sawtooth.
Proof.
  intros sm.
  apply (playNote_picks_a_note_of_the_current_scale
           [Init (Constructed 0 running); SetInverted true] 0.5).
  - lra.
  - discriminate.
Defined.

(** *** The spacing of the notes *)








(** *** Voices are released *)

Lemma fireAll_drains (n : nat) (sm : t) :
  length (timeouts sm) = n ->
  timeouts (run (fireAll n) sm) = []
  /\ activeVoices (run (fireAll n) sm) = (activeVoices sm - Z.of_nat n)%Z
  /\ voices (run (fireAll n) sm) = voices sm
  /\ lastNoteTime (run (fireAll n) sm) = lastNoteTime sm.
Proof.
  revert sm. induction n as [|n IH]; intros sm Hlen.
  - simpl. destruct (timeouts sm); [|done]. repeat split; try done. lia.
  - destruct (timeouts sm) as [|d tm] eqn:Htm; [done|].
    change (run (fireAll (S n)) sm)
      with (run (fireAll n) (timeoutCallback 0 sm)).
    assert (Hcb : timeouts (timeoutCallback 0 sm) = tm
                  /\ activeVoices (timeoutCallback 0 sm)
                     = (activeVoices sm - 1)%Z
                  /\ voices (timeoutCallback 0 sm) = voices sm
                  /\ lastNoteTime (timeoutCallback 0 sm) = lastNoteTime sm).
    { unfold timeoutCallback. rewrite Htm. simpl. done. }
    destruct Hcb as (Hc1 & Hc2 & Hc3 & Hc4).
    destruct (IH (timeoutCallback 0 sm)) as (H1 & H2 & H3 & H4).
    { rewrite Hc1. simpl in Hlen. lia. }
    rewrite H1, H2, H3, H4, Hc2, Hc3, Hc4. repeat split; try done. lia.
Qed.

(** X7.  No voice is leaked: in every state reached from the constructor,
    once the timers that are pending have all run, [activeVoices] is back
    at [0] and no timer is left, while the record of the notes and
    [lastNoteTime] are as before. *)
Theorem activeVoices_returns_to_zero (es : list event) :
  let sm := run es constructor in
  let sm' := run (fireAll (length (timeouts sm))) sm in
  activeVoices sm' = 0%Z
  /\ timeouts sm' = []
  /\ voices sm' = voices sm
  /\ lastNoteTime sm' = lastNoteTime sm.
Proof.
  intros sm sm'.
  pose proof (Inv_run es constructor Inv_constructor) as (_ & _ & Hact & _).
  fold sm in Hact.
  destruct (fireAll_drains (length (timeouts sm)) sm eq_refl)
    as (H1 & H2 & H3 & H4).
  fold sm' in H1, H2, H3, H4. repeat split; try done. lia.
Qed.

(** *** createImpulseResponse *)

Lemma impulse_left (length : nat) (decay : R) (rand : nat -> R) (n : nat)
    (b : ImpulseResponse) :
  ir_left (for_range n (impulseBody length decay rand) b)
  = for_range n
      (fun i acc =>
         store acc i
           ((rand (2 * i)%nat * 2 - 1)
            * Rpower (1 - INR i / INR length) decay))
      (ir_left b).
Proof.
  induction n as [|n IH]; [done|].
  rewrite !for_range_S. simpl. rewrite IH. done.
Qed.

Lemma impulse_right (length : nat) (decay : R) (rand : nat -> R) (n : nat)
    (b : ImpulseResponse) :
  ir_right (for_range n (impulseBody length decay rand) b)
  = for_range n
      (fun i acc =>
         store acc i
           ((rand (2 * i + 1)%nat * 2 - 1)
            * Rpower (1 - INR i / INR length) decay))
      (ir_right b).
Proof.
  induction n as [|n IH]; [done|].
  rewrite !for_range_S. simpl. rewrite IH. done.
Qed.

(** The fade-out factor of sample [i]: positive, at most [1], and not
    growing with [i]. *)
Lemma envelope_bounds (length i j : nat) (decay : R) :
  0 <= decay -> (i <= j)%nat -> (j < length)%nat ->
  0 < Rpower (1 - INR j / INR length) decay
  /\ Rpower (1 - INR j / INR length) decay
     <= Rpower (1 - INR i / INR length) decay
  /\ Rpower (1 - INR i / INR length) decay <= 1.
Proof.
  intros Hd Hij Hj.
  assert (Hlen : 0 < INR length) by (apply lt_0_INR; lia).
  assert (Hi0 : 0 <= INR i) by apply pos_INR.
  assert (Hij' : INR i <= INR j) by (apply le_INR; exact Hij).
  assert (Hj' : INR j < INR length) by (apply lt_INR; exact Hj).
  assert (Hbase : forall a, 0 <= a -> a < INR length ->
            0 < 1 - a / INR length <= 1).
  { intros a Ha0 Ha1. split.
    - apply Rlt_0_minus. apply (Rmult_lt_reg_r (INR length)); [lra|].
      unfold Rdiv. rewrite Rmult_assoc, Rinv_l by lra. lra.
    - assert (0 <= a / INR length)
        by (apply Rmult_le_pos; [lra|]; left; apply Rinv_0_lt_compat; lra).
      lra. }
  assert (Hmono : 1 - INR j / INR length <= 1 - INR i / INR length).
  { apply Rplus_le_compat_l, Ropp_le_contravar.
    apply Rmult_le_compat_r; [|exact Hij'].
    left. apply Rinv_0_lt_compat. lra. }
  split; [unfold Rpower; apply exp_pos|]. split.
  - apply Rle_Rpower_l; [exact Hd|]. split; [|exact Hmono].
    apply Hbase; lra.
  - assert (H1 : Rpower 1 decay = 1)
      by (unfold Rpower; rewrite ln_1, Rmult_0_r; apply exp_0).
    apply Rle_trans with (Rpower 1 decay); [|rewrite H1; lra].
    apply Rle_Rpower_l; [exact Hd|]. apply Hbase; lra.
Qed.

(** X8.  [createImpulseResponse] fills both channels completely, and
    every sample stays inside the fading envelope: sample [i] is a random
    value in [[-1, 1)] times [(1 - i/length)^decay], an envelope that is
    positive, starts at [1] for the first sample and never grows along the
    buffer (for [decay >= 0]).  So no sample exceeds [1] in magnitude. *)
Theorem impulse_response_stays_inside_its_envelope (length : nat)
    (decay : R) (rand : nat -> R) (i j : nat) :
  (forall k, 0 <= rand k < 1) -> 0 <= decay ->
  (i <= j)%nat -> (j < length)%nat ->
  let b := createImpulseResponse length decay rand in
  let env k := Rpower (1 - INR k / INR length) decay in
  Datatypes.length (ir_left b) = length
  /\ Datatypes.length (ir_right b) = length
  /\ get (ir_left b) j = (rand (2 * j)%nat * 2 - 1) * env j
  /\ get (ir_right b) j = (rand (2 * j + 1)%nat * 2 - 1) * env j
  /\ 0 < env j <= env i
  /\ env i <= 1
  /\ env 0%nat = 1
  /\ Rabs (get (ir_left b) j) <= env j
  /\ Rabs (get (ir_right b) j) <= env j.
Proof.
  intros Hrand Hd Hij Hj b env.
  destruct (envelope_bounds length i j decay Hd Hij Hj) as (Hpos & Hmono & Hle1).
  assert (HL : get (ir_left b) j = (rand (2 * j)%nat * 2 - 1) * env j).
  { unfold b, createImpulseResponse. rewrite impulse_left. simpl.
    rewrite get_for_range_store_lt; [done|exact Hj|].
    rewrite length_replicate. exact Hj. }
  assert (HR : get (ir_right b) j = (rand (2 * j + 1)%nat * 2 - 1) * env j).
  { unfold b, createImpulseResponse. rewrite impulse_right. simpl.
    rewrite get_for_range_store_lt; [done|exact Hj|].
    rewrite length_replicate. exact Hj. }
  assert (Habs : forall r, 0 <= r < 1 -> Rabs ((r * 2 - 1) * env j) <= env j).
  { intros r Hr. rewrite Rabs_mult, (Rabs_pos_eq (env j)) by (unfold env; lra).
    assert (Rabs (r * 2 - 1) <= 1) by (apply Rabs_le; lra).
    unfold env in *. nra. }
  split.
  { unfold b, createImpulseResponse. rewrite impulse_left.
    rewrite length_for_range_store. simpl. apply length_replicate. }
  split.
  { unfold b, createImpulseResponse. rewrite impulse_right.
    rewrite length_for_range_store. simpl. apply length_replicate. }
  split; [exact HL|]. split; [exact HR|].
  split; [unfold env; split; assumption|]. split; [exact Hle1|]. split.
  - unfold env. simpl. unfold Rdiv. rewrite Rmult_0_l, Rminus_0_r.
    unfold Rpower. rewrite ln_1, Rmult_0_r. apply exp_0.
  - split; [rewrite HL|rewrite HR]; apply Habs, Hrand.
Qed.

Lemma impulse_response_stays_inside_its_envelope_witness :
  let b := createImpulseResponse 4 2 (fun _ => 0.25) in
  get (ir_left b) 1 = (0.25 * 2 - 1) * Rpower (1 - INR 1 / INR 4) 2
  /\ Rabs (get (ir_left b) 1) <= Rpower (1 - INR 1 / INR 4) 2.
Proof.
  intros b.
  destruct (impulse_response_stays_inside_its_envelope
              4 2 (fun _ => 0.25) 0 1)
    as (_ & _ & HL & _ & _ & _ & _ & Habs & _); try lia; try lra.
  - intros k. lra.
  - split; [exact HL | exact Habs].
Defined.

End SoundManagerExtra.

(** ** ParticleSimulation: further properties *)

Module ParticleSimulationExtra.
Import ParticleSimulation ParticleSimulationSpec.

(** *** What updateParticles leaves alone *)

Lemma particles_ext (n : nat) (a b : Float32Array) :
  length a = (n * 3)%nat -> length b = (n * 3)%nat ->
  (forall i, (i < n)%nat -> particle a i = particle b i) ->
  a = b.
Proof.
  intros Ha Hb H. apply Float32Array_ext; [congruence|].
  intros j Hj. rewrite Ha in Hj.
  assert (Hi : (j / 3 < n)%nat) by (apply Nat.Div0.div_lt_upper_bound; lia).
  specialize (H _ Hi). unfold particle in H. inversion H as [[H0 H1 H2]].
  pose proof (Nat.div_mod_eq j 3) as Hdm.
  pose proof (Nat.mod_upper_bound j 3 ltac:(lia)) as Hm.
  destruct (j mod 3) as [|[|[|k]]] eqn:Hk; try lia.
  - replace j with (j / 3 * 3)%nat by lia. exact H0.
  - replace j with (j / 3 * 3 + 1)%nat by lia. exact H1.
  - replace j with (j / 3 * 3 + 2)%nat by lia. exact H2.
Qed.

Lemma particleLoop_lengths (time : R) (mousePos : Vector3) (s : t) :
  wf s ->
  length (l_positions (particleLoop time mousePos s)) = length (positions s)
  /\ length (l_velocities (particleLoop time mousePos s))
     = length (velocities s).
Proof.
  intros (Hp & Ho & Hv & _). unfold particleLoop.
  destruct (particleLoop_prefix (config s) (isMouseDown s) time mousePos
              (originalPositions s) (positions s) (velocities s) 0
              (particleCount (config s)))
    as (H1 & H2 & _); [lia|lia|]. split; assumption.
Qed.

Lemma updateParticles_frame (time : R) (mousePos : Vector3)
    (rnd rndNote : R) (s : t) :
  let s' := state_of (updateParticles time mousePos rnd rndNote s) in
  config s' = config s
  /\ isMouseDown s' = isMouseDown s
  /\ currentShape s' = currentShape s
  /\ shapes s' = shapes s
  /\ isFrozen s' = isFrozen s
  /\ isInverted s' = isInverted s
  /\ originalPositions s' = originalPositions s
  /\ rotation_y s' = rotation_y s
  /\ uTime s' = uTime s.
Proof.
  unfold updateParticles.
  destruct (audioTrigger _ _);
    [destruct (SoundManager.triggerInteractionSound _ _ _)|];
    simpl; repeat split; done.
Qed.

Lemma wf_updateParticles (time : R) (mousePos : Vector3) (rnd rndNote : R)
    (s : t) :
  wf s -> wf (state_of (updateParticles time mousePos rnd rndNote s)).
Proof.
  intros Hwf. pose proof Hwf as (Hp & Ho & Hv & Hs).
  destruct (updateParticles_buffers time mousePos rnd rndNote s)
    as (Hpos & Hvel & Horig).
  destruct (updateParticles_frame time mousePos rnd rndNote s)
    as (Hcfg & _ & _ & Hsh & _).
  destruct (particleLoop_lengths time mousePos s Hwf) as (Hlp & Hlv).
  unfold wf. rewrite Hpos, Hvel, Horig, Hcfg, Hsh, Hlp, Hlv. done.
Qed.





(** *** Velocity and step *)

(** X10.  After [updateParticles] the velocity stored for a particle is
    the step its position has just taken, multiplied by [damping]. *)
Theorem velocity_is_the_damped_step (time : R) (mousePos : Vector3)
    (rnd rndNote : R) (s : t) (i : nat) :
  wf s -> (i < particleCount (config s))%nat ->
  let s' := state_of (updateParticles time mousePos rnd rndNote s) in
  particle (velocities s') i
  = vscale (vsub (particle (positions s') i) (particle (positions s) i))
      (damping (config s)).
Proof.
  intros Hwf Hi s'.
  destruct (updateParticles_particle time mousePos rnd rndNote s i Hwf Hi)
    as (Hp & Hv & _).
  unfold s'. rewrite Hp, Hv. unfold vscale, vsub, vadd. simpl.
  f_equal; ring.
Qed.

Lemma velocity_is_the_damped_step_witness :
  let s' := state_of (updateParticles 0 origin 0 0 oneParticle) in
  particle (velocities s') 0
  = vscale (vsub (particle (positions s') 0) {| vx := 12; vy := 1; vz := 0 |})
      0.96.
Proof.
  intros s'.
  apply (velocity_is_the_damped_step 0 origin 0 0 oneParticle 0%nat
           wf_oneParticle).
  simpl. lia.
Defined.

(** *** Rest *)

Lemma displacementOf_self (p : Vector3) : displacementOf p p = 0.
Proof.
  unfold displacementOf, norm, vsub. simpl.
  replace ((vx p - vx p) * (vx p - vx p) + (vy p - vy p) * (vy p - vy p)
           + (vz p - vz p) * (vz p - vz p)) with 0 by ring.
  apply sqrt_0.
Qed.

Lemma interactionTerm_out_of_reach (cfg : Config) (isMouseDown : bool)
    (mousePos p : Vector3) :
  distOf p mousePos = 0 \/ mouseRadius cfg <= distOf p mousePos ->
  interactionTerm cfg isMouseDown mousePos p = vzero.
Proof.
  intros H. unfold interactionTerm.
  rewrite inReach_false; [done|]. destruct H; [left; lra|right; done].
Qed.

(** X11.  Rest is a fixed point when the jitter is off: if every particle
    sits on its origin with zero velocity, [noiseAmount] is not positive,
    and for every particle the pointer force is zero or the pointer is on
    the particle or at least [mouseRadius] away, then [updateParticles]
    leaves the position and velocity buffers exactly as they are.  (The
    wind does not move a particle that is on its origin.) *)
Theorem rest_is_a_fixed_point_without_jitter (time : R)
    (mousePos : Vector3) (rnd rndNote : R) (s : t) :
  wf s ->
  noiseAmount (config s) <= 0 ->
  (forall i, (i < particleCount (config s))%nat ->
     particle (positions s) i = particle (originalPositions s) i
     /\ particle (velocities s) i = vzero
     /\ (mouseForce (config s) = 0
         \/ distOf (particle (positions s) i) mousePos = 0
         \/ mouseRadius (config s) <= distOf (particle (positions s) i) mousePos)) ->
  let s' := state_of (updateParticles time mousePos rnd rndNote s) in
  positions s' = positions s /\ velocities s' = velocities s.
Proof.
  intros Hwf Hna Hrest s'. pose proof Hwf as (Hp & Ho & Hv & _).
  destruct (updateParticles_buffers time mousePos rnd rndNote s)
    as (Hpos & Hvel & _).
  destruct (particleLoop_lengths time mousePos s Hwf) as (Hlp & Hlv).
  assert (Hkick : forall i, (i < particleCount (config s))%nat ->
            kickOf s time mousePos i = vzero).
  { intros i Hi. destruct (Hrest i Hi) as (Hpo & Hv0 & Hptr).
    unfold kickOf, kick. rewrite Hv0, <- Hpo.
    rewrite windTerm_at_origin by apply displacementOf_self.
    rewrite returnTerm_near by (rewrite displacementOf_self; lra).
    rewrite jitterTerm_off by exact Hna.
    replace (interactionTerm (config s) (isMouseDown s) mousePos
               (particle (positions s) i)) with vzero.
    - unfold vadd, vzero. simpl. f_equal; ring.
    - symmetry. destruct Hptr as [H0|Hout].
      + apply interactionTerm_no_force. exact H0.
      + apply interactionTerm_out_of_reach. exact Hout. }
  split.
  - apply (particles_ext (particleCount (config s))); try done.
    { unfold s'. rewrite Hpos, Hlp. exact Hp. }
    intros i Hi.
    destruct (updateParticles_particle time mousePos rnd rndNote s i Hwf Hi)
      as (Hpi & _ & _).
    fold s' in Hpi. rewrite Hpi, (Hkick i Hi).
    unfold vadd, vzero, particle. simpl. f_equal; ring.
  - apply (particles_ext (particleCount (config s))); try done.
    { unfold s'. rewrite Hvel, Hlv. exact Hv. }
    intros i Hi.
    destruct (updateParticles_particle time mousePos rnd rndNote s i Hwf Hi)
      as (_ & Hvi & _).
    fold s' in Hvi. rewrite Hvi, (Hkick i Hi).
    destruct (Hrest i Hi) as (_ & -> & _).
    unfold vscale, vzero. simpl. f_equal; ring.
Qed.

Lemma rest_is_a_fixed_point_without_jitter_witness :
  let s :=
    {| config :=
         {| particleCount := 1; mouseRadius := 150; mouseForce := 1.0;
            returnSpeed := 0.0009; rotationSpeed := 0.003; noiseAmount := 0;
            windStrength := 0.09; windTurbulence := 0.2; damping := 0.96 |};
       isMouseDown := true;
       soundManager := SoundManager.constructor;
       currentShape := sphere;
       shapes := fun _ => [200; 0; 0];
       isTransforming := false;
       cooldown := 0;
       isFrozen := false;
       isInverted := false;
       positions := [200; 0; 0];
       originalPositions := [200; 0; 0];
       velocities := [0; 0; 0];
       rotation_y := 0;
       uTime := 0 |} in
  let s' := state_of (updateParticles 3 origin 0.1 0.5 s) in
  positions s' = [200; 0; 0] /\ velocities s' = [0; 0; 0].
Proof.
  intros s s'.
  apply (rest_is_a_fixed_point_without_jitter 3 origin 0.1 0.5 s).
  - unfold wf. simpl. repeat split; done.
  - simpl. lra.
  - intros i Hi. simpl in Hi. assert (i = 0%nat) as -> by lia.
    split; [reflexivity|]. split; [reflexivity|].
    right. right. unfold distOf, norm, vsub, particle, get, origin. simpl.
    replace ((200 - 0) * (200 - 0) + (0 - 0) * (0 - 0) + (0 - 0) * (0 - 0))
      with (200 * 200) by ring.
    rewrite sqrt_square; lra.
Defined.

(** *** The direction and size of the pointer force *)

(** X12.  The pointer only pushes away.  For a particle in reach
    ([0 < d < mouseRadius]) the velocity that the interaction block adds
    has the radial component [f * d] when measured against the vector
    from the pointer to the particle: the swirl adds nothing along that
    vector.  With a non-negative [mouseForce] the magnitude
    [f = (1 - d/mouseRadius)^2 * mouseForce * (2.5 if pressed else 1)]
    lies between [0] and [mouseForce * (2.5 if pressed else 1)]. *)
Theorem pointer_force_points_away_and_is_bounded (cfg : Config)
    (isMouseDown : bool) (mousePos p : Vector3) (i : nat)
    (velocities : Float32Array) (total : R) :
  (i * 3 + 2 < length velocities)%nat ->
  let d := distOf p mousePos in
  0 < d < mouseRadius cfg ->
  let fmax := mouseForce cfg * (if isMouseDown then 2.5 else 1) in
  let f := (1 - d / mouseRadius cfg) ^ 2 * fmax in
  let velocities' :=
    (interactionBlock (mouseRadius cfg) fmax mousePos (i * 3)
       (vx p) (vy p) (vz p) velocities total).1 in
  let added := vsub (particle velocities' i) (particle velocities i) in
  let away := vsub p mousePos in
  vx added * vx away + vy added * vy away + vz added * vz away = f * d
  /\ (0 <= mouseForce cfg -> 0 <= f <= fmax).
Proof.
  intros Hlen d Hd fmax f velocities' added away.
  destruct (interactionBlock_Adds cfg isMouseDown mousePos i p velocities total)
    as (HA & _).
  pose proof (Adds_particle _ _ _ _ HA Hlen) as Hpart.
  fold fmax in Hpart. fold velocities' in Hpart.
  assert (Hadded : added = interactionTerm cfg isMouseDown mousePos p).
  { unfold added. rewrite Hpart. unfold vsub, vadd. simpl.
    destruct (interactionTerm cfg isMouseDown mousePos p). simpl.
    f_equal; ring. }
  assert (Hsq : vx away * vx away + vy away * vy away + vz away * vz away
                = d * d).
  { unfold d, distOf, norm. fold away. symmetry. apply sqrt_sqrt. nra. }
  assert (Hf : forceOf cfg isMouseDown d = f).
  { unfold forceOf, f, fmax. ring. }
  split.
  - rewrite Hadded. unfold interactionTerm. fold d away.
    rewrite inReach_true by exact Hd. rewrite Hf. simpl.
    unfold away in Hsq. simpl in Hsq.
    set (dx := vx p - vx mousePos) in *.
    set (dy := vy p - vy mousePos) in *.
    set (dz := vz p - vz mousePos) in *.
    replace ((dx / d * f + - dy * 0.3 * f * 0.2) * dx
             + (dy / d * f + dx * 0.3 * f * 0.2) * dy + dz / d * f * dz)
      with (f / d * (dx * dx + dy * dy + dz * dz)) by (field; lra).
    rewrite Hsq. field. lra.
  - intros Hmf.
    assert (Hratio : 0 < d / mouseRadius cfg < 1).
    { split.
      - apply Rdiv_lt_0_compat; lra.
      - apply (Rmult_lt_reg_r (mouseRadius cfg)); [lra|].
        unfold Rdiv. rewrite Rmult_assoc, Rinv_l by lra. lra. }
    assert (Hfmax : 0 <= fmax).
    { unfold fmax. destruct isMouseDown; nra. }
    unfold f. set (q := d / mouseRadius cfg) in *.
    assert (0 <= (1 - q) ^ 2 <= 1) by nra.
    nra.
Qed.

Lemma pointer_force_points_away_and_is_bounded_witness :
  let cfg := config oneParticle in
  let p := {| vx := 12; vy := 1; vz := 0 |} in
  let mousePos := {| vx := 0; vy := 1; vz := 0 |} in
  let f := (1 - distOf p mousePos / 150) ^ 2 * (1.0 * 1) in
  0 <= f <= 1.0 * 1.
Proof.
  intros cfg p mousePos f.
  destruct (pointer_force_points_away_and_is_bounded
              cfg false mousePos p 0 [1; 0; 2] 0) as (_ & Hb).
  - simpl. lia.
  - unfold distOf, norm, vsub, p, mousePos. simpl.
    replace ((12 - 0) * (12 - 0) + (1 - 1) * (1 - 1) + (0 - 0) * (0 - 0))
      with (12 * 12) by ring.
    rewrite sqrt_square; lra.
  - apply Hb. simpl. lra.
Defined.

(** *** The size of the interaction energy *)

Lemma sum_range_bounds (n : nat) (f : nat -> R) (c : R) :
  (forall i, (i < n)%nat -> 0 <= f i <= c) ->
  0 <= sum_range n f <= INR n * c.
Proof.
  induction n as [|n IH]; intros H.
  - unfold sum_range. rewrite for_range_0. simpl. lra.
  - rewrite sum_range_S, S_INR.
    destruct IH as [IH0 IH1]; [intros; apply H; lia|].
    destruct (H n) as [H0 H1]; [lia|]. lra.
Qed.

Lemma energyTerm_bounds (cfg : Config) (isMouseDown : bool)
    (mousePos p : Vector3) :
  0 <= mouseForce cfg -> 0 < mouseRadius cfg ->
  0 <= energyTerm cfg isMouseDown mousePos p
    <= mouseForce cfg * (if isMouseDown then 2.5 else 1).
Proof.
  intros Hmf Hr.
  assert (Hfmax : 0 <= mouseForce cfg * (if isMouseDown then 2.5 else 1))
    by (destruct isMouseDown; nra).
  unfold energyTerm, inReach.
  destruct (Rltb (distOf p mousePos) (mouseRadius cfg)) eqn:H1; simpl; [|lra].
  destruct (Rltb 0 (distOf p mousePos)) eqn:H0; simpl; [|lra].
  apply Rltb_true in H0, H1.
  destruct (Rltb 0.1 _) eqn:Hf; [|lra].
  unfold forceOf. set (d := distOf p mousePos) in *.
  assert (Hratio : 0 < d / mouseRadius cfg < 1).
  { split.
    - apply Rdiv_lt_0_compat; lra.
    - apply (Rmult_lt_reg_r (mouseRadius cfg)); [lra|].
      unfold Rdiv. rewrite Rmult_assoc, Rinv_l by lra. lra. }
  set (q := d / mouseRadius cfg) in *.
  set (fmax := mouseForce cfg * (if isMouseDown then 2.5 else 1)) in *.
  assert (0 <= (1 - q) * (1 - q) <= 1) by nra.
  nra.
Qed.

(** X13.  With a non-negative [mouseForce] and a positive [mouseRadius],
    the interaction energy of a frame lies between [0] and
    [particleCount * mouseForce * (2.5 if pressed else 1)].  So a
    simulation in which that product is at most [5.0] never calls the
    sound manager from [updateParticles], whatever the random draw: with
    the default [mouseForce = 1], a simulation of one or two particles is
    always silent. *)
Theorem interaction_energy_is_bounded_by_particle_count (time : R)
    (mousePos : Vector3) (rnd rndNote : R) (s : t) :
  wf s ->
  0 <= mouseForce (config s) -> 0 < mouseRadius (config s) ->
  let E := totalInteractionForce (particleLoop time mousePos s) in
  let fmax := mouseForce (config s) * (if isMouseDown s then 2.5 else 1) in
  0 <= E <= INR (particleCount (config s)) * fmax
  /\ (INR (particleCount (config s)) * fmax <= 5.0 ->
      audioTrigger E rnd = None
      /\ soundManager (state_of (updateParticles time mousePos rnd rndNote s))
         = soundManager s).
Proof.
  intros Hwf Hmf Hr E fmax.
  assert (HE : 0 <= E <= INR (particleCount (config s)) * fmax).
  { unfold E. rewrite particleLoop_energy by exact Hwf.
    apply sum_range_bounds. intros i _. apply energyTerm_bounds; done. }
  split; [exact HE|]. intros Hfew.
  assert (Hnone : audioTrigger E rnd = None)
    by (apply audioTrigger_None; left; lra).
  split; [exact Hnone|].
  rewrite updateParticles_soundManager. fold E. rewrite Hnone. done.
Qed.

Lemma interaction_energy_is_bounded_by_particle_count_witness :
  let E := totalInteractionForce (particleLoop 0 origin oneParticle) in
  0 <= E <= INR 1 * (1.0 * 1) /\ audioTrigger E 0 = None.
Proof.
  intros E.
  destruct (interaction_energy_is_bounded_by_particle_count
              0 origin 0 0 oneParticle wf_oneParticle) as (Hb & Hsilent).
  - simpl. lra.
  - simpl. lra.
  - split; [exact Hb|]. apply Hsilent. simpl. lra.
Defined.

(** *** Morphing *)

Lemma wf_toggleShape (s : t) : wf s -> wf (toggleShape s).
Proof.
  intros (Hp & Ho & Hv & Hs). unfold wf, toggleShape. simpl.
  rewrite length_for_range_store. done.
Qed.

Lemma toggleShape_originalPositions (s : t) :
  wf s ->
  originalPositions (toggleShape s) = shapes s (nextShape (currentShape s)).
Proof.
  intros (Hp & Ho & Hv & Hs).
  rewrite <- toggleShape_currentShape. unfold toggleShape at 1. simpl.
  apply for_range_store_copy; [apply Hs|exact Ho].
Qed.

(** X14.  Three morphs come full circle: after three calls of
    [toggleShape] the current shape is the one it was, the origin buffer
    holds the point cloud of that shape, and positions, velocities and the
    shape clouds are untouched; the buffers keep their length
    throughout. *)
Theorem three_morphs_come_full_circle (s : t) :
  wf s ->
  let s3 := toggleShape (toggleShape (toggleShape s)) in
  currentShape s3 = currentShape s
  /\ originalPositions s3 = shapes s (currentShape s)
  /\ positions s3 = positions s
  /\ velocities s3 = velocities s
  /\ shapes s3 = shapes s
  /\ wf s3.
Proof.
  intros Hwf s3.
  pose proof (wf_toggleShape s Hwf) as Hwf1.
  pose proof (wf_toggleShape _ Hwf1) as Hwf2.
  pose proof (wf_toggleShape _ Hwf2) as Hwf3.
  assert (Hcur : currentShape s3 = currentShape s).
  { unfold s3. rewrite !toggleShape_currentShape.
    destruct (currentShape s); reflexivity. }
  split; [exact Hcur|]. split.
  - unfold s3. rewrite toggleShape_originalPositions by exact Hwf2.
    rewrite !toggleShape_currentShape.
    change (shapes (toggleShape (toggleShape s))) with (shapes s).
    destruct (currentShape s); reflexivity.
  - repeat split; try reflexivity; apply Hwf3.
Qed.

Lemma three_morphs_come_full_circle_witness :
  let s3 := toggleShape (toggleShape (toggleShape oneParticle)) in
  currentShape s3 = sphere /\ originalPositions s3 = [10; 0; 0].
Proof.
  intros s3.
  destruct (three_morphs_come_full_circle oneParticle wf_oneParticle)
    as (Hc & Ho & _).
  split; [exact Hc | exact Ho].
Defined.

(** X15.  A reset after a morph snaps the particles onto the new shape:
    [resetParticles] applied to the result of [toggleShape] leaves the
    position buffer equal to the point cloud of the next shape, with all
    velocities zero. *)
Theorem reset_after_morph_snaps_to_the_new_shape (s : t) :
  wf s ->
  let s' := resetParticles (toggleShape s) in
  positions s' = shapes s (nextShape (currentShape s))
  /\ (forall j, get (velocities s') j = 0)
  /\ currentShape s' = nextShape (currentShape s).
Proof.
  intros Hwf s'. pose proof (wf_toggleShape s Hwf) as (Hp & Ho & Hv & Hs).
  split; [|split].
  - unfold s'. rewrite resetParticles_positions.
    rewrite for_range_store_copy by done.
    apply toggleShape_originalPositions. exact Hwf.
  - intros j. unfold s'. rewrite resetParticles_velocities.
    destruct (le_lt_dec (particleCount (config (toggleShape s)) * 3) j)
      as [Hge|Hlt].
    + rewrite get_for_range_store_ge by done. apply get_beyond. lia.
    + apply get_for_range_store_lt; lia.
  - apply toggleShape_currentShape.
Qed.

Lemma reset_after_morph_snaps_to_the_new_shape_witness :
  positions (resetParticles (toggleShape oneParticle)) = [0; 20; 0].
Proof.
  destruct (reset_after_morph_snaps_to_the_new_shape oneParticle
              wf_oneParticle) as (Hp & _).
  exact Hp.
Defined.

(** *** The noise field *)

Lemma Int_part_0 : Int_part 0 = 0%Z.
Proof.
  destruct (base_Int_part 0) as [Hle Hgt].
  assert ((-1 < Int_part 0)%Z) by (apply lt_IZR; lra).
  assert ((Int_part 0 < 1)%Z) by (apply lt_IZR; lra).
  lia.
Qed.

Lemma trunc_opp (x : R) : trunc (- x) = (- trunc x)%Z.
Proof.
  unfold trunc.
  destruct (Rle_dec 0 x) as [Hx|Hx]; destruct (Rle_dec 0 (- x)) as [Hn|Hn].
  - assert (x = 0) as -> by lra. rewrite Ropp_0, Int_part_0. done.
  - rewrite Ropp_involutive. done.
  - rewrite Z.opp_involutive. done.
  - lra.
Qed.

(** X26.  The noise field is odd: mirroring the point through the origin
    flips the sign of the sample, [noise3D(-x, -y, -z) = -noise3D(x, y, z)];
    so the sample at the origin is exactly [0].  The sample always has the
    sign of [sin(x * 12.9898 + y * 78.233 + z * 37.719)]. *)
Theorem noise3D_is_odd (x y z : R) :
  noise3D (- x) (- y) (- z) = - noise3D x y z
  /\ noise3D 0 0 0 = 0
  /\ (0 <= sin (x * 12.9898 + y * 78.233 + z * 37.719) ->
      0 <= noise3D x y z)
  /\ (sin (x * 12.9898 + y * 78.233 + z * 37.719) <= 0 ->
      noise3D x y z <= 0).
Proof.
  assert (Hodd : forall a b c, noise3D (- a) (- b) (- c) = - noise3D a b c).
  { intros a b c. unfold noise3D, js_rem.
    replace (- a * 12.9898 + - b * 78.233 + - c * 37.719)
      with (- (a * 12.9898 + b * 78.233 + c * 37.719)) by ring.
    rewrite sin_neg.
    replace (- sin (a * 12.9898 + b * 78.233 + c * 37.719) * 43758.5453 / 1)
      with (- (sin (a * 12.9898 + b * 78.233 + c * 37.719) * 43758.5453 / 1))
      by field.
    rewrite trunc_opp, opp_IZR. ring. }
  split; [apply Hodd|]. split.
  - pose proof (Hodd 0 0 0) as H0. rewrite Ropp_0 in H0. lra.
  - unfold noise3D.
    set (d := x * 12.9898 + y * 78.233 + z * 37.719).
    destruct (js_rem_1_bounds (sin d * 43758.5453)) as (_ & Hpos & Hneg).
    split; intros Hs; [apply Hpos|apply Hneg]; nra.
Qed.

Lemma noise3D_is_odd_witness :
  noise3D (- 1) (- 2) (- 3) = - noise3D 1 2 3 /\ 0 <= noise3D 0 0 0.
Proof.
  destruct (noise3D_is_odd 1 2 3) as (Hodd & _).
  destruct (noise3D_is_odd 0 0 0) as (_ & _ & Hpos & _).
  split; [exact Hodd|]. apply Hpos.
  replace (0 * 12.9898 + 0 * 78.233 + 0 * 37.719) with 0 by ring.
  rewrite sin_0. lra.
Defined.

(** *** Shape clouds *)

Lemma length_store3 (a : Float32Array) (i : nat) (v : Vector3) :
  length (store3 a i v) = length a.
Proof. unfold store3. rewrite !length_store. done. Qed.

Lemma get_store3_other (a : Float32Array) (i j : nat) (v : Vector3) :
  j <> (i * 3)%nat -> j <> (i * 3 + 1)%nat -> j <> (i * 3 + 2)%nat ->
  get (store3 a i v) j = get a j.
Proof.
  intros H0 H1 H2. unfold store3. rewrite !get_store_ne by lia. done.
Qed.

Lemma particle_store3 (a : Float32Array) (i : nat) (v : Vector3) :
  (i * 3 + 2 < length a)%nat -> particle (store3 a i v) i = v.
Proof.
  intros Hlen. unfold particle, store3. destruct v as [x y z]. simpl.
  f_equal.
  - rewrite !get_store_ne by lia. apply get_store_eq. lia.
  - rewrite get_store_ne by lia. apply get_store_eq.
    rewrite length_store. lia.
  - apply get_store_eq. rewrite !length_store. lia.
Qed.

Lemma particle_store3_other (a : Float32Array) (i j : nat) (v : Vector3) :
  i <> j -> particle (store3 a i v) j = particle a j.
Proof.
  intros Hij. unfold particle. rewrite !get_store3_other by lia. done.
Qed.

(** A loop that writes the point [f i] for every particle [i < n]. *)
Lemma for_range_store3 (n : nat) (f : nat -> Vector3) (a : Float32Array) :
  length (for_range n (fun i acc => store3 acc i (f i)) a) = length a
  /\ (forall j, (n * 3 <= j)%nat ->
        get (for_range n (fun i acc => store3 acc i (f i)) a) j = get a j)
  /\ ((n * 3 <= length a)%nat ->
      forall i, (i < n)%nat ->
        particle (for_range n (fun i acc => store3 acc i (f i)) a) i = f i).
Proof.
  induction n as [|n (IHl & IHo & IHp)]; [repeat split; try done; lia|].
  rewrite for_range_S. split; [|split].
  - rewrite length_store3. exact IHl.
  - intros j Hj. rewrite get_store3_other by lia. apply IHo. lia.
  - intros Hlen i Hi. destruct (decide (i = n)) as [->|Hne].
    + apply particle_store3. rewrite IHl. lia.
    + rewrite particle_store3_other by lia. apply IHp; lia.
Qed.

Lemma generateShapePositions_particle (count : nat) (rand : nat -> R)
    (target : Float32Array) (shapeType : Shape) (i : nat) :
  (count * 3 <= length target)%nat -> (i < count)%nat ->
  particle (generateShapePositions count rand target shapeType) i
  = shapePoint shapeType (rand (3 * i)%nat) (rand (3 * i + 1)%nat)
      (rand (3 * i + 2)%nat).
Proof.
  intros Hlen Hi. unfold generateShapePositions.
  destruct (for_range_store3 count
              (fun i => shapePoint shapeType (rand (3 * i)%nat)
                          (rand (3 * i + 1)%nat) (rand (3 * i + 2)%nat))
              target) as (_ & _ & Hp).
  apply Hp; done.
Qed.

Lemma length_generateShapePositions (count : nat) (rand : nat -> R)
    (target : Float32Array) (shapeType : Shape) :
  length (generateShapePositions count rand target shapeType) = length target.
Proof. unfold generateShapePositions. apply for_range_store3. Qed.

Lemma cbrt_unit (u : R) : 0 <= u < 1 -> 0 <= cbrt u < 1.
Proof.
  intros [H0 H1]. unfold cbrt.
  destruct (Rlt_dec 0 u) as [Hpos|Hnpos].
  - unfold Rpower. split; [left; apply exp_pos|].
    assert (Hln : ln u < 0) by (rewrite <- ln_1; apply ln_increasing; lra).
    assert (Hexp : exp (1 / 3 * ln u) < exp 0) by (apply exp_increasing; lra).
    rewrite exp_0 in Hexp. exact Hexp.
  - destruct (Rlt_dec u 0); lra.
Qed.

Lemma sphere_norm (phi theta r : R) :
  0 <= r ->
  norm {| vx := r * sin phi * cos theta;
          vy := r * sin phi * sin theta;
          vz := r * cos phi |} = r.
Proof.
  intros Hr. unfold norm. simpl.
  pose proof (sin2_cos2 phi) as Hp. pose proof (sin2_cos2 theta) as Ht.
  unfold Rsqr in Hp, Ht.
  replace (r * sin phi * cos theta * (r * sin phi * cos theta)
           + r * sin phi * sin theta * (r * sin phi * sin theta)
           + r * cos phi * (r * cos phi))
    with (r * r * (sin phi * sin phi
                   * (sin theta * sin theta + cos theta * cos theta)
                   + cos phi * cos phi)) by ring.
  rewrite Ht, Rmult_1_r, Hp, Rmult_1_r. apply sqrt_square. exact Hr.
Qed.

(** X16.  The sphere cloud fills the ball of radius 150: whatever values
    in [[0, 1)] [Math.random()] returns, every one of the [count] points
    that [generateShapePositions] writes for ['sphere'] lies at distance
    [150 * cbrt(u)] from the centre, [u] being the third random value of
    the particle; that is, at a distance of at least [0] and less than
    [150].  The array keeps its length. *)
Theorem sphere_points_lie_inside_radius_150 (count : nat)
    (rand : nat -> R) (target : Float32Array) (i : nat) :
  (forall k, 0 <= rand k < 1) ->
  (count * 3 <= length target)%nat -> (i < count)%nat ->
  let cloud := generateShapePositions count rand target sphere in
  length cloud = length target
  /\ norm (particle cloud i) = 150 * cbrt (rand (3 * i + 2)%nat)
  /\ 0 <= norm (particle cloud i) < 150.
Proof.
  intros Hrand Hlen Hi cloud.
  pose proof (cbrt_unit _ (Hrand (3 * i + 2)%nat)) as Hc.
  assert (Hn : norm (particle cloud i) = 150 * cbrt (rand (3 * i + 2)%nat)).
  { unfold cloud. rewrite generateShapePositions_particle by done.
    unfold shapePoint. apply sphere_norm. lra. }
  split; [apply length_generateShapePositions|]. split; [exact Hn|].
  rewrite Hn. lra.
Qed.

Lemma sphere_points_lie_inside_radius_150_witness :
  let cloud := generateShapePositions 2 (fun _ => 0.5) [0; 0; 0; 0; 0; 0] sphere in
  0 <= norm (particle cloud 1) < 150.
Proof.
  intros cloud.
  destruct (sphere_points_lie_inside_radius_150 2 (fun _ => 0.5)
              [0; 0; 0; 0; 0; 0] 1) as (_ & _ & Hb).
  - intros k. lra.
  - simpl. lia.
  - lia.
  - exact Hb.
Defined.

(** X17.  The cube cloud fills the cube of side 225 (from [-112.5] to
    [112.5] on every axis, the bound [112.5] itself excluded), and the
    pyramid cloud fills the pyramid with its tip at height [90] and its
    base, of half-width [90], at height [-90]: a pyramid point at height
    [y] has [-90 < y <= 90] and both horizontal coordinates within
    [45 - y/2] of the axis. *)
Theorem cube_and_pyramid_points_lie_inside_their_shapes (count : nat)
    (rand : nat -> R) (target : Float32Array) (i : nat) :
  (forall k, 0 <= rand k < 1) ->
  (count * 3 <= length target)%nat -> (i < count)%nat ->
  let c := particle (generateShapePositions count rand target cube) i in
  let p := particle (generateShapePositions count rand target pyramid) i in
  (-112.5 <= vx c < 112.5 /\ -112.5 <= vy c < 112.5
   /\ -112.5 <= vz c < 112.5)
  /\ (-90 < vy p <= 90
      /\ Rabs (vx p) <= 45 - vy p / 2
      /\ Rabs (vz p) <= 45 - vy p / 2
      /\ vy p = (0.5 - rand (3 * i)%nat) * 180).
Proof.
  intros Hrand Hlen Hi c p.
  pose proof (Hrand (3 * i)%nat) as H0.
  pose proof (Hrand (3 * i + 1)%nat) as H1.
  pose proof (Hrand (3 * i + 2)%nat) as H2.
  unfold c, p. rewrite !generateShapePositions_particle by done.
  set (r0 := rand (3 * i)%nat) in *.
  set (r1 := rand (3 * i + 1)%nat) in *.
  set (r2 := rand (3 * i + 2)%nat) in *.
  unfold shapePoint. simpl. split.
  - repeat split; lra.
  - split; [lra|]. split; [|split; [|done]]; apply Rabs_le; nra.
Qed.

Lemma cube_and_pyramid_points_lie_inside_their_shapes_witness :
  let p :=
    particle (generateShapePositions 1 (fun _ => 0.25) [0; 0; 0] pyramid) 0 in
  -90 < vy p <= 90 /\ Rabs (vx p) <= 45 - vy p / 2.
Proof.
  intros p.
  destruct (cube_and_pyramid_points_lie_inside_their_shapes
              1 (fun _ => 0.25) [0; 0; 0] 0) as (_ & Hy & Hx & _).
  - intros k. lra.
  - simpl. lia.
  - lia.
  - split; [exact Hy | exact Hx].
Defined.

(** *** createParticles *)

Lemma for_range_pair_fst {A B : Type} (n : nat) (f : nat -> A -> A)
    (g : nat -> B -> B) (a : A) (b : B) :
  (for_range n (fun i '(x, y) => (f i x, g i y)) (a, b)).1
  = for_range n f a.
Proof.
  induction n as [|n IH]; [done|].
  rewrite !for_range_S.
  destruct (for_range n (fun i '(x, y) => (f i x, g i y)) (a, b)) as [x y].
  simpl in *. rewrite IH. done.
Qed.

Lemma for_range_pair_snd {A B : Type} (n : nat) (f : nat -> A -> A)
    (g : nat -> B -> B) (a : A) (b : B) :
  (for_range n (fun i '(x, y) => (f i x, g i y)) (a, b)).2
  = for_range n g b.
Proof.
  induction n as [|n IH]; [done|].
  rewrite !for_range_S.
  destruct (for_range n (fun i '(x, y) => (f i x, g i y)) (a, b)) as [x y].
  simpl in *. rewrite IH. done.
Qed.

Lemma createParticles_buffers (rand : nat -> R) (s : t) :
  let n := particleCount (config s) in
  let s' := created_sim (createParticles rand s) in
  (forall sh, length (shapes s' sh) = (n * 3)%nat)
  /\ positions s' = shapes s' sphere
  /\ originalPositions s' = shapes s' sphere
  /\ length (velocities s') = (n * 3)%nat
  /\ (forall j, get (velocities s') j = 0).
Proof.
  intros n s'.
  assert (Hsh : forall sh, length (shapes s' sh) = (n * 3)%nat).
  { intros sh. unfold s', createParticles. simpl.
    destruct sh; rewrite length_generateShapePositions, length_replicate;
      done. }
  split; [exact Hsh|]. split; [|split; [|split]].
  - unfold s', createParticles. cbn [created_sim positions shapes].
    rewrite (for_range_pair_fst (particleCount (config s) * 3)
               (fun i acc => store acc i (get _ i))
               (fun i acc => store acc i (get _ i))).
    apply for_range_store_copy; [apply (Hsh sphere)|apply length_replicate].
  - unfold s', createParticles. cbn [created_sim originalPositions shapes].
    rewrite (for_range_pair_snd (particleCount (config s) * 3)
               (fun i acc => store acc i (get _ i))
               (fun i acc => store acc i (get _ i))).
    apply for_range_store_copy; [apply (Hsh sphere)|apply length_replicate].
  - unfold s', createParticles. simpl.
    rewrite length_for_range_store. apply length_replicate.
  - intros j. unfold s', createParticles. simpl.
    destruct (le_lt_dec (particleCount (config s) * 3) j) as [Hge|Hlt].
    + rewrite get_for_range_store_ge by done. apply get_beyond.
      rewrite length_replicate. exact Hge.
    + apply get_for_range_store_lt; [exact Hlt|].
      rewrite length_replicate. exact Hlt.
Qed.

Lemma wf_createParticles (rand : nat -> R) (s : t) :
  wf (created_sim (createParticles rand s)).
Proof.
  destruct (createParticles_buffers rand s) as (Hsh & Hp & Ho & Hv & _).
  unfold wf.
  change (config (created_sim (createParticles rand s))) with (config s).
  split; [|split; [|split]].
  - etransitivity; [apply (f_equal length Hp)|apply Hsh].
  - etransitivity; [apply (f_equal length Ho)|apply Hsh].
  - exact Hv.
  - exact Hsh.
Qed.

(** X18.  [createParticles] starts the simulation at rest on the sphere:
    all buffers get the length [3 * particleCount], the position buffer
    and the origin buffer both equal the sphere cloud, so every particle
    has displacement zero, and every velocity entry is zero.  Every
    particle is grey, its three colour channels equal to one brightness in
    [[0.7, 1)], and its size lies in [[0.5, 1)]. *)
Theorem createParticles_starts_at_rest_on_the_sphere (rand : nat -> R)
    (s : t) (i : nat) :
  (forall k, 0 <= rand k < 1) ->
  (i < particleCount (config s))%nat ->
  let c := createParticles rand s in
  let s' := created_sim c in
  wf s'
  /\ positions s' = shapes s' sphere
  /\ originalPositions s' = shapes s' sphere
  /\ displacementOf (particle (positions s') i)
       (particle (originalPositions s') i) = 0
  /\ particle (velocities s') i = vzero
  /\ (exists b, 0.7 <= b < 1
        /\ particle (created_colors c) i = {| vx := b; vy := b; vz := b |})
  /\ 0.5 <= get (created_sizes c) i < 1.
Proof.
  intros Hrand Hi c s'. subst s' c.
  destruct (createParticles_buffers rand s) as (Hsh & Hp & Ho & Hv & Hv0).
  split; [apply wf_createParticles|]. split; [exact Hp|]. split; [exact Ho|].
  split; [rewrite Hp, Ho; apply displacementOf_self|].
  split; [unfold particle, vzero; rewrite !Hv0; done|].
  set (n := particleCount (config s)) in *.
  set (bright k := 0.7 + rand (n * 9 + 2 * k)%nat * 0.3).
  set (size k := 0.5 + rand (n * 9 + 2 * k + 1)%nat * 0.5).
  assert (Hc : created_colors (createParticles rand s)
               = for_range n
                   (fun k acc =>
                      store3 acc k
                        {| vx := bright k; vy := bright k; vz := bright k |})
                   (replicate (n * 3) 0)).
  { unfold createParticles. cbn [created_colors]. fold n.
    apply (for_range_pair_fst n
             (fun k acc =>
                store3 acc k
                  {| vx := bright k; vy := bright k; vz := bright k |})
             (fun k acc => store acc k (size k))). }
  assert (Hs : created_sizes (createParticles rand s)
               = for_range n (fun k acc => store acc k (size k))
                   (replicate n 0)).
  { unfold createParticles. cbn [created_sizes]. fold n.
    apply (for_range_pair_snd n
             (fun k acc =>
                store3 acc k
                  {| vx := bright k; vy := bright k; vz := bright k |})
             (fun k acc => store acc k (size k))). }
  split.
  - exists (bright i). split.
    + unfold bright. pose proof (Hrand (n * 9 + 2 * i)%nat). lra.
    + rewrite Hc.
      destruct (for_range_store3 n
                  (fun k => {| vx := bright k; vy := bright k; vz := bright k |})
                  (replicate (n * 3) 0)) as (_ & _ & Hpart).
      apply Hpart; [rewrite length_replicate; lia|exact Hi].
  - rewrite Hs, get_for_range_store_lt;
      [|exact Hi|rewrite length_replicate; exact Hi].
    unfold size. pose proof (Hrand (n * 9 + 2 * i + 1)%nat). lra.
Qed.

Lemma createParticles_starts_at_rest_on_the_sphere_witness :
  let c := createParticles (fun _ => 0.5) oneParticle in
  positions (created_sim c) = shapes (created_sim c) sphere
  /\ particle (velocities (created_sim c)) 0 = vzero
  /\ 0.5 <= get (created_sizes c) 0 < 1.
Proof.
  intros c.
  destruct (createParticles_starts_at_rest_on_the_sphere
              (fun _ => 0.5) oneParticle 0)
    as (_ & Hp & _ & _ & Hv & _ & Hs).
  - intros k. lra.
  - simpl. lia.
  - split; [exact Hp|]. split; [exact Hv | exact Hs].
Defined.

End ParticleSimulationExtra.

(** ** The page: event handlers and frames *)

Module PageExtra.
Import ParticleSimulation ParticleSimulationSpec ParticleSimulationExtra.

Lemma wf_with_isMouseDown (b : bool) (s : t) : wf s -> wf (with_isMouseDown b s).
Proof. intros H. exact H. Qed.

Lemma wf_toggleInvert (s : t) : wf s -> wf (toggleInvert s).
Proof. intros H. exact H. Qed.

Lemma animate_cases (time : R) (mousePos : Vector3) (rnd rndNote : R)
    (s : t) :
  let s' := state_of (animate time mousePos rnd rndNote s) in
  config s' = config s
  /\ shapes s' = shapes s
  /\ currentShape s' = currentShape s
  /\ originalPositions s' = originalPositions s
  /\ isInverted s' = isInverted s
  /\ isFrozen s' = isFrozen s
  /\ rotation_y s'
     = rotation_y s
       + rotationSpeed (config s) * (if isInverted s then -1 else 1)
  /\ (wf s -> wf s')
  /\ (isFrozen s = true ->
      positions s' = positions s /\ velocities s' = velocities s
      /\ soundManager s' = soundManager s)
  /\ (soundManager s' = soundManager s
      \/ exists intensity,
           soundManager s'
           = state_of (SoundManager.triggerInteractionSound intensity rndNote
                         (soundManager s))).
Proof.
  unfold animate.
  set (s1 := {| config := config s; isMouseDown := isMouseDown s;
                soundManager := soundManager s;
                currentShape := currentShape s; shapes := shapes s;
                isTransforming := isTransforming s; cooldown := cooldown s;
                isFrozen := isFrozen s; isInverted := isInverted s;
                positions := positions s;
                originalPositions := originalPositions s;
                velocities := velocities s;
                rotation_y := rotation_y s
                  + rotationSpeed (config s)
                    * (if isInverted s then -1 else 1);
                uTime := time |}).
  destruct (isFrozen s) eqn:Hf; simpl.
  - split_and!; try done; try (intros Hwf; exact Hwf). left. done.
  - destruct (updateParticles_frame time mousePos rnd rndNote s1)
      as (H1 & _ & H3 & H4 & H5 & H6 & H7 & H8 & _).
    split_and!; try done.
    + intros Hwf. apply wf_updateParticles. exact Hwf.
    + rewrite updateParticles_soundManager.
      destruct (audioTrigger _ _) as [e|]; [right; eauto|left; done].
Qed.

(** The sound manager of the page only changes by events of its own. *)
Lemma step_soundManager (e : PageEvent) (a : App) :
  exists es',
    soundManager (sim (step e a))
    = SoundManager.run es' (soundManager (sim a))
    /\ (isMousedown e = false ->
        Forall (fun x => match x with
                         | SoundManager.Init _ => False
                         | _ => True
                         end) es').
Proof.
  destruct e as [d|time mousePos rnd rndNote|ae].
  - destruct d as [x y w h ip|fresh| |x y w h ip|x y w h| |code|];
      try (exists []; split; [reflexivity|intros; constructor]).
    + simpl. unfold mousedownListener. destruct (hasInteracted a).
      * exists []. split; [reflexivity|intros; constructor].
      * exists [SoundManager.Init fresh]. split; [|discriminate].
        simpl. destruct (SoundManager.init fresh _); reflexivity.
    + destruct code; try (exists []; split; [reflexivity|intros; constructor]).
      * exists [SoundManager.SetInverted (negb (isInverted (sim a)))].
        split; [reflexivity|]. intros _. repeat constructor.
      * exists [SoundManager.ToggleMute].
        split; [reflexivity|]. intros _. repeat constructor.
  - simpl.
    destruct (animate_cases time mousePos rnd rndNote (sim a))
      as (_ & _ & _ & _ & _ & _ & _ & _ & _ & [Hsame|[i Htrig]]).
    + exists []. split; [exact Hsame|intros; constructor].
    + exists [SoundManager.Trigger i rndNote].
      split; [exact Htrig|]. intros _. repeat constructor.
  - simpl. destruct (browserEvent ae) eqn:Hb.
    + exists [ae]. split; [reflexivity|]. intros _.
      destruct ae; try discriminate; repeat constructor.
    + exists []. split; [reflexivity|intros; constructor].
Qed.

Lemma runPage_soundManager (es : list PageEvent) (a : App) :
  exists es',
    soundManager (sim (runPage es a))
    = SoundManager.run es' (soundManager (sim a)).
Proof.
  revert a. induction es as [|e es IH]; intros a; [exists []; done|].
  simpl. destruct (step_soundManager e a) as (es1 & H1 & _).
  destruct (IH (step e a)) as (es2 & H2).
  exists (es1 ++ es2). rewrite SoundManagerSpec.run_app, <- H1. exact H2.
Qed.

Lemma startPage_soundManager (cfg : Config) (rand : nat -> R) :
  soundManager (sim (startPage cfg rand)) = SoundManager.constructor.
Proof. reflexivity. Qed.

(** X19.  On the page, a frame never throws: in every state that DOM
    events, frames and the browser's audio events lead to from the start
    of the page, [animate] returns normally. *)
Theorem frames_never_throw (cfg : Config) (rand : nat -> R)
    (es : list PageEvent) (time : R) (mousePos : Vector3) (rnd rndNote : R) :
  exists s',
    animate time mousePos rnd rndNote (sim (runPage es (startPage cfg rand)))
    = Returns s'.
Proof.
  destruct (runPage_soundManager es (startPage cfg rand)) as (es' & Hsm).
  rewrite startPage_soundManager in Hsm.
  set (s := sim (runPage es (startPage cfg rand))) in *.
  assert (HI : SoundManager.Inv (soundManager s)).
  { rewrite Hsm. apply SoundManagerSpec.Inv_run, SoundManagerSpec.Inv_constructor. }
  unfold animate. destruct (isFrozen s); simpl; [eauto|].
  unfold updateParticles. destruct (audioTrigger _ _) as [e|]; [|eauto].
  cbn [soundManager].
  destruct (SoundManagerExtra.trigger_returns_of_Inv e rndNote _ HI)
    as (sm' & ->).
  eauto.
Qed.

(** *** Sound needs a mouse click *)

Lemma trigger_keeps_flags (intensity rnd : R) (sm : SoundManager.t) :
  let sm' := state_of (SoundManager.triggerInteractionSound intensity rnd sm) in
  SoundManager.isInitialized sm' = SoundManager.isInitialized sm
  /\ SoundManager.isInverted sm' = SoundManager.isInverted sm
  /\ SoundManager.isMuted sm' = SoundManager.isMuted sm
  /\ (SoundManager.isInitialized sm = false ->
      SoundManager.voices sm' = SoundManager.voices sm).
Proof.
  destruct (SoundManagerExtra.resume_fields sm)
    as (Hi & _ & Hinv & _ & _ & _ & _ & Hm & _ & Hv).
  unfold SoundManager.triggerInteractionSound.
  destruct (SoundManager.isInitialized sm) eqn:Hini; simpl.
  - destruct (SoundManager.isMuted sm) eqn:Hmu; simpl;
      [split_and!; done|].
    destruct (_ >=? _)%Z; simpl; [split_and!; done|].
    destruct (SoundManager.ctx (SoundManager.resume sm)) as [c|] eqn:Hc;
      simpl; [|split_and!; done].
    destruct (Rltb _ _); simpl; [split_and!; done|].
    unfold SoundManager.playNote. rewrite Hc. simpl. split_and!; done.
  - split_and!; done.
Qed.

Lemma step_initialised (e : PageEvent) (a : App) :
  let ini x := SoundManager.isInitialized (soundManager (sim x)) in
  let vs x := SoundManager.voices (soundManager (sim x)) in
  hasInteracted a = ini a ->
  hasInteracted (step e a) = ini (step e a)
  /\ ini (step e a) = ini a || createsContext e
  /\ (ini (step e a) = false -> vs (step e a) = vs a).
Proof.
  intros ini vs HP. unfold ini, vs in *.
  destruct e as [d|time mousePos rnd rndNote|ae].
  - destruct d as [x y w h ip|fresh| |x y w h ip|x y w h| |[]|];
      simpl; try (rewrite orb_false_r; split_and!; done).
    unfold mousedownListener.
    destruct (hasInteracted a) eqn:Hh; simpl.
      * rewrite <- HP. split_and!; done.
      * unfold SoundManager.init. rewrite <- HP.
        destruct fresh; simpl; split_and!; done.
  - simpl. rewrite orb_false_r.
    destruct (animate_cases time mousePos rnd rndNote (sim a))
      as (_ & _ & _ & _ & _ & _ & _ & _ & _ & [->|[i ->]]);
      [split_and!; done|].
    destruct (trigger_keeps_flags i rndNote (soundManager (sim a)))
      as (Hi & _ & _ & Hv).
    rewrite Hi. split_and!; try done; intros Hfalse; apply Hv, Hfalse.
  - simpl. rewrite orb_false_r. destruct (browserEvent ae) eqn:Hb;
      [|split_and!; done].
    destruct ae; try discriminate; simpl.
    + unfold SoundManager.timeoutCallback.
      destruct (_ !! _); simpl; split_and!; done.
    + unfold SoundManager.advance.
      destruct (SoundManager.ctx _); simpl; split_and!; done.
    + unfold SoundManager.setContextState.
      destruct (SoundManager.ctx _); simpl; split_and!; done.
Qed.

Lemma runPage_initialised (es : list PageEvent) (a : App) :
  let ini x := SoundManager.isInitialized (soundManager (sim x)) in
  let vs x := SoundManager.voices (soundManager (sim x)) in
  hasInteracted a = ini a ->
  hasInteracted (runPage es a) = ini (runPage es a)
  /\ ini (runPage es a) = ini a || existsb createsContext es
  /\ (ini (runPage es a) = false -> vs (runPage es a) = vs a).
Proof.
  intros ini vs. subst ini vs. cbv beta.
  revert a. induction es as [|e es IH]; intros a HP.
  - simpl. rewrite orb_false_r. split_and!; done.
  - destruct (step_initialised e a HP) as (H1 & H2 & H3).
    destruct (IH (step e a) H1) as (IH1 & IH2 & IH3).
    change (runPage (e :: es) a) with (runPage es (step e a)).
    split; [exact IH1|]. split.
    + rewrite IH2, H2. simpl. rewrite orb_assoc. done.
    + intros Hf. rewrite (IH3 Hf). apply H3.
      rewrite IH2 in Hf. apply orb_false_elim in Hf. apply Hf.
Qed.

(** Before the first successful click, a click that gets no context
    aborts the listener with the page as it was. *)
Lemma mousedownListener_aborts (a : App) :
  hasInteracted a = false ->
  SoundManager.isInitialized (soundManager (sim a)) = false ->
  mousedownListener SoundManager.ConstructorThrows a = Throws a.
Proof.
  intros Hh Hi. unfold mousedownListener, SoundManager.init.
  destruct a as [[] ? ? ?]. simpl in *. subst. rewrite Hi. reflexivity.
Qed.

(** X20.  Sound needs a mouse click that the browser honours.  From the
    start of the page, the sound manager is initialised exactly when some
    [mousedown] has occurred for which [new AudioContext()] handed out a
    context, and [hasInteracted] says the same; key presses, touch events,
    frames and a [mousedown] whose [new AudioContext()] throws never
    initialise it.  Until then no note has been started, however energetic
    the frames were, and a [mousedown] whose [new AudioContext()] throws
    aborts its listener and leaves the page as it was: not pressed, no
    morph started, and the next [mousedown] asks for a context again.
    Once the sound is initialised the [mousedown] listener returns
    whatever the browser would do. *)
Theorem sound_is_initialised_exactly_by_a_mousedown_that_gets_a_context
    (cfg : Config) (rand : nat -> R) (es : list PageEvent)
    (fresh : SoundManager.Construction) :
  let a := runPage es (startPage cfg rand) in
  SoundManager.isInitialized (soundManager (sim a))
  = existsb createsContext es
  /\ hasInteracted a = existsb createsContext es
  /\ (existsb createsContext es = false ->
      SoundManager.voices (soundManager (sim a)) = []
      /\ mousedownListener SoundManager.ConstructorThrows a = Throws a)
  /\ (existsb createsContext es = true ->
      exists a', mousedownListener fresh a = Returns a').
Proof.
  intros a.
  destruct (runPage_initialised es (startPage cfg rand) eq_refl)
    as (H1 & H2 & H3).
  fold a in H1, H2, H3. simpl in H2.
  split; [exact H2|]. split; [rewrite H1; exact H2|]. split.
  - intros Hno. split.
    + rewrite H3; [reflexivity|]. rewrite H2. exact Hno.
    + apply mousedownListener_aborts; [rewrite H1|]; rewrite H2; exact Hno.
  - intros Hyes. unfold mousedownListener. rewrite H1, H2, Hyes. eauto.
Qed.

Lemma sound_is_initialised_exactly_by_a_mousedown_that_gets_a_context_witness :
  let quiet :=
    [Dom (mousedown SoundManager.ConstructorThrows);
     Dom (touchstart 10 10 100 100); Dom (keydown KeyM);
     Frame 0 origin 0 0; Dom touchend] in
  let click :=
    Dom (mousedown (SoundManager.Constructed 0 SoundManager.running)) in
  let a := runPage quiet (startPage (config crowd) (fun _ => 0.5)) in
  let b :=
    runPage (quiet ++ [click]) (startPage (config crowd) (fun _ => 0.5)) in
  SoundManager.isInitialized (soundManager (sim a)) = false
  /\ SoundManager.voices (soundManager (sim a)) = []
  /\ mousedownListener SoundManager.ConstructorThrows a = Throws a
  /\ SoundManager.isInitialized (soundManager (sim b)) = true.
Proof.
  intros quiet click a b.
  destruct (sound_is_initialised_exactly_by_a_mousedown_that_gets_a_context
              (config crowd) (fun _ => 0.5) quiet
              SoundManager.ConstructorThrows) as (Hini & _ & Hquiet & _).
  destruct (Hquiet eq_refl) as (Hsilent & Hthrows).
  destruct (sound_is_initialised_exactly_by_a_mousedown_that_gets_a_context
              (config crowd) (fun _ => 0.5) (quiet ++ [click])
              SoundManager.ConstructorThrows) as (Hini' & _).
  split_and!; [exact Hini | exact Hsilent | exact Hthrows | exact Hini'].
Defined.

(** *** What the page keeps *)

Lemma step_keeps_layout (e : PageEvent) (a : App) :
  wf (sim a) ->
  originalPositions (sim a) = shapes (sim a) (currentShape (sim a)) ->
  wf (sim (step e a))
  /\ config (sim (step e a)) = config (sim a)
  /\ shapes (sim (step e a)) = shapes (sim a)
  /\ originalPositions (sim (step e a))
     = shapes (sim (step e a)) (currentShape (sim (step e a))).
Proof.
  intros Hwf Hsync.
  assert (Htoggle : forall s, wf s ->
            wf (toggleShape s) /\ config (toggleShape s) = config s
            /\ shapes (toggleShape s) = shapes s
            /\ originalPositions (toggleShape s)
               = shapes (toggleShape s) (currentShape (toggleShape s))).
  { intros s Hs. split; [apply wf_toggleShape, Hs|].
    split; [reflexivity|]. split; [reflexivity|].
    rewrite toggleShape_originalPositions by exact Hs.
    rewrite toggleShape_currentShape. reflexivity. }
  destruct e as [d|time mousePos rnd rndNote|ae].
  - destruct d as [x y w h ip|fresh| |x y w h ip|x y w h| |[]|];
      simpl; try (split_and!; done).
    + unfold mousedownListener. destruct (hasInteracted a).
      * destruct (Htoggle (with_isMouseDown true (sim a)) Hwf)
          as (T1 & T2 & T3 & T4).
        split_and!; [exact T1|exact T2|exact T3|exact T4].
      * destruct (SoundManager.init fresh (soundManager (sim a)))
          as [sm'|sm']; [|simpl; split_and!; done].
        destruct (Htoggle
                    (with_isMouseDown true (with_soundManager sm' (sim a)))
                    Hwf)
          as (T1 & T2 & T3 & T4).
        split_and!; [exact T1|exact T2|exact T3|exact T4].
    + destruct (Htoggle (sim a) Hwf) as (T1 & T2 & T3 & T4).
      split_and!; [exact T1|exact T2|exact T3|exact T4].
  - simpl.
    destruct (animate_cases time mousePos rnd rndNote (sim a))
      as (H1 & H2 & H3 & H4 & _ & _ & _ & H8 & _).
    rewrite H1, H2, H3, H4. split_and!; try done. apply H8, Hwf.
  - simpl. destruct (browserEvent ae); split_and!; done.
Qed.

Lemma runPage_keeps_layout (es : list PageEvent) (a : App) :
  wf (sim a) ->
  originalPositions (sim a) = shapes (sim a) (currentShape (sim a)) ->
  wf (sim (runPage es a))
  /\ config (sim (runPage es a)) = config (sim a)
  /\ shapes (sim (runPage es a)) = shapes (sim a)
  /\ originalPositions (sim (runPage es a))
     = shapes (sim (runPage es a)) (currentShape (sim (runPage es a))).
Proof.
  revert a. induction es as [|e es IH]; intros a Hwf Hsync; [done|].
  destruct (step_keeps_layout e a Hwf Hsync) as (H1 & H2 & H3 & H4).
  destruct (IH (step e a) H1 H4) as (I1 & I2 & I3 & I4).
  change (runPage (e :: es) a) with (runPage es (step e a)).
  rewrite I2, I3, H2, H3. split_and!; try done. rewrite <- H3, <- I3. exact I4.
Qed.

(** X21.  Whatever DOM events, frames and audio events occur after the
    start of the page, the three particle buffers and the three shape
    clouds keep the length [3 * particleCount]; the configuration and the
    shape clouds are never changed; and the origin buffer always holds the
    cloud of the current shape, so the particles are always pulled toward
    the shape that [currentShape] names. *)
Theorem the_page_keeps_its_buffers_and_morph_target (cfg : Config)
    (rand : nat -> R) (es : list PageEvent) :
  let a0 := startPage cfg rand in
  let s := sim (runPage es a0) in
  wf s
  /\ config s = cfg
  /\ shapes s = shapes (sim a0)
  /\ originalPositions s = shapes s (currentShape s)
  /\ length (positions s) = (particleCount cfg * 3)%nat
  /\ length (velocities s) = (particleCount cfg * 3)%nat.
Proof.
  intros a0 s.
  assert (Hwf0 : wf (sim a0)) by apply wf_createParticles.
  assert (Hsync0 : originalPositions (sim a0)
                   = shapes (sim a0) (currentShape (sim a0))).
  { unfold a0, startPage. cbn [sim].
    match goal with
    | |- context [createParticles ?r ?s0] =>
        destruct (createParticles_buffers r s0) as (_ & _ & Ho & _)
    end.
    exact Ho. }
  destruct (runPage_keeps_layout es a0 Hwf0 Hsync0) as (H1 & H2 & H3 & H4).
  fold s in H1, H2, H3, H4.
  split; [exact H1|]. split; [exact H2|]. split; [exact H3|].
  split; [exact H4|].
  destruct H1 as (Hp & _ & Hv & _). rewrite H2 in Hp, Hv.
  split; [exact Hp | exact Hv].
Qed.

(** *** Colours and scale stay together *)

Lemma step_keeps_inversion_in_step (e : PageEvent) (a : App) :
  SoundManager.isInverted (soundManager (sim a)) = isInverted (sim a) ->
  SoundManager.isInverted (soundManager (sim (step e a)))
  = isInverted (sim (step e a)).
Proof.
  intros HS.
  destruct e as [d|time mousePos rnd rndNote|ae].
  - destruct d as [x y w h ip|fresh| |x y w h ip|x y w h| |[]|];
      simpl; try done.
    unfold mousedownListener. destruct (hasInteracted a); simpl; [done|].
    unfold SoundManager.init.
    destruct (SoundManager.isInitialized _); simpl; [done|].
    destruct fresh; simpl; done.
  - simpl.
    destruct (animate_cases time mousePos rnd rndNote (sim a))
      as (_ & _ & _ & _ & H5 & _ & _ & _ & _ & [->|[i ->]]);
      rewrite H5; [done|].
    destruct (trigger_keeps_flags i rndNote (soundManager (sim a)))
      as (_ & -> & _). done.
  - simpl. destruct (browserEvent ae) eqn:Hb; [|done].
    destruct ae; try discriminate; simpl.
    + unfold SoundManager.timeoutCallback. destruct (_ !! _); done.
    + unfold SoundManager.advance. destruct (SoundManager.ctx _); done.
    + unfold SoundManager.setContextState.
      destruct (SoundManager.ctx _); done.
Qed.

(** X22.  The colour mode and the musical scale never drift apart: in
    every state of the page the inversion flag of the sound manager equals
    that of the simulation, and the scale in use is the dark one exactly
    when the colours are inverted. *)
Theorem scale_follows_the_colour_mode (cfg : Config) (rand : nat -> R)
    (es : list PageEvent) :
  let s := sim (runPage es (startPage cfg rand)) in
  SoundManager.isInverted (soundManager s) = isInverted s
  /\ SoundManager.currentScale (soundManager s)
     = (if isInverted s then SoundManager.scaleInverted
        else SoundManager.scaleDefault).
Proof.
  intros s.
  assert (Hflag : SoundManager.isInverted (soundManager s) = isInverted s).
  { unfold s. generalize (startPage cfg rand) (eq_refl :
      SoundManager.isInverted (soundManager (sim (startPage cfg rand)))
      = isInverted (sim (startPage cfg rand))).
    induction es as [|e es IH]; intros a Ha; [exact Ha|].
    apply (IH (step e a)), step_keeps_inversion_in_step, Ha. }
  split; [exact Hflag|]. rewrite <- Hflag.
  destruct (runPage_soundManager es (startPage cfg rand)) as (es' & Hsm).
  fold s in Hsm. rewrite Hsm, startPage_soundManager.
  apply (SoundManagerExtra.ScaleMatches_run es' SoundManager.constructor).
  reflexivity.
Qed.

(** *** What moves particles *)

(** X23.  Only an unfrozen frame moves particles: no DOM event (pointer,
    touch, key, resize), no audio event and no frame of a frozen
    simulation changes any entry of the position or velocity buffer. *)
Theorem only_an_unfrozen_frame_moves_particles (e : PageEvent) (a : App) :
  (forall time mousePos rnd rndNote,
     e = Frame time mousePos rnd rndNote -> isFrozen (sim a) = true) ->
  positions (sim (step e a)) = positions (sim a)
  /\ velocities (sim (step e a)) = velocities (sim a).
Proof.
  intros Hfrozen.
  destruct e as [d|time mousePos rnd rndNote|ae].
  - destruct d as [x y w h ip|fresh| |x y w h ip|x y w h| |[]|];
      simpl; try done.
    unfold mousedownListener. destruct (hasInteracted a); [done|].
    destruct (SoundManager.init fresh _); done.
  - simpl.
    destruct (animate_cases time mousePos rnd rndNote (sim a))
      as (_ & _ & _ & _ & _ & _ & _ & _ & Hf & _).
    destruct (Hf (Hfrozen _ _ _ _ eq_refl)) as (Hp & Hv & _).
    split; [exact Hp | exact Hv].
  - simpl. destruct (browserEvent ae); done.
Qed.

Lemma only_an_unfrozen_frame_moves_particles_witness :
  let a := {| sim := oneParticle; hasInteracted := false;
              mouse := (9999, 9999); mouseWorld := origin |} in
  let click :=
    Dom (mousedown (SoundManager.Constructed 0 SoundManager.running)) in
  positions (sim (step click a)) = [12; 1; 0]
  /\ velocities (sim (step click a)) = [1; 0; 2].
Proof.
  intros a click.
  apply (only_an_unfrozen_frame_moves_particles click a).
  intros time mousePos rnd rndNote H. discriminate H.
Defined.

(** *** The pointer *)

(** X24.  The pointer handlers map the window onto the square
    [[-1, 1] x [-1, 1]] with the vertical axis flipped: the top-left corner
    goes to [(-1, 1)], the bottom-right corner to [(1, -1)] and every
    point of the window in between.  A [mousemove] also takes over the
    world position from the raycaster and leaves the simulation alone; a
    [touchstart] presses the pointer and updates the normalised position
    but keeps the world position of the last move, which is the one the
    physics uses. *)
Theorem pointer_is_normalised_to_the_unit_square
    (clientX clientY innerWidth innerHeight : R) (intersectPoint : Vector3)
    (a : App) :
  0 < innerWidth -> 0 < innerHeight ->
  0 <= clientX <= innerWidth -> 0 <= clientY <= innerHeight ->
  let moved :=
    handle (mousemove clientX clientY innerWidth innerHeight intersectPoint)
      a in
  let touched :=
    handle (touchstart clientX clientY innerWidth innerHeight) a in
  -1 <= (mouse moved).1 <= 1
  /\ -1 <= (mouse moved).2 <= 1
  /\ normalise 0 0 innerWidth innerHeight = (-1, 1)
  /\ normalise innerWidth innerHeight innerWidth innerHeight = (1, -1)
  /\ mouseWorld moved = intersectPoint
  /\ sim moved = sim a
  /\ mouse touched = mouse moved
  /\ mouseWorld touched = mouseWorld a
  /\ isMouseDown (sim touched) = true.
Proof.
  intros Hw Hh Hx Hy moved touched. unfold moved, touched. simpl.
  assert (Hqx : 0 <= clientX / innerWidth <= 1).
  { split.
    - apply Rmult_le_pos; [lra|]. left. apply Rinv_0_lt_compat. exact Hw.
    - apply (Rmult_le_reg_r innerWidth); [exact Hw|].
      unfold Rdiv. rewrite Rmult_assoc, Rinv_l by lra. lra. }
  assert (Hqy : 0 <= clientY / innerHeight <= 1).
  { split.
    - apply Rmult_le_pos; [lra|]. left. apply Rinv_0_lt_compat. exact Hh.
    - apply (Rmult_le_reg_r innerHeight); [exact Hh|].
      unfold Rdiv. rewrite Rmult_assoc, Rinv_l by lra. lra. }
  split; [lra|]. split; [lra|]. split.
  { unfold normalise. f_equal; field; lra. }
  split.
  { unfold normalise. f_equal; field; lra. }
  split_and!; reflexivity.
Qed.

Lemma pointer_is_normalised_to_the_unit_square_witness :
  let a := {| sim := oneParticle; hasInteracted := false;
              mouse := (9999, 9999); mouseWorld := origin |} in
  -1 <= (mouse (handle (mousemove 200 150 800 600 origin) a)).1 <= 1
  /\ normalise 0 0 800 600 = (-1, 1).
Proof.
  intros a.
  destruct (pointer_is_normalised_to_the_unit_square
              200 150 800 600 origin a) as (H1 & _ & H3 & _); try lra.
  split; [exact H1 | exact H3].
Defined.

(** *** Rotation over many frames *)

(** X25.  Over any run of frames the cloud turns by the same angle per
    frame, whatever the frame times, the pointer and the random draws
    are, and whether or not the simulation is frozen: after [n] frames
    the rotation angle has grown by
    [n * rotationSpeed * (-1 if inverted else 1)]. *)
Theorem rotation_advances_by_a_fixed_angle_per_frame (es : list PageEvent)
    (a : App) :
  Forall (fun e => exists time mousePos rnd rndNote,
                     e = Frame time mousePos rnd rndNote) es ->
  rotation_y (sim (runPage es a))
  = rotation_y (sim a)
    + INR (length es)
      * (rotationSpeed (config (sim a))
         * (if isInverted (sim a) then -1 else 1)).
Proof.
  revert a. induction es as [|e es IH]; intros a Hall.
  - simpl. lra.
  - inversion Hall as [|? ? (time & mousePos & rnd & rndNote & ->) Hes]; subst.
    change (runPage (Frame time mousePos rnd rndNote :: es) a)
      with (runPage es (step (Frame time mousePos rnd rndNote) a)).
    rewrite (IH _ Hes).
    destruct (animate_cases time mousePos rnd rndNote (sim a))
      as (H1 & _ & _ & _ & H5 & _ & H7 & _).
    cbn [step sim]. rewrite H1, H5, H7.
    change (length (Frame time mousePos rnd rndNote :: es)) with (S (length es)).
    rewrite S_INR. lra.
Qed.

Lemma rotation_advances_by_a_fixed_angle_per_frame_witness :
  let a := {| sim := frozenInverted; hasInteracted := false;
              mouse := (9999, 9999); mouseWorld := origin |} in
  rotation_y (sim (runPage [Frame 1 origin 0 0; Frame 5 origin 0.3 0.7] a))
  = 0 + INR 2 * (0.003 * -1).
Proof.
  intros a.
  apply (rotation_advances_by_a_fixed_angle_per_frame
           [Frame 1 origin 0 0; Frame 5 origin 0.3 0.7] a).
  repeat constructor; eauto.
Defined.

End PageExtra.
